(** * claude_sync: the safe synchronization engine

    A shallow embedding of the TypeScript sources
      - [src/sync/sync-state.ts]   (JsonSyncStateDatabase, hashes and ids),
      - [src/sync/backup-manager.ts] (BackupManager),
      - [src/sync/sync-validator.ts] (SyncValidator),
      - [src/sync/safe-sync.ts]    (SafeSync),
      - [src/api/mock-claude-client.ts] (the in-repository remote store),
    followed by the properties of the engine that the specification states.

    Modelling conventions.
      - [Date] values are milliseconds since the epoch, in [Z]; comparing two
        dates compares these numbers.
      - Asynchronous methods run strictly one after the other, so an
        [async] method is a state transformer over [World] that either
        returns a value or throws; [await] is sequencing.
      - A JavaScript [Map] iterates in insertion order and has one entry per
        key: it is a list of values whose key is computed from the value.
      - The file system is a finite map from resolved path names to nodes.
        Directories are implicit in path names: a path that holds no node
        can be listed, and lists the files below it; [Directory] nodes
        exist so that the [isFile()] test and the failing branches can be
        exercised.
      - Paths are taken to be normalised, so [path.join] is concatenation
        with a separator and [path.relative] strips the base.
      - The state file of the database, [~/.claude-sync/state/<id>.json],
        is the [dbFile] field of the database, apart from the map of the
        other files: what the map says of the file system leaves the state
        file out.
      - The remote store behind the [ClaudeAPIClient] interface is the one
        of the repository's [MockClaudeClient]: it reports for each file the
        update time recorded when the file was uploaded.
      - What the program takes from outside (the hash function, the passing
        of time, the random source, the fidelity of the disk, the process
        environment) is a parameter [Env] of the functions that use it. *)

From Stdlib Require Import ZArith String Ascii List Bool Lia.
From stdpp Require Import base tactics option list gmap strings pretty sorting.

Open Scope string_scope.
Open Scope list_scope.
Open Scope Z_scope.

(* ================================================================== *)
(** * Part I: definitions                                              *)
(* ================================================================== *)

(** ** Strings and paths *)

Fixpoint strip_prefix (p s : string) : option string :=
  match p, s with
  | EmptyString, _ => Some s
  | String a p', String b s' => if decide (a = b) then strip_prefix p' s' else None
  | String _ _, EmptyString => None
  end.

(** [String.prototype.startsWith] *)
Definition startsWith (s p : string) : bool :=
  match strip_prefix p s with Some _ => true | None => false end.

(** [String.prototype.includes] *)
Fixpoint includes (s pat : string) : bool :=
  match strip_prefix pat s with
  | Some _ => true
  | None => match s with
            | EmptyString => false
            | String _ s' => includes s' pat
            end
  end.

(** [String.prototype.endsWith] *)
Fixpoint endsWith (s suf : string) : bool :=
  if decide (s = suf) then true
  else match s with
       | EmptyString => false
       | String _ s' => endsWith s' suf
       end.

(** [String.prototype.replace] with a string pattern: the first occurrence. *)
Fixpoint replace_first (s pat rep : string) : string :=
  match strip_prefix pat s with
  | Some rest => rep +:+ rest
  | None => match s with
            | EmptyString => EmptyString
            | String a s' => String a (replace_first s' pat rep)
            end
  end.

Definition path_join (a b : string) : string := a +:+ "/" +:+ b.

Definition path_relative (base p : string) : string :=
  match strip_prefix (base +:+ "/") p with
  | Some r => r
  | None => p
  end.

Fixpoint path_basename (p : string) : string :=
  match p with
  | EmptyString => EmptyString
  | String c p' =>
      if includes p' "/" then path_basename p'
      else if decide (c = "/"%char) then p' else p
  end.

(** The part of [p] before its last separator, if it has one. *)
Fixpoint before_last_sep (p : string) : option string :=
  match p with
  | EmptyString => None
  | String c p' =>
      match before_last_sep p' with
      | Some d => Some (String c d)
      | None => if decide (c = "/"%char) then Some EmptyString else None
      end
  end.

Definition path_dirname (p : string) : string :=
  match before_last_sep p with
  | Some EmptyString => "/"
  | Some d => d
  | None => "."
  end.

(** The components of a path, split at the separators. *)
Fixpoint path_components_aux (acc : string) (p : string) : list string :=
  match p with
  | EmptyString => [String.rev acc]
  | String c p' =>
      if decide (c = "/"%char) then String.rev acc :: path_components_aux EmptyString p'
      else path_components_aux (String c acc) p'
  end.

Definition path_components (p : string) : list string :=
  path_components_aux EmptyString p.

(** [Array.prototype.slice(start)], negative [start] counting from the end. *)
Definition js_slice {A : Type} (start : Z) (l : list A) : list A :=
  if start <? 0
  then drop (Z.to_nat (Z.max (Z.of_nat (length l) + start) 0)) l
  else drop (Z.to_nat start) l.

(** ** Data model (sync-state.ts, sync-validator.ts, safe-sync.ts) *)

Module SyncState.

Inductive Direction := upload | download | both.

Inductive ConflictState := cs_none | cs_local_newer | cs_remote_newer | cs_both_modified.

Record SyncStateEntry := {
  fileId : string;
  projectId : string;
  localPath : string;
  remoteId : option string;
  localHash : string;
  remoteHash : option string;
  localMtime : Z;
  remoteMtime : option Z;
  lastSyncTime : Z;
  syncDirection : Direction;
  conflictState : ConflictState;
  size : Z;
  isDeleted : bool
}.

Record BackupEntry := {
  backupId : string;
  originalPath : string;
  backupPath : string;
  createdAt : Z;
  fileHash : string;
  backupProjectId : string;
  reason : string
}.

End SyncState.
Export SyncState.

(** A file of the remote knowledge base (api/interfaces.ts). The fields the
    engine never reads (name, mimeType, metadata) are left out; the ISO
    time stamps are kept as the instants they denote. *)
Record ClaudeKnowledgeFile := {
  kf_id : string;
  kf_path : string;
  kf_sizeBytes : Z;
  kf_createdAt : Z;
  kf_updatedAt : Z;
  kf_content : option string
}.

#[global] Instance Direction_eq_dec : EqDecision Direction.
Proof. solve_decision. Defined.
#[global] Instance ConflictState_eq_dec : EqDecision ConflictState.
Proof. solve_decision. Defined.
#[global] Instance SyncStateEntry_eq_dec : EqDecision SyncStateEntry.
Proof. solve_decision. Defined.
#[global] Instance BackupEntry_eq_dec : EqDecision BackupEntry.
Proof. solve_decision. Defined.
#[global] Instance ClaudeKnowledgeFile_eq_dec : EqDecision ClaudeKnowledgeFile.
Proof. solve_decision. Defined.

(** ** The world the engine runs in *)

Record FileData := { content : string; mtime : Z; readable : bool }.

Inductive Node := File (f : FileData) | Directory (dir_mtime : Z).

Definition node_mtime (n : Node) : Z :=
  match n with File f => f.(mtime) | Directory t => t end.

(** What the state file [~/.claude-sync/state/<project>.json] holds. *)
Record Persisted := {
  p_syncStates : list SyncStateEntry;
  p_backups : list BackupEntry
}.

Inductive StateFile := FileAbsent | FileCorrupt | FileJson (d : Persisted).

(** The fields of a [JsonSyncStateDatabase] object, with its file. *)
Record Database := {
  dbFile : StateFile;
  syncStates : list SyncStateEntry;
  backups : list BackupEntry;
  initialized : bool
}.

Inductive GitProbe := git_not_a_repo | git_clean | git_dirty | git_failed.

(** What the host answers to [statfs], [access] and [git]. *)
Record Host := {
  availableBytes : option Z;
  canRead : bool;
  canWrite : bool;
  gitStatus : GitProbe
}.

Record World := {
  fs : gmap string Node;
  db : Database;
  remote : list (string * list ClaudeKnowledgeFile);
  clock : Z;
  entropy : nat;
  host : Host
}.

(** What lies outside the program: the hash function, the passing of time
    between two readings of the clock, the random source, the rendering of
    a date in a file name, what [fs.copyFile] really lands on the disk
    (the identity on a sound disk), and the process environment. *)
Record Env := {
  sha256 : string → string;
  tick : Z → Z;
  randomHex : nat → string;
  toISOString : Z → string;
  copied : string → string;
  homedir : string;
  cwd : string
}.

Definition set_fs (f : gmap string Node) (w : World) : World :=
  {| fs := f; db := w.(db); remote := w.(remote); clock := w.(clock);
     entropy := w.(entropy); host := w.(host) |}.

Definition set_db (d : Database) (w : World) : World :=
  {| fs := w.(fs); db := d; remote := w.(remote); clock := w.(clock);
     entropy := w.(entropy); host := w.(host) |}.

Definition set_remote (r : list (string * list ClaudeKnowledgeFile)) (w : World) : World :=
  {| fs := w.(fs); db := w.(db); remote := r; clock := w.(clock);
     entropy := w.(entropy); host := w.(host) |}.

Definition set_clock (c : Z) (w : World) : World :=
  {| fs := w.(fs); db := w.(db); remote := w.(remote); clock := c;
     entropy := w.(entropy); host := w.(host) |}.

Definition set_entropy (n : nat) (w : World) : World :=
  {| fs := w.(fs); db := w.(db); remote := w.(remote); clock := w.(clock);
     entropy := n; host := w.(host) |}.

(** ** Promises: state and exceptions *)

Inductive Outcome (A : Type) := Ok (a : A) | Throw (message : string).
Arguments Ok {A} a.
Arguments Throw {A} message.

Definition M (A : Type) : Type := World → Outcome A * World.

Definition ret {A} (a : A) : M A := λ w, (Ok a, w).

Definition throw {A} (message : string) : M A := λ w, (Throw message, w).

Definition bind {A B} (m : M A) (k : A → M B) : M B :=
  λ w, match m w with
       | (Ok a, w') => k a w'
       | (Throw e, w') => (Throw e, w')
       end.

(** [try { m } catch (error) { h error.message }] *)
Definition try_catch {A} (m : M A) (h : string → M A) : M A :=
  λ w, match m w with
       | (Ok a, w') => (Ok a, w')
       | (Throw e, w') => h e w'
       end.

(** [try { m } finally { f }], for a finaliser that does not throw to its
    caller's result: the outcome of [m] survives unless [f] throws. *)
Definition try_finally {A} (m : M A) (f : M unit) : M A :=
  λ w, match m w with
       | (r, w') => match f w' with
                    | (Ok _, w'') => (r, w'')
                    | (Throw e, w'') => (Throw e, w'')
                    end
       end.

Declare Scope promise_scope.
Delimit Scope promise_scope with promise.
Notation "'await' x ← m ; k" := (bind m (λ x, k))
  (at level 20, x name, m at level 100, k at level 200) : promise_scope.
Notation "'run' m ; k" := (bind m (λ _, k))
  (at level 20, m at level 100, k at level 200) : promise_scope.
Open Scope promise_scope.

Definition get_world : M World := λ w, (Ok w, w).

Definition modify (f : World → World) : M unit := λ w, (Ok tt, f w).

(** [for (const x of l) { body x }] *)
Fixpoint for_each {A} (l : list A) (body : A → M unit) : M unit :=
  match l with
  | [] => ret tt
  | x :: l' => run body x; for_each l' body
  end.

(** A loop that threads a local variable through its iterations. *)
Fixpoint fold_each {A S} (l : list A) (body : S → A → M S) (s : S) : M S :=
  match l with
  | [] => ret s
  | x :: l' => await s' ← body s x; fold_each l' body s'
  end.

(** [new Date()]: read the clock; time passes. *)
Definition new_Date (E : Env) : M Z :=
  λ w, (Ok w.(clock), set_clock (E.(tick) w.(clock)) w).

(** [crypto.randomBytes(n).toString('hex')] *)
Definition randomBytes (E : Env) : M string :=
  λ w, (Ok (E.(randomHex) w.(entropy)), set_entropy (S w.(entropy)) w).

(** ** The file system ([fs/promises]) *)

Definition resolve (E : Env) (p : string) : string :=
  if startsWith p "/" then p else path_join E.(cwd) p.

(** [path.relative(process.cwd(), p)] *)
Definition relative_to_cwd (E : Env) (p : string) : string :=
  path_relative E.(cwd) (resolve E p).

Definition fs_stat (E : Env) (p : string) : M Node :=
  λ w, match w.(fs) !! resolve E p with
       | Some n => (Ok n, w)
       | None => (Throw "ENOENT: no such file or directory", w)
       end.

Definition fs_access (E : Env) (p : string) : M unit :=
  await _ ← fs_stat E p; ret tt.

Definition fs_readFile (E : Env) (p : string) : M string :=
  λ w, match w.(fs) !! resolve E p with
       | Some (File f) =>
           if f.(readable) then (Ok f.(content), w)
           else (Throw "EACCES: permission denied", w)
       | Some (Directory _) => (Throw "EISDIR: illegal operation on a directory", w)
       | None => (Throw "ENOENT: no such file or directory", w)
       end.

(** Writing keeps the permissions of a file that is already there. *)
Definition write_node (E : Env) (p c : string) (w : World) : Outcome unit * World :=
  match w.(fs) !! resolve E p with
  | Some (Directory _) => (Throw "EISDIR: illegal operation on a directory", w)
  | Some (File f) =>
      (Ok tt, set_fs (<[resolve E p := File {| content := c; mtime := w.(clock);
                                               readable := f.(readable) |}]> w.(fs)) w)
  | None =>
      (Ok tt, set_fs (<[resolve E p := File {| content := c; mtime := w.(clock);
                                               readable := true |}]> w.(fs)) w)
  end.

Definition fs_writeFile (E : Env) (p c : string) : M unit := write_node E p c.

Definition fs_copyFile (E : Env) (src dst : string) : M unit :=
  await c ← fs_readFile E src;
  write_node E dst (E.(copied) c).

Definition fs_unlink (E : Env) (p : string) : M unit :=
  λ w, match w.(fs) !! resolve E p with
       | Some (File _) => (Ok tt, set_fs (delete (resolve E p) w.(fs)) w)
       | Some (Directory _) => (Throw "EPERM: operation not permitted", w)
       | None => (Throw "ENOENT: no such file or directory", w)
       end.

(** [fs.mkdir(dir, { recursive: true })]: fails only on a file in the way. *)
Definition fs_mkdir (E : Env) (dir : string) : M unit :=
  λ w, match w.(fs) !! resolve E dir with
       | Some (File _) => (Throw "EEXIST: file already exists", w)
       | _ => (Ok tt, w)
       end.

(** ** JavaScript maps *)

(** [m.set(key v, v)]: replace in place, or append. *)
Fixpoint map_set {V} (key : V → string) (v : V) (m : list V) : list V :=
  match m with
  | [] => [v]
  | x :: m' => if decide (key x = key v) then v :: m' else x :: map_set key v m'
  end.

Definition map_get {V} (key : V → string) (k : string) (m : list V) : option V :=
  List.find (λ x, bool_decide (key x = k)) m.

Definition map_delete {V} (key : V → string) (k : string) (m : list V) : list V :=
  filter (λ x, key x ≠ k) m.

(** ** JsonSyncStateDatabase (sync-state.ts) *)

Module JsonSyncStateDatabase.

Definition getStateKey (projectId localPath : string) : string :=
  projectId +:+ ":" +:+ localPath.

Definition stateKey (e : SyncStateEntry) : string :=
  getStateKey e.(projectId) e.(localPath).

Definition set_syncStates (l : list SyncStateEntry) (d : Database) : Database :=
  {| dbFile := d.(dbFile); syncStates := l; backups := d.(backups);
     initialized := d.(initialized) |}.

Definition set_backups (l : list BackupEntry) (d : Database) : Database :=
  {| dbFile := d.(dbFile); syncStates := d.(syncStates); backups := l;
     initialized := d.(initialized) |}.

(** The body of [initialize] once the guard has been passed. Reading a
    missing or invalid file lands in the [catch], which clears both maps. *)
Definition load (d : Database) : Database :=
  match d.(dbFile) with
  | FileJson parsed =>
      {| dbFile := d.(dbFile);
         syncStates := foldl (λ m entry, map_set stateKey entry m)
                             d.(syncStates) parsed.(p_syncStates);
         backups := foldl (λ m backup, map_set backupId backup m)
                          d.(backups) parsed.(p_backups);
         initialized := true |}
  | _ =>
      {| dbFile := d.(dbFile); syncStates := []; backups := [];
         initialized := true |}
  end.

Definition initialize : M unit :=
  λ w, if w.(db).(initialized) then (Ok tt, w)
       else (Ok tt, set_db (load w.(db)) w).

(** Write to a temporary file, then rename: the file holds the new data. *)
Definition saved (d : Database) : Database :=
  {| dbFile := FileJson {| p_syncStates := d.(syncStates); p_backups := d.(backups) |};
     syncStates := d.(syncStates); backups := d.(backups);
     initialized := d.(initialized) |}.

Definition save : M unit := modify (λ w, set_db (saved w.(db)) w).

Definition getFileState (projectId localPath : string) : M (option SyncStateEntry) :=
  run initialize;
  await w ← get_world;
  ret (map_get stateKey (getStateKey projectId localPath) w.(db).(syncStates)).

Definition saveFileState (entry : SyncStateEntry) : M unit :=
  run initialize;
  run modify (λ w, set_db (set_syncStates (map_set stateKey entry w.(db).(syncStates)) w.(db)) w);
  save.

Definition deleteFileState (projectId localPath : string) : M unit :=
  run initialize;
  run modify (λ w, set_db (set_syncStates
        (map_delete stateKey (getStateKey projectId localPath) w.(db).(syncStates)) w.(db)) w);
  save.

Definition listFileStates (pid : string) : M (list SyncStateEntry) :=
  run initialize;
  await w ← get_world;
  ret (filter (λ entry, entry.(projectId) = pid) w.(db).(syncStates)).

Definition createBackup (entry : BackupEntry) : M unit :=
  run initialize;
  run modify (λ w, set_db (set_backups (map_set backupId entry w.(db).(backups)) w.(db)) w);
  save.

(** The filter of [listBackups]: an absent or empty [originalPath] selects
    every backup of the project. *)
Definition selected (pid : string) (path : option string) (backup : BackupEntry) : Prop :=
  backup.(backupProjectId) = pid ∧
  match path with
  | Some p => p = "" ∨ backup.(originalPath) = p
  | None => True
  end.

#[global] Instance selected_dec pid path backup : Decision (selected pid path backup).
Proof. unfold selected. destruct path; apply _. Defined.

(** [sort((a, b) => b.createdAt - a.createdAt)]: newest first, and stable,
    as [Array.prototype.sort] is. *)
Fixpoint insert_newest_first (b : BackupEntry) (l : list BackupEntry) : list BackupEntry :=
  match l with
  | [] => [b]
  | x :: l' =>
      if bool_decide (x.(createdAt) ≤ b.(createdAt)) then b :: x :: l'
      else x :: insert_newest_first b l'
  end.

Definition sort_newest_first (l : list BackupEntry) : list BackupEntry :=
  foldr insert_newest_first [] l.

Definition listBackups (pid : string) (path : option string) : M (list BackupEntry) :=
  run initialize;
  await w ← get_world;
  ret (sort_newest_first (filter (selected pid path) w.(db).(backups))).

Definition deleteBackup (E : Env) (id : string) : M unit :=
  run initialize;
  await w ← get_world;
  match map_get backupId id w.(db).(backups) with
  | Some backup =>
      run try_catch (fs_unlink E backup.(backupPath)) (λ _, ret tt);
      run modify (λ w, set_db (set_backups (map_delete backupId id w.(db).(backups)) w.(db)) w);
      save
  | None => ret tt
  end.

(** [backupsByPath]: a map from original path to the array of its backups. *)
Fixpoint push_group (b : BackupEntry) (groups : list (string * list BackupEntry))
  : list (string * list BackupEntry) :=
  match groups with
  | [] => [(b.(originalPath), [b])]
  | (p, g) :: rest =>
      if decide (p = b.(originalPath)) then (p, (g ++ [b])%list) :: rest
      else (p, g) :: push_group b rest
  end.

Definition group_by_path (pid : string) (bs : list BackupEntry)
  : list (string * list BackupEntry) :=
  foldl (λ groups b, if decide (b.(backupProjectId) = pid) then push_group b groups
                     else groups) [] bs.

Definition cleanupOldBackups (E : Env) (pid : string) (retentionCount : Z) : M unit :=
  run initialize;
  await w ← get_world;
  let backupsByPath := group_by_path pid w.(db).(backups) in
  for_each backupsByPath (λ group,
    let backupsForFile := sort_newest_first group.2 in
    let toDelete := js_slice retentionCount backupsForFile in
    for_each toDelete (λ backup, deleteBackup E backup.(backupId))).

Definition close : M unit :=
  await w ← get_world;
  if w.(db).(initialized) then save else ret tt.

End JsonSyncStateDatabase.

Definition calculateFileHash (E : Env) (filePath : string) : M string :=
  await c ← fs_readFile E filePath;
  ret (E.(sha256) c).

Definition generateFileId (E : Env) (pid path : string) : string :=
  substring 0 16 (E.(sha256) (pid +:+ ":" +:+ path)).

Definition generateBackupId (E : Env) : M string := randomBytes E.

(** ** BackupManager (backup-manager.ts) *)

Module BackupManager.

Inductive BackupLocation := loc_local | loc_remote | loc_both.

Record BackupOptions := {
  enabled : bool;
  retentionCount : Z;
  compressionLevel : Z;
  location : BackupLocation;
  autoCleanup : bool
}.

Record BackupResult := {
  success : bool;
  result_backupId : option string;
  result_backupPath : option string;
  error : option string
}.


(** The fields of a [BackupManager]; its [database] is the one of the world. *)
Record t := {
  projectId : string;
  options : BackupOptions;
  backupBaseDir : string
}.

Definition new (E : Env) (pid : string) (opts : BackupOptions) : t :=
  {| projectId := pid;
     options := opts;
     backupBaseDir :=
       path_join (path_join (path_join E.(homedir) ".claude-sync") "backups") pid |}.

Definition succeeded : BackupResult :=
  {| success := true; result_backupId := None; result_backupPath := None; error := None |}.

Definition failed (message : string) : BackupResult :=
  {| success := false; result_backupId := None; result_backupPath := None;
     error := Some message |}.

(** [timestamp.replace(/[:.]/g, '-')] *)
Fixpoint dashed (s : string) : string :=
  match s with
  | EmptyString => EmptyString
  | String c s' =>
      String (if decide (c = ":"%char ∨ c = "."%char) then "-"%char else c) (dashed s')
  end.

(** The name of the copy: file name, time stamp and short id. *)
Definition backupFileName (E : Env) (originalPath backupId : string) (stamp : Z) : string :=
  let timestamp := dashed (E.(toISOString) stamp) in
  let fileName := path_basename originalPath in
  fileName +:+ "." +:+ timestamp +:+ "." +:+ substring 0 8 backupId +:+ ".bak".

Definition createBackup (E : Env) (this : t) (originalPath reason : string)
  : M BackupResult :=
  if negb this.(options).(enabled) then ret succeeded
  else
    try_catch
      (await stats ← fs_stat E originalPath;
       match stats with
       | Directory _ => ret (failed "Path is not a file")
       | File _ =>
           run fs_mkdir E this.(backupBaseDir);
           await backupId ← generateBackupId E;
           await stamp ← new_Date E;
           let backupPath :=
             path_join this.(backupBaseDir) (backupFileName E originalPath backupId stamp) in
           await fileHash ← calculateFileHash E originalPath;
           run fs_copyFile E originalPath backupPath;
           await backupHash ← calculateFileHash E backupPath;
           if negb (bool_decide (fileHash = backupHash)) then
             run try_catch (fs_unlink E backupPath) (λ _, ret tt);
             ret (failed "Backup integrity verification failed")
           else
             await created ← new_Date E;
             let backupEntry :=
               {| backupId := backupId;
                  originalPath := relative_to_cwd E originalPath;
                  backupPath := backupPath;
                  createdAt := created;
                  fileHash := fileHash;
                  backupProjectId := this.(projectId);
                  reason := reason |} in
             run JsonSyncStateDatabase.createBackup backupEntry;
             run (if this.(options).(autoCleanup)
                  then JsonSyncStateDatabase.cleanupOldBackups E this.(projectId)
                         this.(options).(retentionCount)
                  else ret tt);
             ret {| success := true; result_backupId := Some backupId;
                    result_backupPath := Some backupPath; error := None |}
       end)
      (λ message, ret (failed message)).

(** [targetPath || backup.originalPath] *)
Definition restore_path (targetPath : option string) (backup : BackupEntry) : string :=
  match targetPath with
  | Some p => if bool_decide (p = "") then backup.(originalPath) else p
  | None => backup.(originalPath)
  end.

Definition restoreFromBackup (E : Env) (this : t) (id : string) (targetPath : option string)
  : M BackupResult :=
  try_catch
    (await backups ← JsonSyncStateDatabase.listBackups this.(projectId) None;
     match List.find (λ b, bool_decide (b.(backupId) = id)) backups with
     | None => ret (failed "Backup not found")
     | Some backup =>
         await present ← try_catch (run fs_access E backup.(backupPath); ret true)
                                   (λ _, ret false);
         if negb present then ret (failed "Backup file no longer exists on disk")
         else
           let restorePath := restore_path targetPath backup in
           run fs_mkdir E (path_dirname restorePath);
           run fs_copyFile E backup.(backupPath) restorePath;
           await restoredHash ← calculateFileHash E restorePath;
           if negb (bool_decide (restoredHash = backup.(fileHash))) then
             ret (failed "Restored file integrity verification failed")
           else
             ret {| success := true; result_backupId := Some backup.(backupId);
                    result_backupPath := Some restorePath; error := None |}
     end)
    (λ message, ret (failed message)).

Definition listBackups (this : t) (originalPath : option string) : M (list BackupEntry) :=
  JsonSyncStateDatabase.listBackups this.(projectId) originalPath.

Definition deleteBackup (E : Env) (this : t) (id : string) : M BackupResult :=
  try_catch (run JsonSyncStateDatabase.deleteBackup E id; ret succeeded)
            (λ message, ret (failed message)).

Definition cleanupOldBackups (E : Env) (this : t) : M (Z * list string) :=
  try_catch
    (await backupsBefore ← JsonSyncStateDatabase.listBackups this.(projectId) None;
     run JsonSyncStateDatabase.cleanupOldBackups E this.(projectId)
           this.(options).(retentionCount);
     await backupsAfter ← JsonSyncStateDatabase.listBackups this.(projectId) None;
     ret (Z.of_nat (length backupsBefore) - Z.of_nat (length backupsAfter), []))
    (λ message, ret (0, [message])).

Definition hasFileChangedSinceBackup (E : Env) (this : t) (filePath : string) : M bool :=
  try_catch
    (await currentHash ← calculateFileHash E filePath;
     await backups ← listBackups this (Some (relative_to_cwd E filePath));
     match backups with
     | [] => ret true
     | latestBackup :: _ => ret (negb (bool_decide (currentHash = latestBackup.(fileHash))))
     end)
    (λ _, ret true).

Definition createBackupIfChanged (E : Env) (this : t) (originalPath reason : string)
  : M BackupResult :=
  await hasChanged ← hasFileChangedSinceBackup E this originalPath;
  if negb hasChanged then ret succeeded
  else createBackup E this originalPath reason.

End BackupManager.

(** ** MockClaudeClient (api/mock-claude-client.ts)

    The remote store: per project, a map from file id to file. The project
    counters that the mock also keeps are not read by the engine and are
    left out. *)

Module MockClaudeClient.

Definition project_files (pid : string) (w : World) : option (list ClaudeKnowledgeFile) :=
  snd <$> map_get fst pid w.(remote).

Definition listKnowledgeFiles (pid : string) : M (list ClaudeKnowledgeFile) :=
  λ w, match project_files pid w with
       | Some projectFiles => (Ok projectFiles, w)
       | None => (Throw ("Project with ID " +:+ pid +:+ " not found"), w)
       end.

Definition getKnowledgeFile (pid fid : string) : M ClaudeKnowledgeFile :=
  λ w, match project_files pid w with
       | None => (Throw ("Project with ID " +:+ pid +:+ " not found"), w)
       | Some projectFiles =>
           match map_get kf_id fid projectFiles with
           | Some file => (Ok file, w)
           | None => (Throw ("File with ID " +:+ fid +:+ " not found in project " +:+ pid), w)
           end
       end.

Definition uploadKnowledgeFile (E : Env) (pid filePath content : string)
  : M ClaudeKnowledgeFile :=
  await w ← get_world;
  match project_files pid w with
  | None => throw ("Project with ID " +:+ pid +:+ " not found")
  | Some _ =>
      await now ← new_Date E;
      await hex ← randomBytes E;
      let file :=
        {| kf_id := "file_" +:+ hex;
           kf_path := filePath;
           kf_sizeBytes := Z.of_nat (String.length content);
           kf_createdAt := now;
           kf_updatedAt := now;
           kf_content := Some content |} in
      run modify (λ w,
        match project_files pid w with
        | Some projectFiles =>
            set_remote (map_set fst (pid, map_set kf_id file projectFiles) w.(remote)) w
        | None => w
        end);
      ret file
  end.

Definition deleteKnowledgeFile (pid fid : string) : M unit :=
  λ w, match project_files pid w with
       | None => (Throw ("Project with ID " +:+ pid +:+ " not found"), w)
       | Some projectFiles =>
           match map_get kf_id fid projectFiles with
           | Some _ =>
               (Ok tt, set_remote (map_set fst (pid, map_delete kf_id fid projectFiles)
                                     w.(remote)) w)
           | None =>
               (Throw ("File with ID " +:+ fid +:+ " not found in project " +:+ pid), w)
           end
       end.

Definition getCurrentUser : M unit := ret tt.

End MockClaudeClient.

(** ** Walking the local tree

    Both [getLocalFiles] walk the tree below the root with [fs.readdir] and
    return the regular files they keep. On the flat file system the walk is
    a selection among the paths below the root; [keep] sees a path relative
    to the root. The walk throws when the root is not a directory. *)

Definition walk (E : Env) (root : string) (keep : string → bool) (w : World) : list string :=
  omap (λ entry : string * Node,
          match entry.2 with
          | File _ =>
              match strip_prefix (resolve E root +:+ "/") entry.1 with
              | Some rel => if keep rel then Some (path_join root rel) else None
              | None => None
              end
          | Directory _ => None
          end)
       (map_to_list w.(fs)).

Definition scanDirectory (E : Env) (root : string) (keep : string → bool) : M (list string) :=
  λ w, match w.(fs) !! resolve E root with
       | Some (File _) => (Throw "ENOTDIR: not a directory, scandir", w)
       | _ => (Ok (walk E root keep w), w)
       end.

(** ** SyncValidator (sync-validator.ts) *)

Module SyncValidator.

Inductive IssueType := error | warning | info.

Record ValidationIssue := {
  type : IssueType;
  code : string;
  message : string;
  issue_filePath : option string;
  suggestion : option string
}.

Inductive ConflictType :=
  local_newer | remote_newer | both_modified | local_deleted | remote_deleted.

Record ConflictInfo := {
  filePath : string;
  conflictType : ConflictType;
  localMtime : option Z;
  remoteMtime : option Z;
  lastSyncTime : option Z;
  localHash : option string;
  remoteHash : option string
}.

Record Stats := {
  localFiles : Z;
  remoteFiles : Z;
  conflictFiles : Z;
  newLocalFiles : Z;
  newRemoteFiles : Z;
  unchangedFiles : Z
}.

Record ValidationResult := {
  isValid : bool;
  canProceed : bool;
  issues : list ValidationIssue;
  conflicts : list ConflictInfo;
  stats : Stats;
  recommendations : list string
}.

Record Options := {
  checkDiskSpace : bool;
  checkPermissions : bool;
  checkGitStatus : bool;
  checkNetworkConnectivity : bool;
  maxConflictCount : Z;
  allowForce : bool
}.

(** The fields of a [SyncValidator]; database and client are the world's. *)
Record t := {
  projectId : string;
  localPath : string;
  options : Options
}.

#[global] Instance IssueType_eq_dec : EqDecision IssueType.
Proof. solve_decision. Defined.
#[global] Instance ConflictType_eq_dec : EqDecision ConflictType.
Proof. solve_decision. Defined.

(** The three arrays and counters that [validate] hands to its checks. *)
Record Findings := {
  found_issues : list ValidationIssue;
  found_conflicts : list ConflictInfo;
  found_stats : Stats
}.

Definition push_issue (i : ValidationIssue) (f : Findings) : Findings :=
  {| found_issues := f.(found_issues) ++ [i];
     found_conflicts := f.(found_conflicts);
     found_stats := f.(found_stats) |}%list.

Definition push_conflict (c : ConflictInfo) (f : Findings) : Findings :=
  {| found_issues := f.(found_issues);
     found_conflicts := f.(found_conflicts) ++ [c];
     found_stats := f.(found_stats) |}%list.

Definition with_stats (g : Stats → Stats) (f : Findings) : Findings :=
  {| found_issues := f.(found_issues);
     found_conflicts := f.(found_conflicts);
     found_stats := g f.(found_stats) |}.

Definition set_localFiles (n : Z) (s : Stats) : Stats :=
  {| localFiles := n; remoteFiles := s.(remoteFiles); conflictFiles := s.(conflictFiles);
     newLocalFiles := s.(newLocalFiles); newRemoteFiles := s.(newRemoteFiles);
     unchangedFiles := s.(unchangedFiles) |}.

Definition set_remoteFiles (n : Z) (s : Stats) : Stats :=
  {| localFiles := s.(localFiles); remoteFiles := n; conflictFiles := s.(conflictFiles);
     newLocalFiles := s.(newLocalFiles); newRemoteFiles := s.(newRemoteFiles);
     unchangedFiles := s.(unchangedFiles) |}.

Definition set_conflictFiles (n : Z) (s : Stats) : Stats :=
  {| localFiles := s.(localFiles); remoteFiles := s.(remoteFiles); conflictFiles := n;
     newLocalFiles := s.(newLocalFiles); newRemoteFiles := s.(newRemoteFiles);
     unchangedFiles := s.(unchangedFiles) |}.

Definition incr_newLocalFiles (s : Stats) : Stats :=
  {| localFiles := s.(localFiles); remoteFiles := s.(remoteFiles);
     conflictFiles := s.(conflictFiles);
     newLocalFiles := s.(newLocalFiles) + 1; newRemoteFiles := s.(newRemoteFiles);
     unchangedFiles := s.(unchangedFiles) |}.

Definition incr_newRemoteFiles (s : Stats) : Stats :=
  {| localFiles := s.(localFiles); remoteFiles := s.(remoteFiles);
     conflictFiles := s.(conflictFiles);
     newLocalFiles := s.(newLocalFiles); newRemoteFiles := s.(newRemoteFiles) + 1;
     unchangedFiles := s.(unchangedFiles) |}.

Definition incr_unchangedFiles (s : Stats) : Stats :=
  {| localFiles := s.(localFiles); remoteFiles := s.(remoteFiles);
     conflictFiles := s.(conflictFiles);
     newLocalFiles := s.(newLocalFiles); newRemoteFiles := s.(newRemoteFiles);
     unchangedFiles := s.(unchangedFiles) + 1 |}.

(** [Math.round(bytes / 1024 / 1024)] *)
Definition megabytes (bytes : Z) : Z := (bytes + 524288) `div` 1048576.

Definition doCheckDiskSpace (f : Findings) : M Findings :=
  await w ← get_world;
  match w.(host).(availableBytes) with
  | Some availableBytes =>
      let requiredBytes := 100 * 1024 * 1024 in
      if bool_decide (availableBytes < requiredBytes) then
        ret (push_issue
          {| type := error; code := "LOW_DISK_SPACE";
             message := "Insufficient disk space. Available: " +:+ pretty (megabytes availableBytes)
                        +:+ "MB, Required: " +:+ pretty (megabytes requiredBytes) +:+ "MB";
             issue_filePath := None;
             suggestion := Some "Free up disk space before syncing" |} f)
      else if bool_decide (availableBytes < requiredBytes * 2) then
        ret (push_issue
          {| type := warning; code := "LOW_DISK_SPACE_WARNING";
             message := "Low disk space. Available: " +:+ pretty (megabytes availableBytes)
                        +:+ "MB";
             issue_filePath := None;
             suggestion := Some "Consider freeing up disk space" |} f)
      else ret f
  | None =>
      ret (push_issue
        {| type := warning; code := "DISK_SPACE_CHECK_FAILED";
           message := "Could not check disk space";
           issue_filePath := None;
           suggestion := Some "Ensure sufficient disk space is available" |} f)
  end.

Definition doCheckPermissions (this : t) (f : Findings) : M Findings :=
  await w ← get_world;
  if w.(host).(canRead) && w.(host).(canWrite) then ret f
  else
    ret (push_issue
      {| type := error; code := "PERMISSION_ERROR";
         message := "Insufficient permissions for " +:+ this.(localPath);
         issue_filePath := None;
         suggestion := Some "Check file permissions and ensure you have read/write access" |} f).

Definition doCheckGitStatus (f : Findings) : M Findings :=
  await w ← get_world;
  match w.(host).(gitStatus) with
  | git_not_a_repo => ret f
  | git_clean => ret f
  | git_dirty =>
      ret (push_issue
        {| type := warning; code := "GIT_UNCOMMITTED_CHANGES";
           message := "Git working directory has uncommitted changes";
           issue_filePath := None;
           suggestion :=
             Some "Consider committing changes before syncing for better recovery options" |} f)
  | git_failed =>
      ret (push_issue
        {| type := info; code := "GIT_CHECK_FAILED";
           message := "Could not check Git status";
           issue_filePath := None;
           suggestion := Some "Git checks are optional" |} f)
  end.

Definition doCheckNetworkConnectivity (f : Findings) : M Findings :=
  try_catch
    (run MockClaudeClient.getCurrentUser; ret f)
    (λ _, ret (push_issue
       {| type := error; code := "NETWORK_ERROR";
          message := "Cannot connect to Claude API";
          issue_filePath := None;
          suggestion := Some "Check your internet connection and API credentials" |} f)).

(** The entries [getLocalFiles] keeps: no ignored directory on the way, and
    a file name that neither ends in [.log] nor starts with a dot. *)
Definition ignored_directories : list string :=
  ["node_modules"; ".git"; "dist"; ".claude-sync"].

Definition kept (rel : string) : bool :=
  match reverse (path_components rel) with
  | [] => false
  | name :: directories =>
      forallb (λ d, negb (bool_decide (d ∈ ignored_directories))) directories
      && negb (endsWith name ".log") && negb (startsWith name ".")
  end.

Definition getLocalFiles (E : Env) (this : t) : M (list string) :=
  scanDirectory E this.(localPath) kept.

(** The body of the loop of [validateLocalFiles], inside its [try]. *)
Definition inspectLocalFile (E : Env) (this : t) (f : Findings) (filePath : string)
  : M Findings :=
  let relativePath := path_relative this.(localPath) filePath in
  await fileState ← JsonSyncStateDatabase.getFileState this.(projectId) relativePath;
  match fileState with
  | None => ret (with_stats incr_newLocalFiles f)
  | Some fileState =>
      await currentHash ← calculateFileHash E filePath;
      if negb (bool_decide (currentHash = fileState.(SyncState.localHash))) then
        await fileStat ← fs_stat E filePath;
        match fileState.(SyncState.remoteMtime) with
        | Some remoteTime =>
            if bool_decide (node_mtime fileStat > fileState.(SyncState.lastSyncTime)) then
              ret (push_conflict
                {| filePath := relativePath;
                   conflictType := local_newer;
                   localMtime := Some (node_mtime fileStat);
                   remoteMtime := Some remoteTime;
                   lastSyncTime := Some fileState.(SyncState.lastSyncTime);
                   localHash := Some currentHash;
                   remoteHash := fileState.(SyncState.remoteHash) |} f)
            else ret f
        | None => ret f
        end
      else ret (with_stats incr_unchangedFiles f)
  end.

Definition validateLocalFiles (E : Env) (this : t) (f : Findings) : M Findings :=
  try_catch
    (await localFiles ← getLocalFiles E this;
     let f := with_stats (set_localFiles (Z.of_nat (length localFiles))) f in
     fold_each localFiles (λ f filePath,
       try_catch (inspectLocalFile E this f filePath)
         (λ _, ret (push_issue
            {| type := warning; code := "FILE_READ_ERROR";
               message := "Cannot read file: " +:+ path_relative this.(localPath) filePath;
               issue_filePath := Some filePath;
               suggestion := Some "Check file permissions" |} f))) f)
    (λ message, ret (push_issue
       {| type := error; code := "LOCAL_SCAN_ERROR";
          message := "Cannot scan local files: " +:+ message;
          issue_filePath := None;
          suggestion := Some "Check local directory permissions" |} f)).

(** The body of the loop of [validateRemoteFiles]. *)
Definition inspectRemoteFile (E : Env) (this : t) (f : Findings)
  (remoteFile : ClaudeKnowledgeFile) : M Findings :=
  await fileState ← JsonSyncStateDatabase.getFileState this.(projectId) remoteFile.(kf_path);
  match fileState with
  | None => ret (with_stats incr_newRemoteFiles f)
  | Some fileState =>
      let remoteTime := remoteFile.(kf_updatedAt) in
      if bool_decide (remoteTime > fileState.(SyncState.lastSyncTime)) then
        let localPath := path_join this.(localPath) remoteFile.(kf_path) in
        try_catch
          (await localStat ← fs_stat E localPath;
           if bool_decide (node_mtime localStat > fileState.(SyncState.lastSyncTime)) then
             ret (push_conflict
               {| filePath := remoteFile.(kf_path);
                  conflictType := both_modified;
                  localMtime := Some (node_mtime localStat);
                  remoteMtime := Some remoteTime;
                  lastSyncTime := Some fileState.(SyncState.lastSyncTime);
                  localHash := None; remoteHash := None |} f)
           else
             ret (push_conflict
               {| filePath := remoteFile.(kf_path);
                  conflictType := remote_newer;
                  localMtime := None;
                  remoteMtime := Some remoteTime;
                  lastSyncTime := Some fileState.(SyncState.lastSyncTime);
                  localHash := None; remoteHash := None |} f))
          (λ _, ret (push_conflict
             {| filePath := remoteFile.(kf_path);
                conflictType := local_deleted;
                localMtime := None;
                remoteMtime := Some remoteTime;
                lastSyncTime := Some fileState.(SyncState.lastSyncTime);
                localHash := None; remoteHash := None |} f))
      else ret f
  end.

Definition validateRemoteFiles (E : Env) (this : t) (f : Findings) : M Findings :=
  try_catch
    (await remoteFiles ← MockClaudeClient.listKnowledgeFiles this.(projectId);
     let f := with_stats (set_remoteFiles (Z.of_nat (length remoteFiles))) f in
     fold_each remoteFiles (inspectRemoteFile E this) f)
    (λ message, ret (push_issue
       {| type := error; code := "REMOTE_SCAN_ERROR";
          message := "Cannot scan remote files: " +:+ message;
          issue_filePath := None;
          suggestion := Some "Check API credentials and network connection" |} f)).

Definition detectConflicts (E : Env) (this : t) (f : Findings) : M Findings :=
  await fileStates ← JsonSyncStateDatabase.listFileStates this.(projectId);
  await remoteFiles ← MockClaudeClient.listKnowledgeFiles this.(projectId);
  let remoteFilePaths := kf_path <$> remoteFiles in
  fold_each fileStates (λ f fileState,
    let localPath := path_join this.(localPath) fileState.(SyncState.localPath) in
    try_catch
      (run fs_access E localPath; ret f)
      (λ _, if bool_decide (fileState.(SyncState.localPath) ∈ remoteFilePaths) then
              ret (push_conflict
                {| filePath := fileState.(SyncState.localPath);
                   conflictType := local_deleted;
                   localMtime := None; remoteMtime := None;
                   lastSyncTime := Some fileState.(SyncState.lastSyncTime);
                   localHash := None; remoteHash := None |} f)
            else ret f)) f.

Definition has_errors (l : list ValidationIssue) : bool :=
  existsb (λ issue, bool_decide (issue.(type) = error)) l.

Definition has_warnings (l : list ValidationIssue) : bool :=
  existsb (λ issue, bool_decide (issue.(type) = warning)) l.

Definition when (b : bool) (l : list string) : list string := if b then l else [].

Definition generateRecommendations (issues : list ValidationIssue)
  (conflicts : list ConflictInfo) (stats : Stats) : list string :=
  (when (bool_decide (Z.of_nat (length conflicts) > 0))
     (["Review conflicts before proceeding";
       "Consider using --dry-run to preview changes"]
      ++ when (bool_decide (Z.of_nat (length conflicts) > 5))
           ["Consider syncing in smaller batches"])
   ++ when (bool_decide (stats.(newLocalFiles) > 0) || bool_decide (stats.(newRemoteFiles) > 0))
        ["Enable backups for safety"]
   ++ when (has_errors issues) ["Fix errors before attempting sync"]
   ++ when (has_warnings issues) ["Address warnings for optimal sync experience"]
   ++ when (bool_decide (stats.(localFiles) > 100) || bool_decide (stats.(remoteFiles) > 100))
        ["Large number of files detected - sync may take some time"])%list.

(** The [try] block of [validate]: the checks in order. A check either
    completes or throws before it has pushed anything, so the [catch] sees
    the findings of the checks that completed. *)
Fixpoint checks_in_order (steps : list (Findings → M Findings)) (f : Findings) : M Findings :=
  match steps with
  | [] => ret f
  | step :: rest =>
      λ w, match step f w with
           | (Ok f', w') => checks_in_order rest f' w'
           | (Throw message, w') =>
               (Ok (push_issue
                  {| type := error; code := "VALIDATION_ERROR";
                     message := "Validation failed: " +:+ message;
                     issue_filePath := None;
                     suggestion := Some "Check your configuration and try again" |} f), w')
           end
  end.

Definition enabled_if (b : bool) (step : Findings → M Findings) : Findings → M Findings :=
  if b then step else ret.

Definition validate (E : Env) (this : t) (direction : Direction) : M ValidationResult :=
  let start :=
    {| found_issues := []; found_conflicts := [];
       found_stats := {| localFiles := 0; remoteFiles := 0; conflictFiles := 0;
                         newLocalFiles := 0; newRemoteFiles := 0; unchangedFiles := 0 |} |} in
  await f ← checks_in_order
    [ enabled_if this.(options).(checkDiskSpace) doCheckDiskSpace;
      enabled_if this.(options).(checkPermissions) (doCheckPermissions this);
      enabled_if this.(options).(checkGitStatus) doCheckGitStatus;
      enabled_if this.(options).(checkNetworkConnectivity) doCheckNetworkConnectivity;
      enabled_if (bool_decide (direction = SyncState.upload ∨ direction = both))
                 (validateLocalFiles E this);
      enabled_if (bool_decide (direction = SyncState.download ∨ direction = both))
                 (validateRemoteFiles E this);
      enabled_if (bool_decide (direction = both)) (detectConflicts E this) ] start;
  let issues := f.(found_issues) in
  let conflicts := f.(found_conflicts) in
  let stats := set_conflictFiles (Z.of_nat (length conflicts)) f.(found_stats) in
  let hasErrors := has_errors issues in
  let tooManyConflicts :=
    bool_decide (Z.of_nat (length conflicts) > this.(options).(maxConflictCount)) in
  let canProceed := negb hasErrors && (negb tooManyConflicts || this.(options).(allowForce)) in
  let recommendations := generateRecommendations issues conflicts stats in
  ret {| isValid := negb hasErrors;
         canProceed := canProceed;
         issues := issues;
         conflicts := conflicts;
         stats := stats;
         recommendations := recommendations |}.

End SyncValidator.

(** ** SafeSync (safe-sync.ts) *)

Module SafeSync.

Inductive ConflictResolution := ask | skip | local_wins | remote_wins | backup_and_merge.

Record ValidationOptions := {
  enabled : bool;
  checkDiskSpace : bool;
  checkPermissions : bool;
  checkGitStatus : bool;
  checkNetworkConnectivity : bool;
  maxConflictCount : Z
}.

Record Options := {
  direction : Direction;
  dryRun : bool;
  backup : BackupManager.BackupOptions;
  validation : ValidationOptions;
  conflictResolution : ConflictResolution;
  force : bool;
  verbose : bool;
  excludePatterns : list string
}.

Inductive OperationType := upload | download | delete_local | delete_remote.

Record SyncOperation := {
  type : OperationType;
  filePath : string;
  reason : string;
  conflictType : option string;
  backupRequired : bool
}.

Record Stats := {
  filesUploaded : Z;
  filesDownloaded : Z;
  filesSkipped : Z;
  conflictsResolved : Z;
  backupsCreated : Z;
  totalOperations : Z
}.

(** [stats.duration], a difference of two wall-clock readings, is left out. *)
Record SyncResult := {
  success : bool;
  result_dryRun : bool;
  operations : list SyncOperation;
  executedOperations : list SyncOperation;
  skippedOperations : list SyncOperation;
  errors : list string;
  warnings : list string;
  stats : Stats;
  validationResult : option SyncValidator.ValidationResult
}.

#[global] Instance ConflictResolution_eq_dec : EqDecision ConflictResolution.
Proof. solve_decision. Defined.
#[global] Instance OperationType_eq_dec : EqDecision OperationType.
Proof. solve_decision. Defined.
#[global] Instance SyncOperation_eq_dec : EqDecision SyncOperation.
Proof. solve_decision. Defined.

(** The fields of a [SafeSync]; client and database are the world's. *)
Record t := {
  projectId : string;
  localPath : string;
  options : Options;
  backupManager : BackupManager.t;
  validator : SyncValidator.t
}.

Definition default_options : Options :=
  {| direction := both;
     dryRun := false;
     backup := {| BackupManager.enabled := true;
                  BackupManager.retentionCount := 5;
                  BackupManager.compressionLevel := 0;
                  BackupManager.location := BackupManager.loc_local;
                  BackupManager.autoCleanup := true |};
     validation := {| enabled := true; checkDiskSpace := true; checkPermissions := true;
                      checkGitStatus := true; checkNetworkConnectivity := true;
                      maxConflictCount := 10 |};
     conflictResolution := ask;
     force := false;
     verbose := false;
     excludePatterns := ["node_modules/**"; ".git/**"; "*.log"; ".claude-sync/**"] |}.

Definition new (E : Env) (pid root : string) (opts : Options) : t :=
  {| projectId := pid;
     localPath := root;
     options := opts;
     backupManager := BackupManager.new E pid opts.(backup);
     validator :=
       {| SyncValidator.projectId := pid;
          SyncValidator.localPath := root;
          SyncValidator.options :=
            {| SyncValidator.checkDiskSpace := opts.(validation).(checkDiskSpace);
               SyncValidator.checkPermissions := opts.(validation).(checkPermissions);
               SyncValidator.checkGitStatus := opts.(validation).(checkGitStatus);
               SyncValidator.checkNetworkConnectivity :=
                 opts.(validation).(checkNetworkConnectivity);
               SyncValidator.maxConflictCount := opts.(validation).(maxConflictCount);
               SyncValidator.allowForce := opts.(force) |} |} |}.

(** *** Updating the result object *)

Definition set_operations (ops : list SyncOperation) (r : SyncResult) : SyncResult :=
  {| success := r.(success); result_dryRun := r.(result_dryRun); operations := ops;
     executedOperations := r.(executedOperations);
     skippedOperations := r.(skippedOperations); errors := r.(errors);
     warnings := r.(warnings); stats := r.(stats);
     validationResult := r.(validationResult) |}.

Definition push_executed (op : SyncOperation) (r : SyncResult) : SyncResult :=
  {| success := r.(success); result_dryRun := r.(result_dryRun);
     operations := r.(operations);
     executedOperations := r.(executedOperations) ++ [op];
     skippedOperations := r.(skippedOperations); errors := r.(errors);
     warnings := r.(warnings); stats := r.(stats);
     validationResult := r.(validationResult) |}%list.

Definition push_skipped (op : SyncOperation) (r : SyncResult) : SyncResult :=
  {| success := r.(success); result_dryRun := r.(result_dryRun);
     operations := r.(operations);
     executedOperations := r.(executedOperations);
     skippedOperations := r.(skippedOperations) ++ [op]; errors := r.(errors);
     warnings := r.(warnings); stats := r.(stats);
     validationResult := r.(validationResult) |}%list.

Definition push_error (message : string) (r : SyncResult) : SyncResult :=
  {| success := r.(success); result_dryRun := r.(result_dryRun);
     operations := r.(operations);
     executedOperations := r.(executedOperations);
     skippedOperations := r.(skippedOperations); errors := r.(errors) ++ [message];
     warnings := r.(warnings); stats := r.(stats);
     validationResult := r.(validationResult) |}%list.

Definition push_warning (message : string) (r : SyncResult) : SyncResult :=
  {| success := r.(success); result_dryRun := r.(result_dryRun);
     operations := r.(operations);
     executedOperations := r.(executedOperations);
     skippedOperations := r.(skippedOperations); errors := r.(errors);
     warnings := r.(warnings) ++ [message]; stats := r.(stats);
     validationResult := r.(validationResult) |}%list.

Definition with_stats (g : Stats → Stats) (r : SyncResult) : SyncResult :=
  {| success := r.(success); result_dryRun := r.(result_dryRun);
     operations := r.(operations);
     executedOperations := r.(executedOperations);
     skippedOperations := r.(skippedOperations); errors := r.(errors);
     warnings := r.(warnings); stats := g r.(stats);
     validationResult := r.(validationResult) |}.

Definition set_validationResult (v : SyncValidator.ValidationResult) (r : SyncResult)
  : SyncResult :=
  {| success := r.(success); result_dryRun := r.(result_dryRun);
     operations := r.(operations);
     executedOperations := r.(executedOperations);
     skippedOperations := r.(skippedOperations); errors := r.(errors);
     warnings := r.(warnings); stats := r.(stats);
     validationResult := Some v |}.

Definition set_success (b : bool) (r : SyncResult) : SyncResult :=
  {| success := b; result_dryRun := r.(result_dryRun);
     operations := r.(operations);
     executedOperations := r.(executedOperations);
     skippedOperations := r.(skippedOperations); errors := r.(errors);
     warnings := r.(warnings); stats := r.(stats);
     validationResult := r.(validationResult) |}.

Definition incr_filesUploaded (s : Stats) : Stats :=
  {| filesUploaded := s.(filesUploaded) + 1; filesDownloaded := s.(filesDownloaded);
     filesSkipped := s.(filesSkipped); conflictsResolved := s.(conflictsResolved);
     backupsCreated := s.(backupsCreated); totalOperations := s.(totalOperations) |}.

Definition incr_filesDownloaded (s : Stats) : Stats :=
  {| filesUploaded := s.(filesUploaded); filesDownloaded := s.(filesDownloaded) + 1;
     filesSkipped := s.(filesSkipped); conflictsResolved := s.(conflictsResolved);
     backupsCreated := s.(backupsCreated); totalOperations := s.(totalOperations) |}.

Definition incr_conflictsResolved (s : Stats) : Stats :=
  {| filesUploaded := s.(filesUploaded); filesDownloaded := s.(filesDownloaded);
     filesSkipped := s.(filesSkipped); conflictsResolved := s.(conflictsResolved) + 1;
     backupsCreated := s.(backupsCreated); totalOperations := s.(totalOperations) |}.

Definition incr_backupsCreated (s : Stats) : Stats :=
  {| filesUploaded := s.(filesUploaded); filesDownloaded := s.(filesDownloaded);
     filesSkipped := s.(filesSkipped); conflictsResolved := s.(conflictsResolved);
     backupsCreated := s.(backupsCreated) + 1; totalOperations := s.(totalOperations) |}.

Definition set_totalOperations (n : Z) (s : Stats) : Stats :=
  {| filesUploaded := s.(filesUploaded); filesDownloaded := s.(filesDownloaded);
     filesSkipped := s.(filesSkipped); conflictsResolved := s.(conflictsResolved);
     backupsCreated := s.(backupsCreated); totalOperations := n |}.

(** *** Scanning and planning *)

Definition isExcluded (patterns : list string) (relativePath : string) : bool :=
  existsb (λ pattern,
    if includes pattern "**"
    then includes relativePath (replace_first pattern "/**" "")
    else includes relativePath (replace_first pattern "*" "")) patterns.

Definition getLocalFiles (E : Env) (this : t) : M (list string) :=
  scanDirectory E this.(localPath)
    (λ rel, negb (isExcluded this.(options).(excludePatterns)
                    (relative_to_cwd E (path_join this.(localPath) rel)))).

Definition fileExists (E : Env) (filePath : string) : M bool :=
  try_catch (run fs_access E filePath; ret true) (λ _, ret false).

Definition planUploadOperations (E : Env) (this : t) : M (list SyncOperation) :=
  await localFiles ← getLocalFiles E this;
  fold_each localFiles (λ operations filePath,
    let relativePath := path_relative this.(localPath) filePath in
    await fileState ← JsonSyncStateDatabase.getFileState this.(projectId) relativePath;
    try_catch
      (await currentHash ← calculateFileHash E filePath;
       match fileState with
       | None =>
           ret (operations ++ [{| type := upload; filePath := relativePath;
                                  reason := "New local file"; conflictType := None;
                                  backupRequired := false |}])%list
       | Some fileState =>
           if negb (bool_decide (currentHash = fileState.(localHash))) then
             ret (operations ++ [{| type := upload; filePath := relativePath;
                                    reason := "Local file modified"; conflictType := None;
                                    backupRequired := true |}])%list
           else ret operations
       end)
      (λ _, ret operations)) [].

Definition planDownloadOperations (E : Env) (this : t) : M (list SyncOperation) :=
  try_catch
    (await remoteFiles ← MockClaudeClient.listKnowledgeFiles this.(projectId);
     fold_each remoteFiles (λ operations remoteFile,
       await fileState ←
         JsonSyncStateDatabase.getFileState this.(projectId) remoteFile.(kf_path);
       let localFilePath := path_join this.(localPath) remoteFile.(kf_path) in
       match fileState with
       | None =>
           ret (operations ++ [{| type := download; filePath := remoteFile.(kf_path);
                                  reason := "New remote file"; conflictType := None;
                                  backupRequired := false |}])%list
       | Some fileState =>
           let remoteTime := remoteFile.(kf_updatedAt) in
           if bool_decide (remoteTime > fileState.(lastSyncTime)) then
             await localExists ← fileExists E localFilePath;
             ret (operations ++ [{| type := download; filePath := remoteFile.(kf_path);
                                    reason := "Remote file modified"; conflictType := None;
                                    backupRequired := localExists |}])%list
           else ret operations
       end) [])
    (λ message, throw ("Failed to list remote files: " +:+ message)).

Definition planOperations (E : Env) (this : t) (result : SyncResult) : M SyncResult :=
  await uploadOps ←
    (if bool_decide (this.(options).(direction) = SyncState.upload
                     ∨ this.(options).(direction) = both)
     then planUploadOperations E this else ret []);
  await downloadOps ←
    (if bool_decide (this.(options).(direction) = SyncState.download
                     ∨ this.(options).(direction) = both)
     then planDownloadOperations E this else ret []);
  let operations := (uploadOps ++ downloadOps)%list in
  ret (with_stats (set_totalOperations (Z.of_nat (length operations)))
         (set_operations operations result)).

(** *** Conflicts *)

(** [find] the first upload of the path and flag it, in place. *)
Fixpoint require_backup (path : string) (ops : list SyncOperation) : list SyncOperation :=
  match ops with
  | [] => []
  | op :: rest =>
      if bool_decide (op.(type) = upload ∧ op.(filePath) = path) then
        {| type := op.(type); filePath := op.(filePath);
           reason := op.(reason) +:+ " (conflict - backup created)";
           conflictType := op.(conflictType);
           backupRequired := true |} :: rest
      else op :: require_backup path rest
  end.

(** One turn of the loop of [handleConflicts]. *)
Definition handleConflict (policy : ConflictResolution) (result : SyncResult)
  (conflict : SyncValidator.ConflictInfo) : SyncResult :=
  let path := conflict.(SyncValidator.filePath) in
  let result :=
    match policy with
    | skip =>
        push_warning ("Skipped conflicted file: " +:+ path)
          (set_operations (filter (λ op, op.(filePath) ≠ path) result.(operations)) result)
    | local_wins =>
        set_operations
          (filter (λ op, ¬ (op.(type) = download ∧ op.(filePath) = path))
                  result.(operations)) result
    | remote_wins =>
        set_operations
          (filter (λ op, ¬ (op.(type) = upload ∧ op.(filePath) = path))
                  result.(operations)) result
    | backup_and_merge =>
        set_operations (require_backup path result.(operations)) result
    | ask =>
        push_warning
          ("Skipped conflicted file (interactive resolution not implemented): " +:+ path)
          (set_operations (filter (λ op, op.(filePath) ≠ path) result.(operations)) result)
    end in
  with_stats incr_conflictsResolved result.

Definition handleConflicts (this : t) (conflicts : list SyncValidator.ConflictInfo)
  (result : SyncResult) : SyncResult :=
  foldl (handleConflict this.(options).(conflictResolution)) result conflicts.

(** *** Execution *)

Definition executeUpload (E : Env) (this : t) (operation : SyncOperation)
  (result : SyncResult) : M SyncResult :=
  let localFilePath := path_join this.(localPath) operation.(filePath) in
  await text ← fs_readFile E localFilePath;
  await uploadedFile ←
    MockClaudeClient.uploadKnowledgeFile E this.(projectId) operation.(filePath) text;
  await fileStats ← fs_stat E localFilePath;
  await hash ← calculateFileHash E localFilePath;
  await now ← new_Date E;
  let syncState :=
    {| fileId := generateFileId E this.(projectId) operation.(filePath);
       SyncState.projectId := this.(projectId);
       SyncState.localPath := operation.(filePath);
       remoteId := Some uploadedFile.(kf_id);
       localHash := hash;
       remoteHash := Some hash;
       localMtime := node_mtime fileStats;
       remoteMtime := Some uploadedFile.(kf_updatedAt);
       lastSyncTime := now;
       syncDirection := SyncState.upload;
       conflictState := cs_none;
       size := match fileStats with
               | File f => Z.of_nat (String.length f.(content))
               | Directory _ => 0
               end;
       isDeleted := false |} in
  run JsonSyncStateDatabase.saveFileState syncState;
  ret (with_stats incr_filesUploaded result).

Definition executeDownload (E : Env) (this : t) (operation : SyncOperation)
  (result : SyncResult) : M SyncResult :=
  await remoteFiles ← MockClaudeClient.listKnowledgeFiles this.(projectId);
  match List.find (λ f, bool_decide (f.(kf_path) = operation.(filePath))) remoteFiles with
  | None => throw ("Remote file not found: " +:+ operation.(filePath))
  | Some remoteFile =>
      await fileContent ←
        MockClaudeClient.getKnowledgeFile this.(projectId) remoteFile.(kf_id);
      let localFilePath := path_join this.(localPath) operation.(filePath) in
      run fs_mkdir E (path_dirname localFilePath);
      run fs_writeFile E localFilePath (default "" fileContent.(kf_content));
      await fileStats ← fs_stat E localFilePath;
      await hash ← calculateFileHash E localFilePath;
      await now ← new_Date E;
      let syncState :=
        {| fileId := generateFileId E this.(projectId) operation.(filePath);
           SyncState.projectId := this.(projectId);
           SyncState.localPath := operation.(filePath);
           remoteId := Some remoteFile.(kf_id);
           localHash := hash;
           remoteHash := Some hash;
           localMtime := node_mtime fileStats;
           remoteMtime := Some remoteFile.(kf_updatedAt);
           lastSyncTime := now;
           syncDirection := SyncState.download;
           conflictState := cs_none;
           size := match fileStats with
                   | File f => Z.of_nat (String.length f.(content))
                   | Directory _ => 0
                   end;
           isDeleted := false |} in
      run JsonSyncStateDatabase.saveFileState syncState;
      ret (with_stats incr_filesDownloaded result)
  end.

Definition mark_deleted (now : Z) (e : SyncStateEntry) : SyncStateEntry :=
  {| fileId := e.(fileId); SyncState.projectId := e.(SyncState.projectId);
     SyncState.localPath := e.(SyncState.localPath); remoteId := e.(remoteId);
     localHash := e.(localHash); remoteHash := e.(remoteHash);
     localMtime := e.(localMtime); remoteMtime := e.(remoteMtime);
     lastSyncTime := now; syncDirection := e.(syncDirection);
     conflictState := e.(conflictState); size := e.(size); isDeleted := true |}.

Definition executeLocalDelete (E : Env) (this : t) (operation : SyncOperation)
  (result : SyncResult) : M SyncResult :=
  let localFilePath := path_join this.(localPath) operation.(filePath) in
  await present ← fileExists E localFilePath;
  run (if present then
         run BackupManager.createBackup E this.(backupManager) localFilePath "delete";
         fs_unlink E localFilePath
       else ret tt);
  await fileState ←
    JsonSyncStateDatabase.getFileState this.(projectId) operation.(filePath);
  match fileState with
  | Some fileState =>
      await now ← new_Date E;
      run JsonSyncStateDatabase.saveFileState (mark_deleted now fileState);
      ret result
  | None => ret result
  end.

Definition executeRemoteDelete (E : Env) (this : t) (operation : SyncOperation)
  (result : SyncResult) : M SyncResult :=
  await fileState ←
    JsonSyncStateDatabase.getFileState this.(projectId) operation.(filePath);
  match fileState with
  | Some fileState =>
      match fileState.(remoteId) with
      | Some rid =>
          if bool_decide (rid = "") then ret result
          else
            run MockClaudeClient.deleteKnowledgeFile this.(projectId) rid;
            await now ← new_Date E;
            run JsonSyncStateDatabase.saveFileState (mark_deleted now fileState);
            ret result
      | None => ret result
      end
  | None => ret result
  end.

Definition executeOperation (E : Env) (this : t) (operation : SyncOperation)
  (result : SyncResult) : M SyncResult :=
  match operation.(type) with
  | upload => executeUpload E this operation result
  | download => executeDownload E this operation result
  | delete_local => executeLocalDelete E this operation result
  | delete_remote => executeRemoteDelete E this operation result
  end.

(** The first statement of the loop body: the backup, when one is asked
    for. [createBackup] never throws, so it does not matter that the source
    has it inside the [try]. *)
Definition backupBefore (E : Env) (this : t) (operation : SyncOperation)
  (result : SyncResult) : M SyncResult :=
  if operation.(backupRequired) then
    let localFilePath := path_join this.(localPath) operation.(filePath) in
    await backupResult ←
      BackupManager.createBackup E this.(backupManager) localFilePath "sync";
    if backupResult.(BackupManager.success) then
      ret (with_stats incr_backupsCreated result)
    else
      ret (push_warning
             ("Failed to create backup for " +:+ operation.(filePath) +:+ ": "
              +:+ default "undefined" backupResult.(BackupManager.error)) result)
  else ret result.

Definition type_name (ty : OperationType) : string :=
  match ty with
  | upload => "upload"
  | download => "download"
  | delete_local => "delete_local"
  | delete_remote => "delete_remote"
  end.

(** One turn of the loop of [executeOperations]. *)
Definition executeOne (E : Env) (this : t) (result : SyncResult)
  (operation : SyncOperation) : M SyncResult :=
  await result ← backupBefore E this operation result;
  try_catch
    (await result ← executeOperation E this operation result;
     ret (push_executed operation result))
    (λ message,
       ret (push_skipped operation
              (push_error ("Failed to execute " +:+ type_name operation.(type) +:+ " for "
                           +:+ operation.(filePath) +:+ ": " +:+ message) result))).

Definition executeOperations (E : Env) (this : t) (result : SyncResult) : M SyncResult :=
  fold_each result.(operations) (executeOne E this) result.

(** *** sync *)

Definition initial_result (this : t) : SyncResult :=
  {| success := false;
     result_dryRun := this.(options).(dryRun);
     operations := []; executedOperations := []; skippedOperations := [];
     errors := []; warnings := [];
     stats := {| filesUploaded := 0; filesDownloaded := 0; filesSkipped := 0;
                 conflictsResolved := 0; backupsCreated := 0; totalOperations := 0 |};
     validationResult := None |}.

(** Copy the error and warning issues of the validation into the result. *)
Definition report_issues (l : list SyncValidator.ValidationIssue) (result : SyncResult)
  : SyncResult :=
  foldl (λ result issue,
           match issue.(SyncValidator.type) with
           | SyncValidator.error => push_error issue.(SyncValidator.message) result
           | SyncValidator.warning => push_warning issue.(SyncValidator.message) result
           | SyncValidator.info => result
           end) result l.

(** Step 1 of [sync]. [inl] is the early [return result]. *)
Definition preSyncValidation (E : Env) (this : t) (result : SyncResult)
  : M (SyncResult + SyncResult) :=
  if this.(options).(validation).(enabled) then
    await validationResult ←
      SyncValidator.validate E this.(validator) this.(options).(direction);
    let result := set_validationResult validationResult result in
    if negb validationResult.(SyncValidator.canProceed) && negb this.(options).(force) then
      ret (inl (push_error "Validation failed. Use --force to override." result))
    else
      ret (inr (report_issues validationResult.(SyncValidator.issues) result))
  else ret (inr result).

(** Steps 2 and 3: the plan, then the conflict policy applied to it. *)
Definition planAndResolve (E : Env) (this : t) (result : SyncResult) : M SyncResult :=
  await result ← planOperations E this result;
  match result.(validationResult) with
  | Some v =>
      if bool_decide (Z.of_nat (length v.(SyncValidator.conflicts)) > 0)
      then ret (handleConflicts this v.(SyncValidator.conflicts) result)
      else ret result
  | None => ret result
  end.

Definition sync (E : Env) (this : t) : M SyncResult :=
  let result := initial_result this in
  try_finally
    (try_catch
       (run JsonSyncStateDatabase.initialize;
        await checked ← preSyncValidation E this result;
        match checked with
        | inl result => ret result
        | inr result =>
            try_catch
              (await result ← planAndResolve E this result;
               await result ←
                 (if negb this.(options).(dryRun) then executeOperations E this result
                  else ret result);
               ret (set_success (bool_decide (result.(errors) = [])) result))
              (λ message, ret (push_error ("Sync failed: " +:+ message) result))
        end)
       (λ message, ret (push_error ("Sync failed: " +:+ message) result)))
    JsonSyncStateDatabase.close.

End SafeSync.

(** ** The vocabulary of the statements *)

(** *** Planning uploads *)

(** What [planUploadOperations] can say about an operation it planned. *)
Definition upload_planned_for E (this : SafeSync.t) (w : World) (files : list string)
  (op : SafeSync.SyncOperation) : Prop :=
  op.(SafeSync.type) = SafeSync.upload ∧
  ∃ filePath c,
    filePath ∈ files ∧
    op.(SafeSync.filePath) = path_relative this.(SafeSync.localPath) filePath ∧
    fs_readFile E filePath w = (Ok c, w) ∧
    match map_get JsonSyncStateDatabase.stateKey
            (JsonSyncStateDatabase.getStateKey this.(SafeSync.projectId)
               op.(SafeSync.filePath)) w.(db).(syncStates) with
    | None => op.(SafeSync.reason) = "New local file" ∧ op.(SafeSync.backupRequired) = false
    | Some st => E.(sha256) c ≠ st.(localHash)
                 ∧ op.(SafeSync.reason) = "Local file modified"
                 ∧ op.(SafeSync.backupRequired) = true
    end.

(** *** Planning downloads *)

(** What [planDownloadOperations] can say about an operation it planned. *)
Definition download_planned_for (this : SafeSync.t) (w : World)
  (remoteFiles : list ClaudeKnowledgeFile) (op : SafeSync.SyncOperation) : Prop :=
  op.(SafeSync.type) = SafeSync.download ∧
  ∃ remoteFile,
    remoteFile ∈ remoteFiles ∧
    op.(SafeSync.filePath) = remoteFile.(kf_path) ∧
    match map_get JsonSyncStateDatabase.stateKey
            (JsonSyncStateDatabase.getStateKey this.(SafeSync.projectId)
               op.(SafeSync.filePath)) w.(db).(syncStates) with
    | None => op.(SafeSync.reason) = "New remote file"
    | Some st => remoteFile.(kf_updatedAt) > st.(lastSyncTime)
                 ∧ op.(SafeSync.reason) = "Remote file modified"
    end.

(** *** The validator's pass over the local files *)

Definition no_findings : SyncValidator.Findings :=
  {| SyncValidator.found_issues := []; SyncValidator.found_conflicts := [];
     SyncValidator.found_stats :=
       {| SyncValidator.localFiles := 0; SyncValidator.remoteFiles := 0;
          SyncValidator.conflictFiles := 0; SyncValidator.newLocalFiles := 0;
          SyncValidator.newRemoteFiles := 0; SyncValidator.unchangedFiles := 0 |} |}.


(** *** Sorting newest first *)

Definition not_older (a b : BackupEntry) : Prop := b.(createdAt) ≤ a.(createdAt).

(** *** Listing backups *)

(** The backups recorded for one path of one project. *)
Definition backups_of (pid path : string) (bs : list BackupEntry) : list BackupEntry :=
  filter (λ b, b.(backupProjectId) = pid ∧ b.(originalPath) = path) bs.

(** *** Deleting backups *)

(** The parts of the world that deleting backups leaves alone. *)
Definition backups_aside (w w' : World) : Prop :=
  w'.(db).(syncStates) = w.(db).(syncStates) ∧
  w'.(db).(initialized) = w.(db).(initialized) ∧
  w'.(remote) = w.(remote) ∧ w'.(clock) = w.(clock) ∧
  w'.(entropy) = w.(entropy) ∧ w'.(host) = w.(host).

(** *** Grouping by original path *)

(** The grouping map as a finite map. *)
Local Abbreviation group_map groups :=
  (list_to_map groups : gmap string (list BackupEntry)).

(** *** Retention *)

(** The backups that [cleanupOldBackups pid n] removes. *)
Definition doomed (pid : string) (n : Z) (bs : list BackupEntry) (b : BackupEntry) : Prop :=
  b.(backupProjectId) = pid ∧
  b ∈ js_slice n (JsonSyncStateDatabase.sort_newest_first (backups_of pid b.(originalPath) bs)).

#[local] Instance doomed_dec pid n bs b : Decision (doomed pid n bs b).
Proof. unfold doomed. apply _. Defined.

(** *** Computations that only look *)

(** On an open database, [m] leaves the world as it found it. *)
Definition quiet {A} (m : M A) : Prop :=
  ∀ w r w', w.(db).(initialized) = true → m w = (r, w') → w' = w.

(** *** Executing the plan *)

(** The lists of a result that only the loop of [executeOperations] fills. *)
Definition same_lists (r r' : SafeSync.SyncResult) : Prop :=
  r'.(SafeSync.operations) = r.(SafeSync.operations) ∧
  r'.(SafeSync.executedOperations) = r.(SafeSync.executedOperations) ∧
  r'.(SafeSync.skippedOperations) = r.(SafeSync.skippedOperations) ∧
  r'.(SafeSync.errors) = r.(SafeSync.errors).

(** The result once the backup of an operation has been attempted. *)
Definition after_backup (backupResult : BackupManager.BackupResult)
  (operation : SafeSync.SyncOperation) (result : SafeSync.SyncResult) : SafeSync.SyncResult :=
  if backupResult.(BackupManager.success) then
    SafeSync.with_stats SafeSync.incr_backupsCreated result
  else
    SafeSync.push_warning
      ("Failed to create backup for " +:+ operation.(SafeSync.filePath) +:+ ": "
       +:+ default "undefined" backupResult.(BackupManager.error)) result.

(** The message pushed when an operation throws. *)
Definition failure_message (op : SafeSync.SyncOperation) (message : string) : string :=
  "Failed to execute " +:+ SafeSync.type_name op.(SafeSync.type) +:+ " for "
  +:+ op.(SafeSync.filePath) +:+ ": " +:+ message.

(** *** Invariants of computations *)

(** [m] keeps the invariant [I], whatever its outcome. *)
Definition keeps {A} (I : World → Prop) (m : M A) : Prop :=
  ∀ w r w', I w → m w = (r, w') → I w'.

(** *** The database stays open *)

Definition db_open (w : World) : Prop := w.(db).(initialized) = true.

(** *** Dry runs *)

(** The database object once [initialize] has run. *)
Definition opened (d : Database) : Database :=
  if d.(initialized) then d else JsonSyncStateDatabase.load d.

(** The same engine with its [dryRun] option set to [b]. *)
Definition with_dryRun (b : bool) (this : SafeSync.t) : SafeSync.t :=
  {| SafeSync.projectId := this.(SafeSync.projectId);
     SafeSync.localPath := this.(SafeSync.localPath);
     SafeSync.options :=
       {| SafeSync.direction := this.(SafeSync.options).(SafeSync.direction);
          SafeSync.dryRun := b;
          SafeSync.backup := this.(SafeSync.options).(SafeSync.backup);
          SafeSync.validation := this.(SafeSync.options).(SafeSync.validation);
          SafeSync.conflictResolution := this.(SafeSync.options).(SafeSync.conflictResolution);
          SafeSync.force := this.(SafeSync.options).(SafeSync.force);
          SafeSync.verbose := this.(SafeSync.options).(SafeSync.verbose);
          SafeSync.excludePatterns := this.(SafeSync.options).(SafeSync.excludePatterns) |};
     SafeSync.backupManager := this.(SafeSync.backupManager);
     SafeSync.validator := this.(SafeSync.validator) |}.



(** The world once [initialize] has run. *)
Definition open_world (w : World) : World := set_db (opened w.(db)) w.


(** What [sync] comes to, step by step, from an open database. *)
Definition finish (r : SafeSync.SyncResult) : SafeSync.SyncResult :=
  SafeSync.set_success (bool_decide (r.(SafeSync.errors) = [])) r.

Definition closed (w : World) : World := set_db (JsonSyncStateDatabase.saved w.(db)) w.

(** *** What the engine sees of one path *)

Definition local_at (E : Env) (root : string) (w : World) (p : string) : option Node :=
  w.(fs) !! resolve E (path_join root p).

Definition state_at (pid : string) (w : World) (p : string) : option SyncStateEntry :=
  map_get JsonSyncStateDatabase.stateKey (JsonSyncStateDatabase.getStateKey pid p)
    w.(db).(syncStates).

Definition remote_files (pid : string) (w : World) : list ClaudeKnowledgeFile :=
  default [] (MockClaudeClient.project_files pid w).

Definition remote_at (pid : string) (w : World) (p : string) : list ClaudeKnowledgeFile :=
  filter (λ f, f.(kf_path) = p) (remote_files pid w).

(** *** The plan as a function of the world *)

(** The upload that [planUploadOperations] pushes for one listed file. *)
Definition upload_for (E : Env) (this : SafeSync.t) (w : World) (filePath : string)
  : option SafeSync.SyncOperation :=
  let relativePath := path_relative this.(SafeSync.localPath) filePath in
  match fs_readFile E filePath w with
  | (Ok c, _) =>
      match state_at this.(SafeSync.projectId) w relativePath with
      | None =>
          Some {| SafeSync.type := SafeSync.upload; SafeSync.filePath := relativePath;
                  SafeSync.reason := "New local file"; SafeSync.conflictType := None;
                  SafeSync.backupRequired := false |}
      | Some st =>
          if bool_decide (E.(sha256) c = st.(localHash)) then None
          else Some {| SafeSync.type := SafeSync.upload; SafeSync.filePath := relativePath;
                       SafeSync.reason := "Local file modified";
                       SafeSync.conflictType := None; SafeSync.backupRequired := true |}
      end
  | (Throw _, _) => None
  end.

(** The download that [planDownloadOperations] pushes for one remote file. *)
Definition download_for (E : Env) (this : SafeSync.t) (w : World)
  (remoteFile : ClaudeKnowledgeFile) : option SafeSync.SyncOperation :=
  match state_at this.(SafeSync.projectId) w remoteFile.(kf_path) with
  | None =>
      Some {| SafeSync.type := SafeSync.download; SafeSync.filePath := remoteFile.(kf_path);
              SafeSync.reason := "New remote file"; SafeSync.conflictType := None;
              SafeSync.backupRequired := false |}
  | Some st =>
      if bool_decide (remoteFile.(kf_updatedAt) > st.(lastSyncTime)) then
        Some {| SafeSync.type := SafeSync.download; SafeSync.filePath := remoteFile.(kf_path);
                SafeSync.reason := "Remote file modified"; SafeSync.conflictType := None;
                SafeSync.backupRequired :=
                  bool_decide (is_Some (local_at E this.(SafeSync.localPath) w
                                          remoteFile.(kf_path))) |}
      else None
  end.

(** An operation, for what planning and the conflict policy look at. *)
Definition shape (op : SafeSync.SyncOperation) : SafeSync.OperationType * string :=
  (op.(SafeSync.type), op.(SafeSync.filePath)).

(** The test of the engine's [scanDirectory] on a path below the root. *)
Definition scanned (E : Env) (this : SafeSync.t) (rel : string) : bool :=
  negb (SafeSync.isExcluded this.(SafeSync.options).(SafeSync.excludePatterns)
          (relative_to_cwd E (path_join this.(SafeSync.localPath) rel))).

(** There is something to upload at [p]: a readable file that is listed,
    and is not tracked, or is tracked with another hash. *)
Definition upload_due (E : Env) (this : SafeSync.t) (w : World) (p : string) : Prop :=
  scanned E this p = true ∧
  ∃ f, local_at E this.(SafeSync.localPath) w p = Some (File f) ∧ f.(readable) = true ∧
       match state_at this.(SafeSync.projectId) w p with
       | None => True
       | Some st => E.(sha256) f.(content) ≠ st.(localHash)
       end.

(** There is something to download at [p]: a remote file that is not
    tracked, or was updated after the last sync. *)
Definition download_due (this : SafeSync.t) (w : World) (p : string) : Prop :=
  ∃ rf, rf ∈ remote_at this.(SafeSync.projectId) w p ∧
        match state_at this.(SafeSync.projectId) w p with
        | None => True
        | Some st => rf.(kf_updatedAt) > st.(lastSyncTime)
        end.

Definition uploads_on (this : SafeSync.t) : Prop :=
  this.(SafeSync.options).(SafeSync.direction) = SyncState.upload
  ∨ this.(SafeSync.options).(SafeSync.direction) = both.

Definition downloads_on (this : SafeSync.t) : Prop :=
  this.(SafeSync.options).(SafeSync.direction) = SyncState.download
  ∨ this.(SafeSync.options).(SafeSync.direction) = both.

(** What [planOperations] plans, by type and path. *)
Definition plan_due (E : Env) (this : SafeSync.t) (w : World)
  (s : SafeSync.OperationType * string) : Prop :=
  match s.1 with
  | SafeSync.upload => uploads_on this ∧ upload_due E this w s.2
  | SafeSync.download => downloads_on this ∧ download_due this w s.2
  | _ => False
  end.

(** *** The conflict policy as a filter *)

(** An operation of this type and path stays in the plan. *)
Definition survives (policy : SafeSync.ConflictResolution) (conflicted : list string)
  (s : SafeSync.OperationType * string) : Prop :=
  match policy with
  | SafeSync.skip | SafeSync.ask => s.2 ∉ conflicted
  | SafeSync.local_wins => ¬ (s.1 = SafeSync.download ∧ s.2 ∈ conflicted)
  | SafeSync.remote_wins => ¬ (s.1 = SafeSync.upload ∧ s.2 ∈ conflicted)
  | SafeSync.backup_and_merge => True
  end.

(** The paths the validation found in conflict. *)
Definition conflict_paths (r : SafeSync.SyncResult) : list string :=
  match r.(SafeSync.validationResult) with
  | Some v => SyncValidator.filePath <$> v.(SyncValidator.conflicts)
  | None => []
  end.

(** *** The conflicts of the validation, path by path *)

(** The paths a set of findings has in conflict. *)
Definition found_paths (f : SyncValidator.Findings) : list string :=
  SyncValidator.filePath <$> f.(SyncValidator.found_conflicts).

(** The path [validateLocalFiles] flags for a listed file, if any. *)
Definition flagged_local (E : Env) (this : SyncValidator.t) (w : World) (filePath : string)
  : list string :=
  let rel := path_relative this.(SyncValidator.localPath) filePath in
  match state_at this.(SyncValidator.projectId) w rel, fs_readFile E filePath w,
        fs_stat E filePath w with
  | Some st, (Ok c, _), (Ok n, _) =>
      if bool_decide (E.(sha256) c ≠ st.(localHash) ∧ is_Some st.(SyncState.remoteMtime)
                      ∧ node_mtime n > st.(SyncState.lastSyncTime))
      then [rel] else []
  | _, _, _ => []
  end.

(** The path [validateRemoteFiles] flags for a remote file, if any. *)
Definition flagged_remote (this : SyncValidator.t) (w : World) (rf : ClaudeKnowledgeFile)
  : list string :=
  match state_at this.(SyncValidator.projectId) w rf.(kf_path) with
  | Some st =>
      if bool_decide (rf.(kf_updatedAt) > st.(SyncState.lastSyncTime))
      then [rf.(kf_path)] else []
  | None => []
  end.

(** The path [detectConflicts] flags for a state entry, if any. *)
Definition flagged_absent (E : Env) (this : SyncValidator.t) (w : World)
  (remotePaths : list string) (entry : SyncStateEntry) : list string :=
  if bool_decide (is_Some (local_at E this.(SyncValidator.localPath) w
                             entry.(SyncState.localPath)))
  then []
  else if bool_decide (entry.(SyncState.localPath) ∈ remotePaths)
       then [entry.(SyncState.localPath)] else [].

(** The paths [validateLocalFiles] flags. *)
Definition local_part (E : Env) (this : SyncValidator.t) (w : World) : list string :=
  match SyncValidator.getLocalFiles E this w with
  | (Ok files, _) => concat (flagged_local E this w <$> files)
  | (Throw _, _) => []
  end.

(** The paths [validateRemoteFiles] flags. *)
Definition remote_part (this : SyncValidator.t) (w : World) : list string :=
  concat (flagged_remote this w <$> remote_files this.(SyncValidator.projectId) w).

(** The validation finds [p] changed on both sides, from the local side. *)
Definition local_conflict (E : Env) (this : SyncValidator.t) (w : World) (p : string) : Prop :=
  SyncValidator.kept p = true ∧
  ∃ f st,
    local_at E this.(SyncValidator.localPath) w p = Some (File f) ∧
    f.(readable) = true ∧
    state_at this.(SyncValidator.projectId) w p = Some st ∧
    E.(sha256) f.(content) ≠ st.(localHash) ∧
    is_Some st.(SyncState.remoteMtime) ∧
    f.(mtime) > st.(SyncState.lastSyncTime).

(** The validation finds a remote file of [p] newer than the last sync. *)
Definition remote_conflict (pid : string) (w : World) (p : string) : Prop :=
  ∃ rf st,
    rf ∈ remote_at pid w p ∧
    state_at pid w p = Some st ∧
    rf.(kf_updatedAt) > st.(SyncState.lastSyncTime).

(** *** What a run leaves behind *)

(** Nothing the engine looks at on path [p] differs between the worlds. *)
Definition same_view (E : Env) (this : SafeSync.t) (w w' : World) (p : string) : Prop :=
  local_at E this.(SafeSync.localPath) w' p = local_at E this.(SafeSync.localPath) w p ∧
  state_at this.(SafeSync.projectId) w' p = state_at this.(SafeSync.projectId) w p ∧
  remote_at this.(SafeSync.projectId) w' p = remote_at this.(SafeSync.projectId) w p.


(** The world is in order: the recorded backups lie outside the tree, no
    remote file is stamped in the future, and no remote file bears an
    identifier the random source has yet to give. *)
Definition tidy (E : Env) (this : SafeSync.t) (w : World) : Prop :=
  (∀ b rel, b ∈ w.(db).(backups) →
            resolve E b.(backupPath) ≠ resolve E (path_join this.(SafeSync.localPath) rel)) ∧
  (∀ rf, rf ∈ remote_files this.(SafeSync.projectId) w → rf.(kf_updatedAt) ≤ w.(clock)) ∧
  (∀ rf n, rf ∈ remote_files this.(SafeSync.projectId) w → (w.(entropy) ≤ n)%nat →
           rf.(kf_id) ≠ "file_" +:+ E.(randomHex) n).

(** What making a backup may change of a world [w0]: nothing the planning
    looks at. *)
Definition unseen (E : Env) (this : SafeSync.t) (w0 w : World) : Prop :=
  w.(db).(initialized) = true ∧ tidy E this w ∧
  w.(db).(syncStates) = w0.(db).(syncStates) ∧
  w.(remote) = w0.(remote) ∧
  (∀ rel, local_at E this.(SafeSync.localPath) w rel
          = local_at E this.(SafeSync.localPath) w0 rel).

(** ** Worked examples: a project with one local and one remote file *)

(** A sound machine: copies are faithful; the hash is a stand-in that is
    injective, the clock moves on, and identifiers do not repeat. *)
Definition sound_env : Env :=
  {| sha256 := λ s, "h(" +:+ s +:+ ")";
     tick := λ t, t + 1;
     randomHex := λ n, "id" +:+ pretty n;
     toISOString := λ t, "T" +:+ pretty t;
     copied := λ c, c;
     homedir := "/home/u";
     cwd := "/work" |}.

(** The same machine with a disk that damages what it copies. *)
Definition faulty_env : Env :=
  {| sha256 := λ s, "h(" +:+ s +:+ ")";
     tick := λ t, t + 1;
     randomHex := λ n, "id" +:+ pretty n;
     toISOString := λ t, "T" +:+ pretty t;
     copied := λ c, c +:+ "?";
     homedir := "/home/u";
     cwd := "/work" |}.

Definition quiet_host : Host :=
  {| availableBytes := Some 1000000000; canRead := true; canWrite := true;
     gitStatus := git_not_a_repo |}.

Definition plain_file (c : string) (t : Z) : Node :=
  File {| content := c; mtime := t; readable := true |}.

Definition remote_note : ClaudeKnowledgeFile :=
  {| kf_id := "f1"; kf_path := "r.md"; kf_sizeBytes := 3; kf_createdAt := 1;
     kf_updatedAt := 2; kf_content := Some "rem" |}.

(** Never synchronised: no state file yet. *)
Definition fresh_world : World :=
  {| fs := {[ "/work/proj/a.txt" := plain_file "hello" 20 ]};
     db := {| dbFile := FileAbsent; syncStates := []; backups := []; initialized := false |};
     remote := [("p1", [remote_note])];
     clock := 100; entropy := 0; host := quiet_host |}.

(** The entry that tracks [a.txt]: synchronised at 10, when its content had
    another hash, with a remote time of 5. *)
Definition tracked_entry : SyncStateEntry :=
  {| fileId := "0"; SyncState.projectId := "p1"; SyncState.localPath := "a.txt";
     remoteId := Some "f0"; SyncState.localHash := "h(old)";
     SyncState.remoteHash := Some "h(old)"; SyncState.localMtime := 4;
     SyncState.remoteMtime := Some 5; SyncState.lastSyncTime := 10;
     syncDirection := SyncState.upload; conflictState := cs_none; size := 3;
     isDeleted := false |}.

(** [a.txt] is tracked and was edited at 20, after the last sync. *)
Definition edited_world : World :=
  {| fs := {[ "/work/proj/a.txt" := plain_file "hello" 20 ]};
     db := {| dbFile := FileAbsent; syncStates := [tracked_entry]; backups := [];
              initialized := true |};
     remote := [("p1", [])];
     clock := 100; entropy := 0; host := quiet_host |}.

Definition backup_at (id path : string) (t : Z) : BackupEntry :=
  {| backupId := id; originalPath := path;
     backupPath := "/home/u/.claude-sync/backups/p1/" +:+ id +:+ ".bak";
     createdAt := t; fileHash := "h(hello)"; backupProjectId := "p1";
     SyncState.reason := "sync" |}.

(** Three backups of [proj/a.txt] and three of [proj/b.txt], none on disk. *)
Definition crowded_world : World :=
  {| fs := ∅;
     db := {| dbFile := FileAbsent; syncStates := [];
              backups := [backup_at "a1" "proj/a.txt" 1; backup_at "b1" "proj/b.txt" 2;
                          backup_at "a2" "proj/a.txt" 3; backup_at "b2" "proj/b.txt" 4;
                          backup_at "a3" "proj/a.txt" 5; backup_at "b3" "proj/b.txt" 6];
              initialized := true |};
     remote := [("p1", [])];
     clock := 100; entropy := 0; host := quiet_host |}.

(** [a.txt] has one backup, on disk. *)
Definition backed_up_world : World :=
  {| fs := {[ "/work/proj/a.txt" := plain_file "hello" 20;
              "/home/u/.claude-sync/backups/p1/a1.bak" := plain_file "hello" 30 ]};
     db := {| dbFile := FileAbsent; syncStates := [];
              backups := [backup_at "a1" "proj/a.txt" 1];
              initialized := true |};
     remote := [("p1", [])];
     clock := 100; entropy := 0; host := quiet_host |}.

Definition with_policy (policy : SafeSync.ConflictResolution) (dry : bool) : SafeSync.Options :=
  {| SafeSync.direction := both; SafeSync.dryRun := dry;
     SafeSync.backup := SafeSync.default_options.(SafeSync.backup);
     SafeSync.validation := SafeSync.default_options.(SafeSync.validation);
     SafeSync.conflictResolution := policy; SafeSync.force := false;
     SafeSync.verbose := false;
     SafeSync.excludePatterns := SafeSync.default_options.(SafeSync.excludePatterns) |}.

(** The engine with its default options, the one that lets local changes
    win, and the one that only rehearses. *)
Definition engine : SafeSync.t :=
  SafeSync.new sound_env "p1" "/work/proj" SafeSync.default_options.

Definition local_first : SafeSync.t :=
  SafeSync.new faulty_env "p1" "/work/proj" (with_policy SafeSync.local_wins false).


Definition upload_of_a : SafeSync.SyncOperation :=
  {| SafeSync.type := SafeSync.upload; SafeSync.filePath := "a.txt";
     SafeSync.reason := "Local file modified"; SafeSync.conflictType := None;
     SafeSync.backupRequired := true |}.

(** The outcome of a computation that is known to return. *)
Definition returned {A} (fallback : A) (x : Outcome A * World) : A :=
  match x.1 with Ok a => a | Throw _ => fallback end.



(** The fresh world on a host that refuses writes. *)
Definition locked_world : World :=
  {| fs := fresh_world.(fs); db := fresh_world.(db); remote := fresh_world.(remote);
     clock := 100; entropy := 0;
     host := {| availableBytes := Some 1000000000; canRead := true; canWrite := false;
                gitStatus := git_not_a_repo |} |}.

(** [a.txt] is tracked with the hash of its bytes, and was touched at 999:
    a new time, the same bytes. *)
Definition settled_entry : SyncStateEntry :=
  {| fileId := "0"; SyncState.projectId := "p1"; SyncState.localPath := "a.txt";
     remoteId := Some "f0"; SyncState.localHash := "h(hello)";
     SyncState.remoteHash := Some "h(hello)"; SyncState.localMtime := 20;
     SyncState.remoteMtime := Some 5; SyncState.lastSyncTime := 30;
     syncDirection := SyncState.upload; conflictState := cs_none; size := 5;
     isDeleted := false |}.

Definition touched_world : World :=
  {| fs := {[ "/work/proj/a.txt" := plain_file "hello" 999 ]};
     db := {| dbFile := FileAbsent; syncStates := [settled_entry]; backups := [];
              initialized := true |};
     remote := [("p1", [])];
     clock := 1000; entropy := 0; host := quiet_host |}.

Definition touched_plan : SafeSync.SyncResult :=
  returned (SafeSync.initial_result engine)
    (SafeSync.planOperations sound_env engine (SafeSync.initial_result engine) touched_world).

(** *** The state database: records and the state file *)

(** The database object of a new process over the file that [w] left. *)
Definition reopened (w : World) : World :=
  set_db {| dbFile := w.(db).(dbFile); syncStates := []; backups := [];
            initialized := false |} w.

(** *** Backup records: listing, deleting, trimming *)


(** *** Creating and restoring backups *)

(** What deleting backups can do to a world: records and files may go,
    nothing appears and nothing else moves. *)
Definition shrunk (w w' : World) : Prop :=
  w'.(db).(initialized) = true ∧
  (∀ b, b ∈ w'.(db).(backups) → b ∈ w.(db).(backups)) ∧
  (∀ q, w'.(fs) !! q = w.(fs) !! q ∨ w'.(fs) !! q = None) ∧
  backups_aside w w'.

(** *** The validator *)

(** The conflicts that one remote file adds. *)
Definition remote_flags (E : Env) (this : SyncValidator.t) (w : World)
  (remoteFile : ClaudeKnowledgeFile) : list SyncValidator.ConflictInfo :=
  match SyncValidator.inspectRemoteFile E this no_findings remoteFile w with
  | (Ok f, _) => f.(SyncValidator.found_conflicts)
  | (Throw _, _) => []
  end.

(** *** The run as a whole *)

(** The ways a run can end: stopped by the validation, failed while
    planning, or planned and, unless it is a dry run, executed. *)
Inductive sync_case (E : Env) (this : SafeSync.t) (w : World)
  (r : SafeSync.SyncResult) (w' : World) : Prop :=
  | run_stopped (result : SafeSync.SyncResult) :
      SafeSync.preSyncValidation E this (SafeSync.initial_result this) (open_world w)
      = (Ok (inl result), open_world w) →
      r = result → w' = closed (open_world w) →
      sync_case E this w r w'
  | run_failed (result : SafeSync.SyncResult) (message : string) :
      SafeSync.preSyncValidation E this (SafeSync.initial_result this) (open_world w)
      = (Ok (inr result), open_world w) →
      SafeSync.planAndResolve E this result (open_world w) = (Throw message, open_world w) →
      r = SafeSync.push_error ("Sync failed: " +:+ message) result →
      w' = closed (open_world w) →
      sync_case E this w r w'
  | run_planned (result planned executed : SafeSync.SyncResult) (w2 : World) :
      SafeSync.preSyncValidation E this (SafeSync.initial_result this) (open_world w)
      = (Ok (inr result), open_world w) →
      SafeSync.planAndResolve E this result (open_world w) = (Ok planned, open_world w) →
      (if this.(SafeSync.options).(SafeSync.dryRun)
       then executed = planned ∧ w2 = open_world w
       else SafeSync.executeOperations E this planned (open_world w) = (Ok executed, w2)) →
      w2.(db).(initialized) = true →
      r = finish executed → w' = closed w2 →
      sync_case E this w r w'.

(** [a.txt] is tracked with an old hash, and its modification time is
    earlier than the last sync: changed bytes under an old time. *)
Definition stale_world : World :=
  {| fs := {[ "/work/proj/a.txt" := plain_file "hello" 5 ]};
     db := {| dbFile := FileAbsent; syncStates := [tracked_entry]; backups := [];
              initialized := true |};
     remote := [("p1", [])];
     clock := 100; entropy := 0; host := quiet_host |}.

Definition download_of_r : SafeSync.SyncOperation :=
  {| SafeSync.type := SafeSync.download; SafeSync.filePath := "r.md";
     SafeSync.reason := "New remote file"; SafeSync.conflictType := None;
     SafeSync.backupRequired := false |}.

(** The messages of the issues of type [error], in order. *)
Definition error_messages (issues : list SyncValidator.ValidationIssue) : list string :=
  SyncValidator.message <$> filter (λ i, i.(SyncValidator.type) = SyncValidator.error) issues.

(** *** What a run does to the remote store *)

(** Every file identifier that the store of [w0] serves is served by [w]. *)
Definition remote_kept (w0 w : World) : Prop :=
  ∀ pid files, MockClaudeClient.project_files pid w0 = Some files →
    ∃ files', MockClaudeClient.project_files pid w = Some files' ∧
      ∀ f, f ∈ files → ∃ f', f' ∈ files' ∧ f'.(kf_id) = f.(kf_id).

(** The engine with [force] set, and the engine with backups disabled. *)
Definition forced : SafeSync.t :=
  SafeSync.new sound_env "p1" "/work/proj"
    {| SafeSync.direction := both; SafeSync.dryRun := false;
       SafeSync.backup := SafeSync.default_options.(SafeSync.backup);
       SafeSync.validation := SafeSync.default_options.(SafeSync.validation);
       SafeSync.conflictResolution := SafeSync.ask; SafeSync.force := true;
       SafeSync.verbose := false;
       SafeSync.excludePatterns := SafeSync.default_options.(SafeSync.excludePatterns) |}.

Definition unguarded : SafeSync.t :=
  SafeSync.new sound_env "p1" "/work/proj"
    {| SafeSync.direction := both; SafeSync.dryRun := false;
       SafeSync.backup :=
         {| BackupManager.enabled := false; BackupManager.retentionCount := 5;
            BackupManager.compressionLevel := 0;
            BackupManager.location := BackupManager.loc_local;
            BackupManager.autoCleanup := true |};
       SafeSync.validation := SafeSync.default_options.(SafeSync.validation);
       SafeSync.conflictResolution := SafeSync.ask; SafeSync.force := false;
       SafeSync.verbose := false;
       SafeSync.excludePatterns := SafeSync.default_options.(SafeSync.excludePatterns) |}.

(** [r.md] is tracked since a sync at 1; the remote file was updated at 2
    and there is no local [r.md]. *)
Definition drifted_entry : SyncStateEntry :=
  {| fileId := "1"; SyncState.projectId := "p1"; SyncState.localPath := "r.md";
     remoteId := Some "f1"; SyncState.localHash := "h(rem)";
     SyncState.remoteHash := Some "h(rem)"; SyncState.localMtime := 1;
     SyncState.remoteMtime := Some 1; SyncState.lastSyncTime := 1;
     syncDirection := SyncState.download; conflictState := cs_none; size := 3;
     isDeleted := false |}.

Definition drifted_world : World :=
  {| fs := {[ "/work/proj/a.txt" := plain_file "hello" 20 ]};
     db := {| dbFile := FileAbsent; syncStates := [drifted_entry]; backups := [];
              initialized := true |};
     remote := [("p1", [remote_note])];
     clock := 100; entropy := 0; host := quiet_host |}.

Definition delete_of_a : SafeSync.SyncOperation :=
  {| SafeSync.type := SafeSync.delete_local; SafeSync.filePath := "a.txt";
     SafeSync.reason := "Removed remotely"; SafeSync.conflictType := None;
     SafeSync.backupRequired := true |}.

(* ================================================================== *)
(** * Part II: properties                                             *)
(* ================================================================== *)

(** ** Promises *)

Lemma bind_inv {A B} (m : M A) (k : A → M B) w r w' :
  bind m k w = (r, w') →
  (∃ a w1, m w = (Ok a, w1) ∧ k a w1 = (r, w'))
  ∨ (∃ e, m w = (Throw e, w') ∧ r = Throw e).
Proof.
  unfold bind. destruct (m w) as [[a|e] w1]; intros H.
  - left. eauto.
  - right. exists e. by inversion H.
Qed.

Lemma bind_Ok {A B} (m : M A) (k : A → M B) w b w' :
  bind m k w = (Ok b, w') →
  ∃ a w1, m w = (Ok a, w1) ∧ k a w1 = (Ok b, w').
Proof.
  intros H. apply bind_inv in H as [H|(e & _ & ?)]; [done|discriminate].
Qed.

Lemma bind_run {A B} (m : M A) (k : A → M B) w a w1 :
  m w = (Ok a, w1) → bind m k w = k a w1.
Proof. unfold bind. by intros ->. Qed.

Lemma try_catch_inv {A} (m : M A) (h : string → M A) w r w' :
  try_catch m h w = (r, w') →
  (∃ a, m w = (Ok a, w') ∧ r = Ok a)
  ∨ (∃ e w1, m w = (Throw e, w1) ∧ h e w1 = (r, w')).
Proof.
  unfold try_catch. destruct (m w) as [[a|e] w1]; intros H.
  - left. exists a. by inversion H.
  - right. eauto.
Qed.

Lemma checks_in_order_returns steps f w :
  ∃ f' w', SyncValidator.checks_in_order steps f w = (Ok f', w').
Proof.
  revert f w. induction steps as [|step rest IH]; intros f w; simpl.
  - by eexists _, _.
  - destruct (step f w) as [[f'|e] w1]; [apply IH | by eexists _, _].
Qed.

Lemma has_errors_spec l :
  SyncValidator.has_errors l = true ↔
  ∃ i, i ∈ l ∧ i.(SyncValidator.type) = SyncValidator.error.
Proof.
  unfold SyncValidator.has_errors. rewrite existsb_exists. split.
  - intros (i & Hin & Hi). exists i. split; [by apply list_elem_of_In|].
    by apply bool_decide_eq_true in Hi.
  - intros (i & Hin & Hi). exists i. split; [by apply list_elem_of_In|].
    by apply bool_decide_eq_true.
Qed.

(** C7: without the override flag, [validate] returns, and its [canProceed]
    is false whenever a check produced an issue of severity error, or the
    number of conflicts found strictly exceeds [maxConflictCount]. *)
Theorem validate_gate E (this : SyncValidator.t) direction w :
  this.(SyncValidator.options).(SyncValidator.allowForce) = false →
  ∃ v w', SyncValidator.validate E this direction w = (Ok v, w') ∧
    ((∃ i, i ∈ v.(SyncValidator.issues) ∧ i.(SyncValidator.type) = SyncValidator.error)
     ∨ Z.of_nat (length v.(SyncValidator.conflicts))
         > this.(SyncValidator.options).(SyncValidator.maxConflictCount) →
     v.(SyncValidator.canProceed) = false).
Proof.
  intros Hforce. unfold SyncValidator.validate.
  cbv zeta.
  match goal with |- context [bind (SyncValidator.checks_in_order ?s ?f)] =>
    destruct (checks_in_order_returns s f w) as (f' & w' & Hrun) end.
  eexists _, w'. split.
  - erewrite bind_run by exact Hrun. reflexivity.
  - simpl. rewrite Hforce. intros [Herr | Hmany].
    + apply has_errors_spec in Herr. by rewrite Herr.
    + rewrite (bool_decide_eq_true_2 _ Hmany). simpl. by rewrite andb_false_r.
Qed.

(** ** Strings and paths *)

Lemma append_assoc (a b c : string) : (a +:+ b) +:+ c = a +:+ (b +:+ c).
Proof. induction a as [|x a IH]; [done|]. change (String x ((a +:+ b) +:+ c) = String x (a +:+ (b +:+ c))). by f_equal. Qed.

Lemma strip_prefix_app p q r : strip_prefix (p +:+ q) (p +:+ r) = strip_prefix q r.
Proof. induction p as [|a p IH]; simpl; [done|]. by rewrite decide_True. Qed.

Lemma strip_prefix_Some p s r : strip_prefix p s = Some r → s = p +:+ r.
Proof.
  revert s. induction p as [|a p IH]; intros s; simpl.
  - by intros [= ->].
  - destruct s as [|b s]; [done|]. case_decide; [|done]. subst.
    intros H. by rewrite (IH _ H).
Qed.

Lemma path_relative_join a b : path_relative a (path_join a b) = b.
Proof.
  unfold path_relative, path_join.
  assert (strip_prefix (a +:+ "/") (a +:+ "/" +:+ b) = Some b) as ->; [|done].
  induction a as [|c a IH]; simpl; [done|]. by rewrite decide_True.
Qed.

Lemma path_join_inj a b b' : path_join a b = path_join a b' → b = b'.
Proof.
  intros H. rewrite <- (path_relative_join a b), <- (path_relative_join a b').
  by rewrite H.
Qed.

(** ** Walking the tree *)

Lemma elem_of_walk E root keep w x :
  x ∈ walk E root keep w ↔
  ∃ rel f, x = path_join root rel ∧ keep rel = true
           ∧ w.(fs) !! (resolve E root +:+ "/" +:+ rel) = Some (File f).
Proof.
  unfold walk. rewrite list_elem_of_omap. split.
  - intros ([key node] & Hin & Hx). apply elem_of_map_to_list in Hin. simpl in Hx.
    destruct node as [f|]; [|done].
    destruct (strip_prefix _ key) as [rel|] eqn:Hrel; [|done].
    destruct (keep rel) eqn:Hkeep; [|done]. injection Hx as <-.
    apply strip_prefix_Some in Hrel. subst key.
    exists rel, f. by rewrite <- append_assoc.
  - intros (rel & f & -> & Hkeep & Hfs).
    exists (resolve E root +:+ "/" +:+ rel, File f). split.
    + by apply elem_of_map_to_list.
    + cbn [fst snd]. rewrite strip_prefix_app. simpl. change ("" +:+ rel) with rel. by rewrite Hkeep.
Qed.

Lemma walk_relative_inj E root keep w x y :
  x ∈ walk E root keep w → y ∈ walk E root keep w →
  path_relative root x = path_relative root y → x = y.
Proof.
  intros (r & ? & -> & _)%elem_of_walk (r' & ? & -> & _)%elem_of_walk.
  rewrite !path_relative_join. by intros ->.
Qed.

(** ** The state store once it is initialized *)

Lemma initialize_idle w :
  w.(db).(initialized) = true → JsonSyncStateDatabase.initialize w = (Ok tt, w).
Proof. unfold JsonSyncStateDatabase.initialize. by intros ->. Qed.

Lemma getFileState_idle pid path w :
  w.(db).(initialized) = true →
  JsonSyncStateDatabase.getFileState pid path w =
  (Ok (map_get JsonSyncStateDatabase.stateKey
         (JsonSyncStateDatabase.getStateKey pid path) w.(db).(syncStates)), w).
Proof.
  intros Hinit. unfold JsonSyncStateDatabase.getFileState.
  by rewrite (bind_run _ _ _ _ _ (initialize_idle w Hinit)).
Qed.

(** Reading never changes the world. *)
Lemma fs_readFile_pure E p w r w' : fs_readFile E p w = (r, w') → w' = w.
Proof.
  unfold fs_readFile. repeat case_match; by intros [= _ <-].
Qed.

Lemma fs_stat_pure E p w r w' : fs_stat E p w = (r, w') → w' = w.
Proof. unfold fs_stat. repeat case_match; by intros [= _ <-]. Qed.

Lemma calculateFileHash_pure E p w r w' : calculateFileHash E p w = (r, w') → w' = w.
Proof.
  unfold calculateFileHash, bind, ret.
  destruct (fs_readFile E p w) as [[c|e] w1] eqn:Hread;
    apply fs_readFile_pure in Hread as ->; by intros [= _ <-].
Qed.

Lemma calculateFileHash_Ok E p w h w' :
  calculateFileHash E p w = (Ok h, w') ↔
  w' = w ∧ ∃ c, fs_readFile E p w = (Ok c, w) ∧ h = E.(sha256) c.
Proof.
  unfold calculateFileHash, bind, ret. split.
  - destruct (fs_readFile E p w) as [[c|e] w1] eqn:Hread; [|done].
    pose proof (fs_readFile_pure _ _ _ _ _ Hread) as ->.
    intros [= <- <-]. eauto.
  - intros (-> & c & -> & ->). done.
Qed.

(** ** Loops *)

Lemma fold_each_invariant {A S} (I : S → World → Prop) (body : S → A → M S) l s w r w' :
  fold_each l body s w = (r, w') →
  I s w →
  (∀ x s0 w0 r1 w1, x ∈ l → I s0 w0 → body s0 x w0 = (r1, w1) →
     match r1 with Ok s1 => I s1 w1 | Throw _ => False end) →
  ∃ s', r = Ok s' ∧ I s' w'.
Proof.
  revert s w. induction l as [|x l IH]; intros s w Hrun Hinit Hstep; simpl in Hrun.
  - injection Hrun as <- <-. eauto.
  - unfold bind in Hrun. destruct (body s x w) as [[s1|e] w1] eqn:Hbody.
    + apply (IH s1 w1 Hrun).
      * apply (Hstep x s w _ _ ltac:(left) Hinit Hbody).
      * intros y s0 w0 r1 w2 Hy. apply Hstep. by right.
    + by destruct (Hstep x s w _ _ ltac:(left) Hinit Hbody).
Qed.

(** Case split on the test of the conditional of a hypothesis. *)
Ltac case_decide_in H :=
  match type of H with
  | context [bool_decide ?P] =>
      destruct (decide P);
      [rewrite (bool_decide_eq_true_2 P) in H by assumption
      |rewrite (bool_decide_eq_false_2 P) in H by assumption]
  end.

(** ** Planning uploads *)

Lemma planUploadOperations_spec E (this : SafeSync.t) w files r w' :
  w.(db).(initialized) = true →
  SafeSync.getLocalFiles E this w = (Ok files, w) →
  SafeSync.planUploadOperations E this w = (r, w') →
  w' = w ∧ ∃ ops, r = Ok ops ∧ Forall (upload_planned_for E this w files) ops.
Proof.
  intros Hinit Hfiles Hrun. unfold SafeSync.planUploadOperations in Hrun.
  rewrite (bind_run _ _ _ _ _ Hfiles) in Hrun.
  apply (fold_each_invariant
           (λ ops w0, w0 = w ∧ Forall (upload_planned_for E this w files) ops)) in Hrun
    as (ops & -> & -> & Hops); [by eauto | by split |].
  clear Hrun. intros filePath ops w0 r1 w1 Hin [-> Hops] Hbody.
  rewrite (bind_run _ _ _ _ _ (getFileState_idle _ _ _ Hinit)) in Hbody.
  apply try_catch_inv in Hbody as [(ops' & Hbody & ->)|(e & w2 & Hbody & Hcatch)].
  - apply bind_Ok in Hbody as (h & w2 & Hhash & Hbody).
    apply calculateFileHash_Ok in Hhash as (-> & c & Hread & ->).
    destruct (map_get _ _ _) as [st|] eqn:Hst.
    + destruct (bool_decide (E.(sha256) c = st.(localHash))) eqn:Hsame; simpl in Hbody;
        injection Hbody as <- <-; (split; [done|]); [done|].
      apply bool_decide_eq_false in Hsame.
      apply Forall_app. split; [done|]. apply Forall_singleton.
      split; [done|]. exists filePath, c. simpl. rewrite Hst. done.
    + injection Hbody as <- <-. split; [done|].
      apply Forall_app. split; [done|]. apply Forall_singleton.
      split; [done|]. exists filePath, c. simpl. rewrite Hst. done.
  - apply bind_inv in Hbody as [(h & w3 & Hhash & Hbody)|(e' & Hhash & _)].
    + apply calculateFileHash_pure in Hhash as ->.
      destruct (map_get _ _ _); [destruct (bool_decide _)|]; discriminate.
    + apply calculateFileHash_pure in Hhash as ->.
      injection Hcatch as <- <-. done.
Qed.

(** ** Planning downloads *)

Lemma fileExists_run E p w :
  SafeSync.fileExists E p w = (Ok (bool_decide (is_Some (w.(fs) !! resolve E p))), w).
Proof.
  unfold SafeSync.fileExists, try_catch, fs_access, bind, fs_stat, ret.
  destruct (w.(fs) !! resolve E p) as [n|]; done.
Qed.

Lemma listKnowledgeFiles_pure pid w r w' :
  MockClaudeClient.listKnowledgeFiles pid w = (r, w') → w' = w.
Proof.
  unfold MockClaudeClient.listKnowledgeFiles. case_match; by intros [= _ <-].
Qed.

Lemma planDownloadOperations_spec E (this : SafeSync.t) w r w' :
  w.(db).(initialized) = true →
  SafeSync.planDownloadOperations E this w = (r, w') →
  w' = w ∧
  match r with
  | Ok ops => ∃ remoteFiles,
      MockClaudeClient.listKnowledgeFiles this.(SafeSync.projectId) w = (Ok remoteFiles, w)
      ∧ Forall (download_planned_for this w remoteFiles) ops
  | Throw _ => True
  end.
Proof.
  intros Hinit Hrun. unfold SafeSync.planDownloadOperations in Hrun.
  destruct (MockClaudeClient.listKnowledgeFiles this.(SafeSync.projectId) w)
    as [[remoteFiles|e] w1] eqn:Hlist;
    pose proof (listKnowledgeFiles_pure _ _ _ _ Hlist) as ->.
  - unfold try_catch in Hrun. rewrite (bind_run _ _ _ _ _ Hlist) in Hrun.
    destruct (fold_each _ _ _ _) as [r0 w0] eqn:Hfold.
    apply (fold_each_invariant
             (λ ops w0, w0 = w ∧ Forall (download_planned_for this w remoteFiles) ops))
      in Hfold as (ops & -> & -> & Hops); [| by split |].
    { injection Hrun as <- <-. eauto. }
    clear Hrun. intros remoteFile ops w2 r1 w3 Hin [-> Hops] Hbody.
    rewrite (bind_run _ _ _ _ _ (getFileState_idle _ _ _ Hinit)) in Hbody.
    destruct (map_get _ _ _) as [st|] eqn:Hst.
    + destruct (bool_decide (remoteFile.(kf_updatedAt) > st.(lastSyncTime))) eqn:Hnewer.
      * rewrite (bind_run _ _ _ _ _ (fileExists_run _ _ _)) in Hbody.
        injection Hbody as <- <-. split; [done|].
        apply bool_decide_eq_true in Hnewer.
        apply Forall_app. split; [done|]. apply Forall_singleton.
        split; [done|]. exists remoteFile. simpl. rewrite Hst. done.
      * injection Hbody as <- <-. done.
    + injection Hbody as <- <-. split; [done|].
      apply Forall_app. split; [done|]. apply Forall_singleton.
      split; [done|]. exists remoteFile. simpl. rewrite Hst. done.
  - unfold try_catch, bind in Hrun. rewrite Hlist in Hrun.
    injection Hrun as <- <-. done.
Qed.

Lemma scanDirectory_pure E root keep w r w' :
  scanDirectory E root keep w = (r, w') → w' = w.
Proof. unfold scanDirectory. repeat case_match; by intros [= _ <-]. Qed.

(** The plan: uploads of the listed local files, then downloads of the
    listed remote files. *)
Lemma planOperations_spec E (this : SafeSync.t) result w result' w' :
  w.(db).(initialized) = true →
  SafeSync.planOperations E this result w = (Ok result', w') →
  w' = w ∧
  ∃ uploads downloads,
    result'.(SafeSync.operations) = uploads ++ downloads ∧
    (uploads = [] ∨
       ∃ files, SafeSync.getLocalFiles E this w = (Ok files, w)
                ∧ Forall (upload_planned_for E this w files) uploads) ∧
    (downloads = [] ∨
       ∃ remoteFiles,
         MockClaudeClient.listKnowledgeFiles this.(SafeSync.projectId) w = (Ok remoteFiles, w)
         ∧ Forall (download_planned_for this w remoteFiles) downloads).
Proof.
  intros Hinit Hrun. unfold SafeSync.planOperations in Hrun.
  apply bind_Ok in Hrun as (uploads & w1 & Hup & Hrun).
  assert (w1 = w ∧ (uploads = [] ∨
       ∃ files, SafeSync.getLocalFiles E this w = (Ok files, w)
                ∧ Forall (upload_planned_for E this w files) uploads)) as [-> Hu].
  { case_decide_in Hup.
    - destruct (SafeSync.getLocalFiles E this w) as [[files|e] w0] eqn:Hfiles.
      + pose proof (scanDirectory_pure _ _ _ _ _ _ Hfiles) as ->.
        destruct (planUploadOperations_spec _ _ _ _ _ _ Hinit Hfiles Hup)
          as (-> & ops & [= <-] & Hops). eauto.
      + unfold SafeSync.planUploadOperations, bind in Hup. by rewrite Hfiles in Hup.
    - injection Hup as <- <-. auto. }
  apply bind_Ok in Hrun as (downloads & w2 & Hdown & Hrun).
  injection Hrun as <- <-.
  assert (w2 = w ∧ (downloads = [] ∨
       ∃ remoteFiles,
         MockClaudeClient.listKnowledgeFiles this.(SafeSync.projectId) w = (Ok remoteFiles, w)
         ∧ Forall (download_planned_for this w remoteFiles) downloads)) as [-> Hd].
  { case_decide_in Hdown.
    - destruct (planDownloadOperations_spec _ _ _ _ _ Hinit Hdown) as (-> & Hops). auto.
    - injection Hdown as <- <-. auto. }
  split; [done|]. exists uploads, downloads. done.
Qed.

(** C8: for a tracked local file whose bytes hash to the stored
    [localHash], planning produces no upload of that file, whatever its
    modification time is; and every operation planned with the reason
    'Local file modified' is the upload of a listed, tracked file whose
    bytes hash to something else than the stored hash. *)
Theorem hash_is_the_authority_for_uploads E (this : SafeSync.t) result w result' w' files :
  w.(db).(initialized) = true →
  SafeSync.getLocalFiles E this w = (Ok files, w) →
  SafeSync.planOperations E this result w = (Ok result', w') →
  (∀ filePath st c,
     filePath ∈ files →
     map_get JsonSyncStateDatabase.stateKey
       (JsonSyncStateDatabase.getStateKey this.(SafeSync.projectId)
          (path_relative this.(SafeSync.localPath) filePath)) w.(db).(syncStates) = Some st →
     fs_readFile E filePath w = (Ok c, w) →
     E.(sha256) c = st.(localHash) →
     ∀ op, op ∈ result'.(SafeSync.operations) →
           op.(SafeSync.type) = SafeSync.upload →
           op.(SafeSync.filePath) ≠ path_relative this.(SafeSync.localPath) filePath)
  ∧ (∀ op, op ∈ result'.(SafeSync.operations) →
       op.(SafeSync.reason) = "Local file modified" →
       op.(SafeSync.type) = SafeSync.upload ∧
       ∃ filePath st c,
         filePath ∈ files ∧
         op.(SafeSync.filePath) = path_relative this.(SafeSync.localPath) filePath ∧
         map_get JsonSyncStateDatabase.stateKey
           (JsonSyncStateDatabase.getStateKey this.(SafeSync.projectId)
              op.(SafeSync.filePath)) w.(db).(syncStates) = Some st ∧
         fs_readFile E filePath w = (Ok c, w) ∧
         E.(sha256) c ≠ st.(localHash)).
Proof.
  intros Hinit Hfiles Hplan.
  destruct (planOperations_spec _ _ _ _ _ _ Hinit Hplan)
    as (-> & uploads & downloads & -> & Hup & Hdown).
  assert (Forall (upload_planned_for E this w files) uploads) as Hup'.
  { destruct Hup as [->|(files' & Hfiles' & Hup)]; [done|]. congruence. }
  assert (Forall (λ op, op.(SafeSync.type) = SafeSync.download
                        ∧ op.(SafeSync.reason) ≠ "Local file modified") downloads) as Hdown'.
  { destruct Hdown as [->|(remoteFiles & _ & Hdown)]; [done|].
    eapply Forall_impl; [exact Hdown|]. intros op (Hty & rf & _ & _ & Hcase).
    split; [done|]. destruct (map_get _ _ _); [destruct Hcase as [_ ->]|rewrite Hcase]; done. }
  rewrite Forall_forall in Hup', Hdown'. split.
  - intros filePath st c Hin Hst Hread Hsame op Hop Hty Hpath.
    apply elem_of_app in Hop as [Hop|Hop].
    + destruct (Hup' _ Hop) as (_ & filePath' & c' & Hin' & Hpath' & Hread' & Hcase).
      assert (filePath' = filePath) as ->.
      { unfold SafeSync.getLocalFiles, scanDirectory in Hfiles.
        repeat case_match; simplify_eq; eapply walk_relative_inj; eauto; congruence. }
      rewrite Hpath, Hst in Hcase. destruct Hcase as (Hne & _). congruence.
    + destruct (Hdown' _ Hop) as [? _]. congruence.
  - intros op Hop Hreason. apply elem_of_app in Hop as [Hop|Hop].
    + destruct (Hup' _ Hop) as (Hty & filePath & c & Hin & Hpath & Hread & Hcase).
      split; [done|]. destruct (map_get _ _ _) as [st|] eqn:Hst.
      * exists filePath, st, c. destruct Hcase as (Hne & _ & _). done.
      * destruct Hcase as [Hnew _]. rewrite Hnew in Hreason. discriminate.
    + by destruct (Hdown' _ Hop) as [_ ?].
Qed.

Lemma elem_of_concat {A} (x : A) (ls : list (list A)) :
  x ∈ concat ls ↔ ∃ l, x ∈ l ∧ l ∈ ls.
Proof.
  rewrite list_elem_of_In, in_concat. split.
  - intros (l & ? & ?). exists l. by rewrite !list_elem_of_In.
  - intros (l & ? & ?). exists l. by rewrite <- !list_elem_of_In.
Qed.

(** ** The validator's pass over the local files *)






Import JsonSyncStateDatabase.

(** ** Sorting newest first *)

Lemma insert_newest_first_perm b l : insert_newest_first b l ≡ₚ b :: l.
Proof.
  induction l as [|x l IH]; simpl; [done|].
  case_bool_decide; [done|]. rewrite IH. apply Permutation_swap.
Qed.

Lemma sort_newest_first_perm l : sort_newest_first l ≡ₚ l.
Proof.
  induction l as [|x l IH]; simpl; [done|].
  by rewrite insert_newest_first_perm, IH.
Qed.

Lemma insert_newest_first_sorted b l :
  StronglySorted not_older l → StronglySorted not_older (insert_newest_first b l).
Proof.
  induction 1 as [|x l Hl IH Hx]; simpl.
  - repeat constructor.
  - case_bool_decide as Hle.
    + constructor; [by constructor|]. constructor; [done|].
      eapply Forall_impl; [exact Hx|]. unfold not_older. intros; lia.
    + constructor; [done|].
      rewrite insert_newest_first_perm. constructor; [|done]. unfold not_older. lia.
Qed.

Lemma sort_newest_first_sorted l : StronglySorted not_older (sort_newest_first l).
Proof.
  induction l as [|x l IH]; simpl; [constructor|].
  by apply insert_newest_first_sorted.
Qed.

Lemma elem_of_sort_newest_first b l : b ∈ sort_newest_first l ↔ b ∈ l.
Proof. by rewrite sort_newest_first_perm. Qed.

Lemma sorted_head_newest b l :
  StronglySorted not_older (b :: l) → ∀ b', b' ∈ b :: l → b'.(createdAt) ≤ b.(createdAt).
Proof.
  intros Hs b' Hin. apply StronglySorted_inv in Hs as [_ Hall].
  apply elem_of_cons in Hin as [->|Hin]; [lia|].
  rewrite Forall_forall in Hall. by apply Hall.
Qed.

Lemma sorted_take_drop (l : list BackupEntry) n kept removed :
  StronglySorted not_older l →
  kept ∈ take n l → removed ∈ drop n l → removed.(createdAt) ≤ kept.(createdAt).
Proof.
  intros Hs. revert n. induction Hs as [|x l Hl IH Hx]; intros n.
  - rewrite take_nil. by intros ?%elem_of_nil.
  - destruct n as [|n]; simpl; [by intros ?%elem_of_nil|].
    intros [->|Hk]%elem_of_cons Hr.
    + rewrite Forall_forall in Hx. apply Hx. by eapply subseteq_drop.
    + by apply (IH n).
Qed.

(** [slice] with a count that is not negative drops that many elements. *)
Lemma js_slice_nat {A} (n : nat) (l : list A) : js_slice (Z.of_nat n) l = drop n l.
Proof.
  unfold js_slice. destruct (Z.ltb_spec (Z.of_nat n) 0); [lia|]. by rewrite Nat2Z.id.
Qed.

(** ** Listing backups *)

Lemma listBackups_idle pid path w :
  w.(db).(initialized) = true →
  listBackups pid path w
  = (Ok (sort_newest_first (filter (selected pid path) w.(db).(backups))), w).
Proof.
  intros Hinit. unfold listBackups.
  by rewrite (bind_run _ _ _ _ _ (initialize_idle w Hinit)).
Qed.

Lemma selected_path pid path bs :
  path ≠ "" → filter (selected pid (Some path)) bs = backups_of pid path bs.
Proof.
  intros Hpath. unfold backups_of. apply list_filter_iff.
  intros b. unfold selected. split; intros [? Hb]; (split; [done|]).
  - by destruct Hb.
  - by right.
Qed.

(** C10: [hasFileChangedSinceBackup] returns true when the file cannot be
    read or no backup of its path is on record; otherwise it returns true
    exactly when the hash of the file differs from the [fileHash] of a
    backup of the path that no other backup of the path is newer than (the
    head of the newest-first listing). The path is assumed not to be empty
    relative to the working directory, as an empty path lists every backup
    of the project. *)
Theorem changed_since_latest_backup E (this : BackupManager.t) filePath w :
  w.(db).(initialized) = true →
  relative_to_cwd E filePath ≠ "" →
  ∃ changed,
    BackupManager.hasFileChangedSinceBackup E this filePath w = (Ok changed, w) ∧
    match fs_readFile E filePath w with
    | (Throw _, _) => changed = true
    | (Ok c, _) =>
        match backups_of this.(BackupManager.projectId)
                (relative_to_cwd E filePath) w.(db).(backups) with
        | [] => changed = true
        | recorded =>
            ∃ latest,
              latest ∈ recorded ∧
              (∀ b, b ∈ recorded → b.(createdAt) ≤ latest.(createdAt)) ∧
              (changed = true ↔ E.(sha256) c ≠ latest.(fileHash))
        end
    end.
Proof.
  intros Hinit Hpath. unfold BackupManager.hasFileChangedSinceBackup, try_catch.
  unfold bind at 1. unfold calculateFileHash, bind at 1.
  destruct (fs_readFile E filePath w) as [[c|e] w1] eqn:Hread;
    pose proof (fs_readFile_pure _ _ _ _ _ Hread) as ->; [|by exists true].
  unfold ret at 1. unfold BackupManager.listBackups.
  rewrite (bind_run _ _ _ _ _ (listBackups_idle _ _ _ Hinit)), selected_path by done.
  pose proof (sort_newest_first_sorted
                (backups_of this.(BackupManager.projectId)
                   (relative_to_cwd E filePath) w.(db).(backups))) as Hsorted.
  pose proof (sort_newest_first_perm
                (backups_of this.(BackupManager.projectId)
                   (relative_to_cwd E filePath) w.(db).(backups))) as Hperm.
  destruct (sort_newest_first _) as [|latest rest] eqn:Hsort.
  - apply Permutation_nil_l in Hperm as <-. by exists true.
  - eexists. split; [reflexivity|].
    destruct (backups_of _ _ _) as [|b0 bs] eqn:Hrec.
    { by apply Permutation_nil_r in Hperm. }
    exists latest. split; [|split].
    + rewrite <- Hperm. left.
    + intros b Hb. apply (sorted_head_newest _ _ Hsorted). by rewrite Hperm.
    + rewrite negb_true_iff, bool_decide_eq_false. done.
Qed.

(** ** Maps *)

Lemma map_get_Some {V} (key : V → string) k (m : list V) v :
  map_get key k m = Some v → v ∈ m ∧ key v = k.
Proof.
  unfold map_get. intros H. apply find_some in H as [Hin Hk].
  split; [by apply list_elem_of_In|]. by apply bool_decide_eq_true in Hk.
Qed.

Lemma map_get_None {V} (key : V → string) k (m : list V) :
  map_get key k m = None ↔ ∀ v, v ∈ m → key v ≠ k.
Proof.
  unfold map_get. split.
  - intros H v Hin Hk. apply list_elem_of_In in Hin.
    pose proof (find_none _ _ H v Hin) as Hv. simpl in Hv.
    by apply bool_decide_eq_false in Hv.
  - intros H. destruct (find _ m) as [v|] eqn:Hfind; [|done].
    apply find_some in Hfind as [Hin Hk]. apply bool_decide_eq_true in Hk.
    apply list_elem_of_In in Hin. by destruct (H v Hin).
Qed.

Lemma elem_of_map_delete {V} (key : V → string) k (m : list V) v :
  v ∈ map_delete key k m ↔ v ∈ m ∧ key v ≠ k.
Proof. unfold map_delete. rewrite list_elem_of_filter. tauto. Qed.

(** ** Deleting backups *)

Lemma backups_aside_refl w : backups_aside w w.
Proof. by repeat split. Qed.

Lemma backups_aside_trans w1 w2 w3 :
  backups_aside w1 w2 → backups_aside w2 w3 → backups_aside w1 w3.
Proof. unfold backups_aside. intros (?&?&?&?&?&?) (?&?&?&?&?&?). repeat split; congruence. Qed.

Lemma fs_unlink_frame E p w r w' :
  fs_unlink E p w = (r, w') →
  db w' = db w ∧ backups_aside w w' ∧ ∀ q, q ≠ resolve E p → fs w' !! q = fs w !! q.
Proof.
  unfold fs_unlink. repeat case_match; intros [= <- <-]; simpl;
    (split; [done|]); (split; [by repeat split|]); intros q Hq; try done.
  by rewrite lookup_delete_ne.
Qed.

(** [await fs.unlink(p).catch(() => {})] and its [try]/[catch] twin. *)
Lemma unlink_quietly E p w :
  ∃ w1, try_catch (fs_unlink E p) (λ _, ret tt) w = (Ok tt, w1) ∧
    db w1 = db w ∧ backups_aside w w1 ∧ ∀ q, q ≠ resolve E p → fs w1 !! q = fs w !! q.
Proof.
  unfold try_catch. destruct (fs_unlink E p w) as [[[]|e] w1] eqn:Hunlink;
    exists w1; (split; [done|]); by apply (fs_unlink_frame _ _ _ _ _ Hunlink).
Qed.

Lemma map_delete_absent {V} (key : V → string) k (m : list V) :
  map_get key k m = None → map_delete key k m = m.
Proof.
  rewrite map_get_None. intros H. unfold map_delete.
  induction m as [|x m IH]; [done|].
  rewrite filter_cons_True by (apply H; left). f_equal. apply IH.
  intros v Hv. apply H. by right.
Qed.

Lemma deleteBackup_spec E id w :
  w.(db).(initialized) = true →
  ∃ w', deleteBackup E id w = (Ok tt, w') ∧
    w'.(db).(backups) = map_delete backupId id w.(db).(backups) ∧
    backups_aside w w' ∧
    (∀ q, (∀ b, b ∈ w.(db).(backups) → b.(backupId) = id → resolve E b.(backupPath) ≠ q) →
          fs w' !! q = fs w !! q).
Proof.
  intros Hinit. unfold deleteBackup.
  rewrite (bind_run _ _ _ _ _ (initialize_idle w Hinit)). unfold bind at 1, get_world.
  destruct (map_get backupId id _) as [backup|] eqn:Hget.
  - apply map_get_Some in Hget as [Hin Hid].
    destruct (unlink_quietly E backup.(backupPath) w) as (w1 & Hrun & Hdb & Haside & Hfs).
    rewrite (bind_run _ _ _ _ _ Hrun). unfold bind, modify, save. simpl.
    eexists. split; [reflexivity|]. simpl. rewrite Hdb. split; [done|]. split.
    + destruct Haside as (?&?&?&?&?&?). by repeat split.
    + intros q Hq. apply Hfs. intros ->. by eapply Hq.
  - exists w. split; [done|]. rewrite (map_delete_absent _ _ _ Hget).
    split; [done|]. split; [apply backups_aside_refl|done].
Qed.

Lemma for_each_app {A} (l1 l2 : list A) (body : A → M unit) w :
  for_each (l1 ++ l2) body w = bind (for_each l1 body) (λ _, for_each l2 body) w.
Proof.
  revert w. induction l1 as [|x l1 IH]; intros w; simpl; [done|].
  unfold bind. destruct (body x w) as [[[]|e] w1]; [|done]. by rewrite IH.
Qed.

Lemma for_each_concat {A B} (f : A → list B) (body : B → M unit) (l : list A) w :
  for_each l (λ a, for_each (f a) body) w = for_each (concat (f <$> l)) body w.
Proof.
  revert w. induction l as [|a l IH]; intros w; simpl; [done|].
  rewrite for_each_app. unfold bind.
  destruct (for_each (f a) body w) as [[[]|e] w1]; [|done]. apply IH.
Qed.

Lemma delete_each E (l : list BackupEntry) w :
  w.(db).(initialized) = true →
  ∃ w', for_each l (λ b, deleteBackup E b.(backupId)) w = (Ok tt, w') ∧
    w'.(db).(backups)
      = filter (λ b, b.(backupId) ∉ backupId <$> l) w.(db).(backups) ∧
    backups_aside w w' ∧
    (∀ q, (∀ b, b ∈ w.(db).(backups) → b.(backupId) ∈ backupId <$> l →
                resolve E b.(backupPath) ≠ q) →
          fs w' !! q = fs w !! q).
Proof.
  revert w. induction l as [|x l IH]; intros w Hinit; simpl.
  - exists w. split; [done|]. split; [|split; [apply backups_aside_refl|done]].
    symmetry. clear. induction (backups (db w)) as [|b bs IHb]; [done|].
    rewrite filter_cons_True by apply not_elem_of_nil. by f_equal.
  - destruct (deleteBackup_spec E x.(backupId) w Hinit) as (w1 & Hrun & Hb1 & Ha1 & Hfs1).
    assert (w1.(db).(initialized) = true) as Hinit1.
    { destruct Ha1 as (_ & -> & _). done. }
    destruct (IH w1 Hinit1) as (w' & Hrun' & Hb' & Ha' & Hfs').
    exists w'. rewrite (bind_run _ _ _ _ _ Hrun). split; [done|]. split; [|split].
    + rewrite Hb', Hb1. unfold map_delete. rewrite list_filter_filter.
      apply list_filter_iff. intros b. rewrite not_elem_of_cons. tauto.
    + by eapply backups_aside_trans.
    + intros q Hq. rewrite Hfs', Hfs1; [done| |].
      * intros b Hb Hid. apply Hq; [done|]. rewrite Hid. left.
      * intros b Hb Hid. apply Hq; [|by right].
        rewrite Hb1 in Hb. by apply elem_of_map_delete in Hb as [? _].
Qed.

(** ** Grouping by original path *)

Lemma push_group_keys b groups :
  (push_group b groups).*1
  = if decide (b.(originalPath) ∈ groups.*1) then groups.*1
    else groups.*1 ++ [b.(originalPath)].
Proof.
  induction groups as [|[p g] groups IH].
  - done.
  - cbn [push_group]. destruct (decide (p = b.(originalPath))) as [->|Hne].
    + rewrite fmap_cons. cbn [fst]. rewrite decide_True; [done|]. rewrite fmap_cons. left.
    + rewrite !fmap_cons. cbn [fst]. rewrite IH.
      destruct (decide (b.(originalPath) ∈ groups.*1)) as [Hin|Hnin].
      * rewrite decide_True; [done|]. by right.
      * rewrite decide_False; [done|]. rewrite not_elem_of_cons. done.
Qed.

Lemma push_group_map b groups :
  group_map (push_group b groups)
  = <[b.(originalPath) :=
        default [] (group_map groups !! b.(originalPath)) ++ [b]]> (group_map groups).
Proof.
  induction groups as [|[p g] groups IH]; [done|].
  cbn [push_group]. destruct (decide (p = b.(originalPath))) as [->|Hne].
  - rewrite !list_to_map_cons. by rewrite lookup_insert_eq, insert_insert_eq.
  - rewrite !list_to_map_cons.
    rewrite IH, lookup_insert_ne by done. by apply insert_insert_ne.
Qed.

Lemma backups_of_snoc pid p bs b :
  backups_of pid p (bs ++ [b])
  = backups_of pid p bs
    ++ (if decide (b.(backupProjectId) = pid ∧ b.(originalPath) = p) then [b] else []).
Proof.
  unfold backups_of. by rewrite filter_app.
Qed.

Lemma group_by_path_keys pid bs : NoDup (group_by_path pid bs).*1.
Proof.
  unfold group_by_path. induction bs as [|b bs IH] using rev_ind; [constructor|].
  rewrite foldl_app. simpl. case_decide; [|done].
  rewrite push_group_keys. case_decide; [done|].
  apply NoDup_app. split; [done|]. split; [|apply NoDup_singleton].
  by intros x Hx ->%list_elem_of_singleton.
Qed.

Lemma group_by_path_map pid bs p :
  group_map (group_by_path pid bs) !! p
  = match backups_of pid p bs with [] => None | g => Some g end.
Proof.
  unfold group_by_path. induction bs as [|b bs IH] using rev_ind; [done|].
  rewrite foldl_app, backups_of_snoc. simpl.
  destruct (decide (b.(backupProjectId) = pid)) as [Hpid|Hpid].
  - rewrite push_group_map. destruct (decide (p = b.(originalPath))) as [->|Hp].
    + rewrite lookup_insert_eq, IH, decide_True by done.
      by destruct (backups_of pid (originalPath b) bs).
    + rewrite lookup_insert_ne, IH, decide_False by (try intros [_ ?]; congruence).
      by rewrite app_nil_r.
  - rewrite IH, decide_False by (intros [? _]; congruence). by rewrite app_nil_r.
Qed.

Lemma group_by_path_spec pid bs p g :
  (p, g) ∈ group_by_path pid bs ↔ g = backups_of pid p bs ∧ g ≠ [].
Proof.
  rewrite (elem_of_list_to_map (M:=gmap string)) by apply group_by_path_keys.
  rewrite group_by_path_map. destruct (backups_of pid p bs) as [|x l]; split.
  - done.
  - by intros [-> ?].
  - by intros [= <-].
  - by intros [-> _].
Qed.

(** ** Retention *)

Lemma filter_iff_in {A} (P Q : A → Prop) `{∀ x, Decision (P x), ∀ x, Decision (Q x)}
  (l : list A) :
  (∀ x, x ∈ l → P x ↔ Q x) → filter P l = filter Q l.
Proof.
  induction l as [|x l IH]; intros Hext; [done|].
  rewrite !filter_cons. rewrite IH by (intros y Hy; apply Hext; by right).
  destruct (decide (P x)) as [HP|HP], (decide (Q x)) as [HQ|HQ]; try done.
  - destruct HQ. by apply (Hext x); [left|].
  - destruct HP. by apply (Hext x); [left|].
Qed.

Lemma NoDup_fmap_eq {A B} (f : A → B) (l : list A) x y :
  NoDup (f <$> l) → x ∈ l → y ∈ l → f x = f y → x = y.
Proof.
  induction l as [|a l IH]; [by intros _ ?%elem_of_nil|].
  rewrite fmap_cons, NoDup_cons. intros [Ha Hnd] Hx Hy Heq.
  apply elem_of_cons in Hx as [->|Hx], Hy as [->|Hy]; [done| | |by apply IH].
  - destruct Ha. rewrite Heq. by apply list_elem_of_fmap_2.
  - destruct Ha. rewrite <- Heq. by apply list_elem_of_fmap_2.
Qed.

Lemma js_slice_subseteq {A} n (l : list A) x : x ∈ js_slice n l → x ∈ l.
Proof. unfold js_slice. case_match; apply subseteq_drop. Qed.

Lemma elem_of_backups_of pid p bs b :
  b ∈ backups_of pid p bs ↔ b ∈ bs ∧ b.(backupProjectId) = pid ∧ b.(originalPath) = p.
Proof. unfold backups_of. rewrite list_elem_of_filter. tauto. Qed.

Lemma cleanup_targets pid n bs b :
  b ∈ concat ((λ group : string * list BackupEntry,
                 js_slice n (sort_newest_first group.2)) <$> group_by_path pid bs)
  ↔ doomed pid n bs b.
Proof.
  rewrite elem_of_concat. split.
  - intros (l & Hb & ([p g] & -> & Hg)%list_elem_of_fmap). simpl in Hb.
    apply group_by_path_spec in Hg as [-> _].
    pose proof (js_slice_subseteq _ _ _ Hb) as Hin.
    rewrite elem_of_sort_newest_first, elem_of_backups_of in Hin.
    destruct Hin as (_ & Hpid & <-).
    by split.
  - intros [Hpid Hb].
    exists (js_slice n (sort_newest_first (backups_of pid b.(originalPath) bs))).
    split; [done|]. apply list_elem_of_fmap.
    exists (b.(originalPath), backups_of pid b.(originalPath) bs). split; [done|].
    apply group_by_path_spec. split; [done|].
    apply js_slice_subseteq in Hb. rewrite elem_of_sort_newest_first in Hb.
    intros Hnil. rewrite Hnil in Hb. by apply elem_of_nil in Hb.
Qed.

Lemma doomed_elem pid n bs b : doomed pid n bs b → b ∈ bs.
Proof.
  intros [_ Hb]. apply js_slice_subseteq in Hb.
  rewrite elem_of_sort_newest_first, elem_of_backups_of in Hb. by destruct Hb.
Qed.

Lemma cleanupOldBackups_spec E pid n w :
  w.(db).(initialized) = true →
  NoDup (backupId <$> w.(db).(backups)) →
  ∃ w', cleanupOldBackups E pid n w = (Ok tt, w') ∧
    w'.(db).(backups)
      = filter (λ b, ¬ doomed pid n w.(db).(backups) b) w.(db).(backups) ∧
    backups_aside w w' ∧
    (∀ q, (∀ b, doomed pid n w.(db).(backups) b → resolve E b.(backupPath) ≠ q) →
          fs w' !! q = fs w !! q).
Proof.
  intros Hinit Hnd. unfold cleanupOldBackups.
  rewrite (bind_run _ _ _ _ _ (initialize_idle w Hinit)). unfold bind, get_world.
  rewrite (for_each_concat
             (λ group : string * list BackupEntry, js_slice n (sort_newest_first group.2))).
  destruct (delete_each E (concat ((λ group : string * list BackupEntry,
              js_slice n (sort_newest_first group.2)) <$> group_by_path pid w.(db).(backups)))
              w Hinit) as (w' & Hrun & Hb & Ha & Hfs).
  exists w'. split; [done|]. split; [|split; [done|]].
  - rewrite Hb. apply filter_iff_in. intros b Hin.
    rewrite <- cleanup_targets. split.
    + intros Hid Hb'. apply Hid. by apply list_elem_of_fmap_2.
    + intros Hnb (b' & Hid & Hb')%list_elem_of_fmap. apply Hnb.
      assert (b' ∈ w.(db).(backups)) by by eapply doomed_elem, cleanup_targets.
      by rewrite (NoDup_fmap_eq backupId _ b b' Hnd).
  - intros q Hq. apply Hfs. intros b Hin (b' & Hid & Hb')%list_elem_of_fmap.
    apply cleanup_targets in Hb'.
    assert (b' ∈ w.(db).(backups)) by by eapply doomed_elem.
    rewrite (NoDup_fmap_eq backupId _ b b' Hnd) by done. by apply Hq.
Qed.

Lemma filter_all {A} (P : A → Prop) `{∀ x, Decision (P x)} (l : list A) :
  (∀ x, x ∈ l → P x) → filter P l = l.
Proof.
  induction l as [|x l IH]; intros HP; [done|].
  rewrite filter_cons_True by (apply HP; left). f_equal. apply IH.
  intros y Hy. apply HP. by right.
Qed.

Lemma filter_none {A} (P : A → Prop) `{∀ x, Decision (P x)} (l : list A) :
  (∀ x, x ∈ l → ¬ P x) → filter P l = [].
Proof.
  induction l as [|x l IH]; intros HP; [done|].
  rewrite filter_cons_False by (apply HP; left). apply IH.
  intros y Hy. apply HP. by right.
Qed.

Lemma filter_not_in_drop {A} `{EqDecision A} (l : list A) n :
  NoDup l → filter (λ x, x ∉ drop n l) l = take n l.
Proof.
  intros Hnd. rewrite <- (take_drop n l) in Hnd.
  apply NoDup_app in Hnd as (_ & Hdisj & _).
  transitivity (filter (λ x, x ∉ drop n l) (take n l ++ drop n l));
    [by rewrite take_drop|].
  rewrite filter_app, (filter_all _ (take n l)) by done.
  rewrite (filter_none _ (drop n l)); [by rewrite app_nil_r|]. intros x Hx Hnx. done.
Qed.

(** What is left of one path after the cleanup. *)
Lemma retained_of_path pid n bs p :
  backups_of pid p (filter (λ b, ¬ doomed pid n bs b) bs)
  = filter (λ b, b ∉ js_slice n (sort_newest_first (backups_of pid p bs)))
           (backups_of pid p bs).
Proof.
  remember (js_slice n (sort_newest_first (backups_of pid p bs))) as gone eqn:Hgone.
  unfold backups_of. rewrite !list_filter_filter. apply list_filter_iff.
  intros b. subst gone. unfold doomed. split.
  - intros [[Hpid <-] Hnot]. split; [|done]. intros Hb. apply Hnot. done.
  - intros [Hnot [Hpid <-]]. split; [done|]. by intros [_ Hb].
Qed.

(** C5, amended: when a path of the project has [n + k] backups on record
    and cleanup runs with a retention count of [n], exactly [n] backups of
    the path remain, all of them among the earlier ones and none older than
    a removed one; backups of other projects stay, and so do the backups of
    every path that has at most [n] of them. (Backup identifiers are the
    keys of the map, hence distinct.) *)
Theorem retention_keeps_the_newest E pid (n k : nat) p w :
  w.(db).(initialized) = true →
  NoDup (backupId <$> w.(db).(backups)) →
  length (backups_of pid p w.(db).(backups)) = (n + k)%nat →
  ∃ w', cleanupOldBackups E pid (Z.of_nat n) w = (Ok tt, w') ∧
    length (backups_of pid p w'.(db).(backups)) = n ∧
    (∀ b, b ∈ backups_of pid p w'.(db).(backups) → b ∈ backups_of pid p w.(db).(backups)) ∧
    (∀ kept removed,
       kept ∈ backups_of pid p w'.(db).(backups) →
       removed ∈ backups_of pid p w.(db).(backups) →
       removed ∉ backups_of pid p w'.(db).(backups) →
       removed.(createdAt) ≤ kept.(createdAt)) ∧
    (∀ b, b ∈ w.(db).(backups) → b.(backupProjectId) ≠ pid → b ∈ w'.(db).(backups)) ∧
    (∀ q, (length (backups_of pid q w.(db).(backups)) ≤ n)%nat →
          backups_of pid q w'.(db).(backups) = backups_of pid q w.(db).(backups)).
Proof.
  intros Hinit Hnd Hlen.
  destruct (cleanupOldBackups_spec E pid (Z.of_nat n) w Hinit Hnd) as (w' & Hrun & Hb & _).
  exists w'. split; [done|]. rewrite Hb. clear Hrun Hb w'.
  set (bs := w.(db).(backups)) in *.
  assert (∀ q, NoDup (sort_newest_first (backups_of pid q bs))) as Hnds.
  { intros q. rewrite sort_newest_first_perm. apply NoDup_filter.
    by apply (NoDup_fmap_1 backupId). }
  assert (∀ q, backups_of pid q (filter (λ b, ¬ doomed pid (Z.of_nat n) bs b) bs)
               ≡ₚ take n (sort_newest_first (backups_of pid q bs))) as Hperm.
  { intros q. rewrite retained_of_path, js_slice_nat.
    rewrite <- (filter_not_in_drop _ n (Hnds q)).
    apply filter_Permutation. symmetry. apply sort_newest_first_perm. }
  split; [|split; [|split; [|split]]].
  - rewrite (Hperm p), length_take_le; [done|].
    rewrite sort_newest_first_perm, Hlen. lia.
  - intros b. rewrite retained_of_path, list_elem_of_filter. tauto.
  - intros kept removed Hkept Hin Hout.
    apply (sorted_take_drop (sort_newest_first (backups_of pid p bs)) n).
    + apply sort_newest_first_sorted.
    + by rewrite <- (Hperm p).
    + rewrite retained_of_path, list_elem_of_filter, js_slice_nat in Hout.
      destruct (decide (removed ∈ drop n (sort_newest_first (backups_of pid p bs))));
        [done|]. destruct Hout. done.
  - intros b Hin Hpid. apply list_elem_of_filter. split; [|done]. by intros [? _].
  - intros q Hq. rewrite retained_of_path, js_slice_nat.
    rewrite drop_ge by (rewrite sort_newest_first_perm; lia).
    apply filter_all. intros x _. apply not_elem_of_nil.
Qed.

(** ** Restoring *)

Lemma try_catch_returns {A} (m : M A) (h : string → A) w :
  ∃ a w', try_catch m (λ e, ret (h e)) w = (Ok a, w').
Proof. unfold try_catch. destruct (m w) as [[a|e] w']; by eexists _, _. Qed.

(** C9: [restoreFromBackup] returns, and it reports success only if a
    backup with this identifier is on record for the project, its file was
    on disk, and the restored file, read back after the copy, hashes to the
    [fileHash] of the record: a mismatch after the copy is a failure. *)
Theorem restore_is_verified E (this : BackupManager.t) id targetPath w :
  w.(db).(initialized) = true →
  ∃ res w',
    BackupManager.restoreFromBackup E this id targetPath w = (Ok res, w') ∧
    (res.(BackupManager.success) = true →
     ∃ backup c,
       backup ∈ w.(db).(backups) ∧
       backup.(backupId) = id ∧
       backup.(backupProjectId) = this.(BackupManager.projectId) ∧
       is_Some (w.(fs) !! resolve E backup.(backupPath)) ∧
       fs_readFile E (BackupManager.restore_path targetPath backup) w' = (Ok c, w') ∧
       E.(sha256) c = backup.(fileHash)).
Proof.
  intros Hinit.
  destruct (try_catch_returns
    (await backups ← JsonSyncStateDatabase.listBackups this.(BackupManager.projectId) None;
     match List.find (λ b, bool_decide (b.(backupId) = id)) backups with
     | None => ret (BackupManager.failed "Backup not found")
     | Some backup =>
         await present ← try_catch (run fs_access E backup.(backupPath); ret true)
                                   (λ _, ret false);
         if negb present then ret (BackupManager.failed "Backup file no longer exists on disk")
         else
           run fs_mkdir E (path_dirname (BackupManager.restore_path targetPath backup));
           run fs_copyFile E backup.(backupPath) (BackupManager.restore_path targetPath backup);
           await restoredHash ← calculateFileHash E (BackupManager.restore_path targetPath backup);
           if negb (bool_decide (restoredHash = backup.(fileHash))) then
             ret (BackupManager.failed "Restored file integrity verification failed")
           else
             ret {| BackupManager.success := true;
                    BackupManager.result_backupId := Some backup.(backupId);
                    BackupManager.result_backupPath := Some (BackupManager.restore_path targetPath backup);
                    BackupManager.error := None |}
     end) BackupManager.failed w) as (res & w' & Hrun).
  exists res, w'. split; [exact Hrun|]. intros Hok.
  apply try_catch_inv in Hrun as [(res' & Hrun & [= <-])|(e & w1 & _ & [= <- _])];
    [|done].
  rewrite (bind_run _ _ _ _ _ (listBackups_idle _ _ _ Hinit)) in Hrun.
  destruct (find _ _) as [backup|] eqn:Hfind; [|by injection Hrun as <- _].
  apply find_some in Hfind as [Hin Hid]. apply bool_decide_eq_true in Hid.
  apply list_elem_of_In in Hin. rewrite elem_of_sort_newest_first in Hin.
  apply list_elem_of_filter in Hin as [[Hpid _] Hin].
  apply bind_Ok in Hrun as (present & w1 & Hpresent & Hrun).
  assert (w1 = w ∧ present = bool_decide (is_Some (w.(fs) !! resolve E backup.(backupPath))))
    as [-> ->].
  { pose proof (fileExists_run E backup.(backupPath) w) as Hex.
    unfold SafeSync.fileExists in Hex. rewrite Hex in Hpresent. by injection Hpresent as <- <-. }
  case_bool_decide as Hthere; [|by injection Hrun as <- _]. simpl in Hrun.
  apply bind_Ok in Hrun as ([] & w1 & Hmkdir & Hrun).
  apply bind_Ok in Hrun as ([] & w2 & Hcopy & Hrun).
  apply bind_Ok in Hrun as (h & w3 & Hhash & Hrun).
  apply calculateFileHash_Ok in Hhash as (-> & c & Hread & ->).
  case_bool_decide as Hsame; simpl in Hrun; injection Hrun as <- <-; [|done].
  exists backup, c. done.
Qed.

(** ** Setting a key *)



Lemma elem_of_map_set {V} (key : V → string) v (m : list V) x :
  NoDup (key <$> m) →
  x ∈ map_set key v m ↔ x = v ∨ (x ∈ m ∧ key x ≠ key v).
Proof.
  induction m as [|y m IH]; intros Hnd.
  - cbn [map_set]. rewrite list_elem_of_singleton. split; [by left|].
    by intros [->|[?%elem_of_nil _]].
  - rewrite fmap_cons in Hnd. apply NoDup_cons in Hnd as [Hy Hnd].
    cbn [map_set]. destruct (decide (key y = key v)) as [Heq|Hne].
    + rewrite !elem_of_cons. split.
      * intros [->|Hx]; [by left|]. right. split; [by right|].
        intros Hk. apply Hy. rewrite Heq, <- Hk. by apply list_elem_of_fmap_2.
      * intros [->|[[->|Hx] Hk]]; [by left|done|by right].
    + rewrite !elem_of_cons, (IH Hnd). split.
      * intros [->|[->|[Hx Hk]]]; [|by left|].
        -- right. split; [by left|done].
        -- right. split; [by right|done].
      * intros [->|[[->|Hx] Hk]]; [by right; left|by left|]. right. right. done.
Qed.

(** ** Recording a backup *)

Lemma db_createBackup_run entry w :
  w.(db).(initialized) = true →
  JsonSyncStateDatabase.createBackup entry w
  = (Ok tt, set_db (JsonSyncStateDatabase.saved
                      (JsonSyncStateDatabase.set_backups
                         (map_set backupId entry w.(db).(backups)) w.(db))) w).
Proof.
  intros Hinit. unfold JsonSyncStateDatabase.createBackup.
  by rewrite (bind_run _ _ _ _ _ (initialize_idle w Hinit)).
Qed.

(** What a copy leaves at its destination. *)
Lemma fs_copyFile_Ok E src dst w w' :
  fs_copyFile E src dst w = (Ok tt, w') →
  ∃ c f, fs_readFile E src w = (Ok c, w) ∧
    w' = set_fs (<[resolve E dst := File f]> w.(fs)) w ∧
    f.(content) = E.(copied) c ∧
    (w.(fs) !! resolve E dst = None → f.(readable) = true).
Proof.
  unfold fs_copyFile. intros Hrun. apply bind_Ok in Hrun as (c & w1 & Hread & Hwrite).
  pose proof (fs_readFile_pure _ _ _ _ _ Hread) as ->.
  unfold write_node in Hwrite. destruct (w.(fs) !! resolve E dst) as [[f0|]|] eqn:Hdst;
    [| done |]; injection Hwrite as <-; eexists c, _; (split; [done|]); (split; [done|]);
    simpl; (split; [done|]); done.
Qed.

Lemma fs_readFile_lookup E p w c :
  fs_readFile E p w = (Ok c, w) ↔
  ∃ f, w.(fs) !! resolve E p = Some (File f) ∧ f.(readable) = true ∧ f.(content) = c.
Proof.
  unfold fs_readFile. split.
  - destruct (w.(fs) !! resolve E p) as [[f|]|]; [|done..].
    destruct (readable f) eqn:Hr; [|done]. intros [= <-]. eauto.
  - intros (f & -> & -> & <-). done.
Qed.

(** ** Creating a backup *)

Lemma createBackup_returns E (this : BackupManager.t) originalPath reason w :
  ∃ res w', BackupManager.createBackup E this originalPath reason w = (Ok res, w').
Proof.
  unfold BackupManager.createBackup. destruct (negb _); [by eexists _, _|].
  apply try_catch_returns.
Qed.


(** ** Computations that only look *)

Lemma quiet_ret {A} (a : A) : quiet (ret a).
Proof. by intros w r w' _ [= _ <-]. Qed.

Lemma quiet_throw {A} e : quiet (throw (A:=A) e).
Proof. by intros w r w' _ [= _ <-]. Qed.

Lemma quiet_bind {A B} (m : M A) (k : A → M B) :
  quiet m → (∀ a, quiet (k a)) → quiet (bind m k).
Proof.
  intros Hm Hk w r w' Hinit Hrun.
  apply bind_inv in Hrun as [(a & w1 & Hrun1 & Hrun2)|(e & Hrun & _)].
  - pose proof (Hm _ _ _ Hinit Hrun1) as ->. by apply (Hk a _ _ _ Hinit Hrun2).
  - by apply (Hm _ _ _ Hinit Hrun).
Qed.

Lemma quiet_try_catch {A} (m : M A) (h : string → M A) :
  quiet m → (∀ e, quiet (h e)) → quiet (try_catch m h).
Proof.
  intros Hm Hh w r w' Hinit Hrun.
  apply try_catch_inv in Hrun as [(a & Hrun & _)|(e & w1 & Hrun1 & Hrun2)].
  - by apply (Hm _ _ _ Hinit Hrun).
  - pose proof (Hm _ _ _ Hinit Hrun1) as ->. by apply (Hh e _ _ _ Hinit Hrun2).
Qed.

Lemma quiet_fold_each {A S} (l : list A) (body : S → A → M S) s :
  (∀ s x, quiet (body s x)) → quiet (fold_each l body s).
Proof.
  intros Hbody. revert s. induction l as [|x l IH]; intros s; simpl.
  - apply quiet_ret.
  - apply quiet_bind; [apply Hbody|]. intros s'. apply IH.
Qed.

Lemma quiet_if {A} (b : bool) (m1 m2 : M A) : quiet m1 → quiet m2 → quiet (if b then m1 else m2).
Proof. by destruct b. Qed.

Lemma quiet_get_world : quiet get_world.
Proof. by intros w r w' _ [= _ <-]. Qed.

Lemma quiet_fs_stat E p : quiet (fs_stat E p).
Proof. intros w r w' _. apply fs_stat_pure. Qed.

Lemma quiet_fs_access E p : quiet (fs_access E p).
Proof. apply quiet_bind; [apply quiet_fs_stat|]. intros. apply quiet_ret. Qed.

Lemma quiet_fs_readFile E p : quiet (fs_readFile E p).
Proof. intros w r w' _. apply fs_readFile_pure. Qed.

Lemma quiet_calculateFileHash E p : quiet (calculateFileHash E p).
Proof. intros w r w' _. apply calculateFileHash_pure. Qed.

Lemma quiet_initialize : quiet JsonSyncStateDatabase.initialize.
Proof. intros w r w' Hinit. rewrite initialize_idle by done. by intros [= _ <-]. Qed.

Lemma quiet_getFileState pid p : quiet (JsonSyncStateDatabase.getFileState pid p).
Proof. intros w r w' Hinit. rewrite getFileState_idle by done. by intros [= _ <-]. Qed.

Lemma quiet_listFileStates pid : quiet (JsonSyncStateDatabase.listFileStates pid).
Proof.
  apply quiet_bind; [apply quiet_initialize|]. intros _.
  apply quiet_bind; [apply quiet_get_world|]. intros. apply quiet_ret.
Qed.

Lemma quiet_listKnowledgeFiles pid : quiet (MockClaudeClient.listKnowledgeFiles pid).
Proof. intros w r w' _. apply listKnowledgeFiles_pure. Qed.

Lemma quiet_scanDirectory E root keep : quiet (scanDirectory E root keep).
Proof. intros w r w' _. apply scanDirectory_pure. Qed.

Lemma quiet_fileExists E p : quiet (SafeSync.fileExists E p).
Proof. intros w r w' _. rewrite fileExists_run. by intros [= _ <-]. Qed.

Create HintDb quiet.
#[local] Hint Resolve quiet_ret quiet_throw quiet_get_world quiet_fs_stat quiet_fs_access
  quiet_fs_readFile quiet_calculateFileHash quiet_initialize quiet_getFileState
  quiet_listFileStates quiet_listKnowledgeFiles quiet_scanDirectory quiet_fileExists : quiet.

(** Take a computation apart down to the primitives above. *)
Ltac quiet :=
  repeat first
    [ progress eauto 2 with quiet
    | apply quiet_bind; [|intros ?]
    | apply quiet_try_catch; [|intros ?]
    | apply quiet_fold_each; intros ? ?
    | apply quiet_if
    | match goal with
      | |- quiet (match ?x with _ => _ end) => destruct x
      | |- quiet (let _ := _ in _) => cbv zeta
      end ].

(** ** The validator only looks *)

Lemma quiet_checks_in_order steps f :
  Forall (λ step, ∀ f, quiet (step f)) steps →
  quiet (SyncValidator.checks_in_order steps f).
Proof.
  intros Hsteps. revert f. induction Hsteps as [|step steps Hstep _ IH]; intros f.
  - apply quiet_ret.
  - intros w r w' Hinit. simpl.
    destruct (step f w) as [[f'|e] w1] eqn:Hrun;
      pose proof (Hstep f _ _ _ Hinit Hrun) as ->.
    + by apply IH.
    + by intros [= _ <-].
Qed.

Lemma quiet_enabled_if b step :
  (∀ f, quiet (step f)) → ∀ f, quiet (SyncValidator.enabled_if b step f).
Proof. destruct b; [done|]. intros _ f. apply quiet_ret. Qed.

Lemma quiet_validate E this direction : quiet (SyncValidator.validate E this direction).
Proof.
  unfold SyncValidator.validate. cbv zeta.
  apply quiet_bind; [|intros; apply quiet_ret].
  apply quiet_checks_in_order. repeat constructor; apply quiet_enabled_if; intros f.
  - unfold SyncValidator.doCheckDiskSpace. quiet.
  - unfold SyncValidator.doCheckPermissions. quiet.
  - unfold SyncValidator.doCheckGitStatus. quiet.
  - unfold SyncValidator.doCheckNetworkConnectivity, MockClaudeClient.getCurrentUser. quiet.
  - unfold SyncValidator.validateLocalFiles, SyncValidator.getLocalFiles,
      SyncValidator.inspectLocalFile. quiet.
  - unfold SyncValidator.validateRemoteFiles, SyncValidator.inspectRemoteFile. quiet.
  - unfold SyncValidator.detectConflicts. quiet.
Qed.

Lemma validate_returns E this direction w :
  ∃ v w', SyncValidator.validate E this direction w = (Ok v, w').
Proof.
  unfold SyncValidator.validate. cbv zeta.
  match goal with |- context [bind (SyncValidator.checks_in_order ?s ?f)] =>
    destruct (checks_in_order_returns s f w) as (f' & w' & Hrun) end.
  eexists _, w'. erewrite bind_run by exact Hrun. reflexivity.
Qed.

(** ** Planning only looks *)

Lemma quiet_planUploadOperations E this : quiet (SafeSync.planUploadOperations E this).
Proof. unfold SafeSync.planUploadOperations, SafeSync.getLocalFiles. quiet. Qed.

Lemma quiet_planDownloadOperations E this : quiet (SafeSync.planDownloadOperations E this).
Proof. unfold SafeSync.planDownloadOperations. quiet. Qed.

Lemma quiet_planOperations E this result : quiet (SafeSync.planOperations E this result).
Proof.
  unfold SafeSync.planOperations.
  pose proof (quiet_planUploadOperations E this).
  pose proof (quiet_planDownloadOperations E this). quiet.
Qed.

Lemma quiet_planAndResolve E this result : quiet (SafeSync.planAndResolve E this result).
Proof.
  unfold SafeSync.planAndResolve. pose proof (quiet_planOperations E this). quiet.
Qed.

Lemma quiet_preSyncValidation E this result : quiet (SafeSync.preSyncValidation E this result).
Proof.
  unfold SafeSync.preSyncValidation. pose proof (quiet_validate E). quiet.
Qed.

(** ** Executing the plan *)

Lemma after_backup_lists br op result : same_lists result (after_backup br op result).
Proof. unfold after_backup. by destruct (BackupManager.success br). Qed.

Lemma backupBefore_required E (this : SafeSync.t) op result w :
  op.(SafeSync.backupRequired) = true →
  ∃ br w1,
    BackupManager.createBackup E this.(SafeSync.backupManager)
      (path_join this.(SafeSync.localPath) op.(SafeSync.filePath)) "sync" w = (Ok br, w1) ∧
    SafeSync.backupBefore E this op result w = (Ok (after_backup br op result), w1).
Proof.
  intros Hreq.
  destruct (createBackup_returns E this.(SafeSync.backupManager)
              (path_join this.(SafeSync.localPath) op.(SafeSync.filePath)) "sync" w)
    as (br & w1 & Hrun).
  exists br, w1. split; [done|]. unfold SafeSync.backupBefore. rewrite Hreq.
  rewrite (bind_run _ _ _ _ _ Hrun). unfold after_backup.
  by destruct (BackupManager.success br).
Qed.

Lemma backupBefore_returns E (this : SafeSync.t) op result w :
  ∃ result1 w1,
    SafeSync.backupBefore E this op result w = (Ok result1, w1) ∧ same_lists result result1.
Proof.
  destruct (SafeSync.backupRequired op) eqn:Hreq.
  - destruct (backupBefore_required E this op result w Hreq) as (br & w1 & _ & Hrun).
    eexists _, _. split; [exact Hrun|]. apply after_backup_lists.
  - exists result, w. unfold SafeSync.backupBefore. rewrite Hreq. by repeat split.
Qed.

Lemma executeOperation_lists E this op result w r w' :
  SafeSync.executeOperation E this op result w = (Ok r, w') → same_lists result r.
Proof.
  unfold SafeSync.executeOperation. destruct (SafeSync.type op).
  - unfold SafeSync.executeUpload. intros Hrun.
    repeat (apply bind_Ok in Hrun as (? & ? & _ & Hrun)). by injection Hrun as <- _.
  - unfold SafeSync.executeDownload. intros Hrun.
    apply bind_Ok in Hrun as (? & ? & _ & Hrun). destruct (find _ _); [|done].
    repeat (apply bind_Ok in Hrun as (? & ? & _ & Hrun)). by injection Hrun as <- _.
  - unfold SafeSync.executeLocalDelete. intros Hrun.
    repeat (apply bind_Ok in Hrun as (? & ? & _ & Hrun)).
    case_match; [|by injection Hrun as <- _].
    repeat (apply bind_Ok in Hrun as (? & ? & _ & Hrun)). by injection Hrun as <- _.
  - unfold SafeSync.executeRemoteDelete. intros Hrun.
    apply bind_Ok in Hrun as (? & ? & _ & Hrun).
    repeat case_match; try by injection Hrun as <- _.
    repeat (apply bind_Ok in Hrun as (? & ? & _ & Hrun)). by injection Hrun as <- _.
Qed.

(** One turn of the loop: the backup attempt, then the operation, whatever
    the backup attempt gave. *)
Lemma executeOne_unfold E this result op w result1 w1 :
  SafeSync.backupBefore E this op result w = (Ok result1, w1) →
  SafeSync.executeOne E this result op w =
  match SafeSync.executeOperation E this op result1 w1 with
  | (Ok result2, w2) => (Ok (SafeSync.push_executed op result2), w2)
  | (Throw message, w2) =>
      (Ok (SafeSync.push_skipped op
             (SafeSync.push_error (failure_message op message) result1)), w2)
  end.
Proof.
  intros Hrun. unfold SafeSync.executeOne. rewrite (bind_run _ _ _ _ _ Hrun).
  unfold try_catch, bind.
  by destruct (SafeSync.executeOperation E this op result1 w1) as [[r|e] w2].
Qed.

Lemma executeOne_spec E this result op w :
  ∃ r' w',
    SafeSync.executeOne E this result op w = (Ok r', w') ∧
    r'.(SafeSync.operations) = result.(SafeSync.operations) ∧
    ((r'.(SafeSync.executedOperations) = result.(SafeSync.executedOperations) ++ [op] ∧
      r'.(SafeSync.skippedOperations) = result.(SafeSync.skippedOperations) ∧
      r'.(SafeSync.errors) = result.(SafeSync.errors))
     ∨ (r'.(SafeSync.executedOperations) = result.(SafeSync.executedOperations) ∧
        r'.(SafeSync.skippedOperations) = result.(SafeSync.skippedOperations) ++ [op] ∧
        ∃ message, r'.(SafeSync.errors) = result.(SafeSync.errors) ++ [message])).
Proof.
  destruct (backupBefore_returns E this op result w) as (result1 & w1 & Hrun & H1).
  rewrite (executeOne_unfold _ _ _ _ _ _ _ Hrun).
  destruct H1 as (Ho & He & Hs & Hr).
  destruct (SafeSync.executeOperation E this op result1 w1) as [[r|e] w2] eqn:Hop.
  - destruct (executeOperation_lists _ _ _ _ _ _ _ Hop) as (Ho' & He' & Hs' & Hr').
    eexists _, _. split; [done|]. simpl. split; [congruence|]. left.
    repeat split; congruence.
  - eexists _, _. split; [done|]. simpl. split; [congruence|]. right.
    split; [congruence|]. split; [congruence|]. eexists. by rewrite Hr.
Qed.

Lemma execute_each_spec E this ops result w :
  ∃ r' w',
    fold_each ops (SafeSync.executeOne E this) result w = (Ok r', w') ∧
    r'.(SafeSync.operations) = result.(SafeSync.operations) ∧
    r'.(SafeSync.executedOperations) ++ r'.(SafeSync.skippedOperations)
    ≡ₚ (result.(SafeSync.executedOperations) ++ result.(SafeSync.skippedOperations)) ++ ops.
Proof.
  revert result w. induction ops as [|op ops IH]; intros result w; simpl.
  - exists result, w. by rewrite app_nil_r.
  - destruct (executeOne_spec E this result op w) as (r1 & w1 & Hrun & Ho & Hcase).
    destruct (IH r1 w1) as (r' & w' & Hrun' & Ho' & Hperm).
    exists r', w'. rewrite (bind_run _ _ _ _ _ Hrun). split; [done|].
    split; [congruence|]. rewrite Hperm.
    destruct Hcase as [(-> & -> & _)|(-> & -> & _)].
    + rewrite <- !app_assoc. apply Permutation_app_head. simpl.
      by rewrite Permutation_middle.
    + by rewrite <- !app_assoc.
Qed.

(** C1, amended: for an operation with [backupRequired], one turn of the
    execution loop first attempts the backup of the local file, and then runs
    the operation whatever the attempt gave: a failed backup only adds a
    warning (in [after_backup]). The operation ends in [executedOperations]
    unless the operation itself throws, in which case it is skipped with an
    error; and the loop goes on: the whole run returns, with every planned
    operation either executed or skipped. *)
Theorem operation_runs_after_its_backup_attempt E (this : SafeSync.t) result op w :
  op.(SafeSync.backupRequired) = true →
  (∃ br w1,
     BackupManager.createBackup E this.(SafeSync.backupManager)
       (path_join this.(SafeSync.localPath) op.(SafeSync.filePath)) "sync" w = (Ok br, w1) ∧
     SafeSync.executeOne E this result op w =
     match SafeSync.executeOperation E this op (after_backup br op result) w1 with
     | (Ok result2, w2) => (Ok (SafeSync.push_executed op result2), w2)
     | (Throw message, w2) =>
         (Ok (SafeSync.push_skipped op
                (SafeSync.push_error (failure_message op message)
                   (after_backup br op result))), w2)
     end) ∧
  (∀ result0 w0, ∃ result' w',
     SafeSync.executeOperations E this result0 w0 = (Ok result', w') ∧
     result'.(SafeSync.operations) = result0.(SafeSync.operations) ∧
     result'.(SafeSync.executedOperations) ++ result'.(SafeSync.skippedOperations)
     ≡ₚ (result0.(SafeSync.executedOperations) ++ result0.(SafeSync.skippedOperations))
        ++ result0.(SafeSync.operations)).
Proof.
  intros Hreq. split.
  - destruct (backupBefore_required E this op result w Hreq) as (br & w1 & Hbackup & Hrun).
    exists br, w1. split; [done|]. by apply executeOne_unfold.
  - intros result0 w0. apply execute_each_spec.
Qed.

(** ** Invariants of computations *)

Section keeps.
Context (I : World → Prop).

Lemma keeps_ret {A} (a : A) : keeps I (ret a).
Proof. by intros w r w' ? [= _ <-]. Qed.

Lemma keeps_throw {A} e : keeps I (throw (A:=A) e).
Proof. by intros w r w' ? [= _ <-]. Qed.

Lemma keeps_bind {A B} (m : M A) (k : A → M B) :
  keeps I m → (∀ a, keeps I (k a)) → keeps I (bind m k).
Proof.
  intros Hm Hk w r w' HI Hrun.
  apply bind_inv in Hrun as [(a & w1 & Hrun1 & Hrun2)|(e & Hrun & _)].
  - eapply Hk; [|exact Hrun2]. by eapply Hm.
  - by eapply Hm.
Qed.

Lemma keeps_try_catch {A} (m : M A) (h : string → M A) :
  keeps I m → (∀ e, keeps I (h e)) → keeps I (try_catch m h).
Proof.
  intros Hm Hh w r w' HI Hrun.
  apply try_catch_inv in Hrun as [(a & Hrun & _)|(e & w1 & Hrun1 & Hrun2)].
  - by eapply Hm.
  - eapply Hh; [|exact Hrun2]. by eapply Hm.
Qed.

Lemma keeps_fold_each {A S} (l : list A) (body : S → A → M S) s :
  (∀ s x, keeps I (body s x)) → keeps I (fold_each l body s).
Proof.
  intros Hbody. revert s. induction l as [|x l IH]; intros s; simpl.
  - apply keeps_ret.
  - apply keeps_bind; [apply Hbody|]. intros s'. apply IH.
Qed.

Lemma keeps_for_each {A} (l : list A) (body : A → M unit) :
  (∀ x, keeps I (body x)) → keeps I (for_each l body).
Proof.
  intros Hbody. induction l as [|x l IH]; simpl.
  - apply keeps_ret.
  - apply keeps_bind; [apply Hbody|]. by intros _.
Qed.

Lemma keeps_if {A} (b : bool) (m1 m2 : M A) :
  keeps I m1 → keeps I m2 → keeps I (if b then m1 else m2).
Proof. by destruct b. Qed.

Lemma keeps_get_world : keeps I get_world.
Proof. by intros w r w' ? [= _ <-]. Qed.

Lemma keeps_fs_stat E p : keeps I (fs_stat E p).
Proof. intros w r w' HI Hrun. by rewrite (fs_stat_pure _ _ _ _ _ Hrun). Qed.

Lemma keeps_fs_access E p : keeps I (fs_access E p).
Proof. apply keeps_bind; [apply keeps_fs_stat|]. intros. apply keeps_ret. Qed.

Lemma keeps_fs_readFile E p : keeps I (fs_readFile E p).
Proof. intros w r w' HI Hrun. by rewrite (fs_readFile_pure _ _ _ _ _ Hrun). Qed.

Lemma keeps_calculateFileHash E p : keeps I (calculateFileHash E p).
Proof. intros w r w' HI Hrun. by rewrite (calculateFileHash_pure _ _ _ _ _ Hrun). Qed.

Lemma keeps_fs_mkdir E p : keeps I (fs_mkdir E p).
Proof. intros w r w' HI. unfold fs_mkdir. repeat case_match; by intros [= _ <-]. Qed.

Lemma keeps_listKnowledgeFiles pid : keeps I (MockClaudeClient.listKnowledgeFiles pid).
Proof. intros w r w' HI Hrun. by rewrite (listKnowledgeFiles_pure _ _ _ _ Hrun). Qed.

Lemma keeps_getKnowledgeFile pid fid : keeps I (MockClaudeClient.getKnowledgeFile pid fid).
Proof.
  intros w r w' HI. unfold MockClaudeClient.getKnowledgeFile.
  repeat case_match; by intros [= _ <-].
Qed.

Lemma keeps_fileExists E p : keeps I (SafeSync.fileExists E p).
Proof. intros w r w' HI. rewrite fileExists_run. by intros [= _ <-]. Qed.

End keeps.

Create HintDb keeps.
#[export] Hint Resolve keeps_ret keeps_throw keeps_get_world keeps_fs_stat keeps_fs_access
  keeps_fs_readFile keeps_calculateFileHash keeps_fs_mkdir keeps_listKnowledgeFiles
  keeps_getKnowledgeFile keeps_fileExists : keeps.

(** Take a computation apart down to the primitives. *)
Ltac keeps :=
  repeat first
    [ progress eauto 2 with keeps
    | apply keeps_bind; [|intros ?]
    | apply keeps_try_catch; [|intros ?]
    | apply keeps_fold_each; intros ? ?
    | apply keeps_for_each; intros ?
    | apply keeps_if
    | match goal with
      | |- keeps _ (match ?x with _ => _ end) => destruct x
      | |- keeps _ (let _ := _ in _) => cbv zeta
      end ].

(** A change of the world that [I] does not see. *)
Lemma keeps_modify (I : World → Prop) (f : World → World) :
  (∀ w, I w → I (f w)) → keeps I (modify f).
Proof. intros Hf w r w' HI [= _ <-]. by apply Hf. Qed.

(** ** The database stays open *)

Lemma keeps_open_initialize : keeps db_open JsonSyncStateDatabase.initialize.
Proof. intros w r w' HI. rewrite initialize_idle by done. by intros [= _ <-]. Qed.

Lemma keeps_open_save : keeps db_open JsonSyncStateDatabase.save.
Proof. by apply keeps_modify. Qed.

Lemma keeps_open_new_Date E : keeps db_open (new_Date E).
Proof. by intros w r w' HI [= _ <-]. Qed.

Lemma keeps_open_randomBytes E : keeps db_open (randomBytes E).
Proof. by intros w r w' HI [= _ <-]. Qed.

Lemma keeps_open_write_node E p c : keeps db_open (write_node E p c).
Proof. intros w r w' HI. unfold write_node. repeat case_match; by intros [= _ <-]. Qed.

Lemma keeps_open_fs_unlink E p : keeps db_open (fs_unlink E p).
Proof. intros w r w' HI. unfold fs_unlink. repeat case_match; by intros [= _ <-]. Qed.

Lemma keeps_open_deleteKnowledgeFile pid fid :
  keeps db_open (MockClaudeClient.deleteKnowledgeFile pid fid).
Proof.
  intros w r w' HI. unfold MockClaudeClient.deleteKnowledgeFile.
  repeat case_match; by intros [= _ <-].
Qed.

#[export] Hint Resolve keeps_open_initialize keeps_open_save keeps_open_new_Date
  keeps_open_randomBytes keeps_open_write_node keeps_open_fs_unlink
  keeps_open_deleteKnowledgeFile : keeps.

Lemma keeps_open_executeOne E this result op :
  keeps db_open (SafeSync.executeOne E this result op).
Proof.
  unfold SafeSync.executeOne, SafeSync.backupBefore, BackupManager.createBackup,
    SafeSync.executeOperation, SafeSync.executeUpload, SafeSync.executeDownload,
    SafeSync.executeLocalDelete, SafeSync.executeRemoteDelete,
    BackupManager.createBackup, generateBackupId,
    JsonSyncStateDatabase.createBackup, JsonSyncStateDatabase.cleanupOldBackups,
    JsonSyncStateDatabase.deleteBackup, JsonSyncStateDatabase.saveFileState,
    JsonSyncStateDatabase.getFileState,
    MockClaudeClient.uploadKnowledgeFile, fs_copyFile, fs_writeFile.
  keeps; try (apply keeps_modify; intros w; unfold db_open; try case_match; done).
Qed.

Lemma keeps_open_executeOperations E this result :
  keeps db_open (SafeSync.executeOperations E this result).
Proof. apply keeps_fold_each. intros. apply keeps_open_executeOne. Qed.

(** ** Dry runs *)

Lemma with_dryRun_id (this : SafeSync.t) :
  with_dryRun this.(SafeSync.options).(SafeSync.dryRun) this = this.
Proof. by destruct this as [? ? [] ? ?]. Qed.

Lemma initialize_opens w :
  JsonSyncStateDatabase.initialize w = (Ok tt, open_world w)
  ∧ (open_world w).(db).(initialized) = true.
Proof.
  unfold JsonSyncStateDatabase.initialize, open_world, opened.
  destruct (initialized (db w)) eqn:Hinit.
  - split; [|done]. by destruct w.
  - split; [done|]. unfold JsonSyncStateDatabase.load. by destruct (dbFile (db w)).
Qed.





Lemma close_run w :
  w.(db).(initialized) = true → JsonSyncStateDatabase.close w = (Ok tt, closed w).
Proof. intros Hinit. unfold JsonSyncStateDatabase.close, bind, get_world. by rewrite Hinit. Qed.

Lemma preSyncValidation_returns E this result w :
  ∃ checked w', SafeSync.preSyncValidation E this result w = (Ok checked, w').
Proof.
  unfold SafeSync.preSyncValidation. destruct (SafeSync.enabled _); [|by eexists _, _].
  destruct (validate_returns E this.(SafeSync.validator)
              this.(SafeSync.options).(SafeSync.direction) w) as (v & w' & Hrun).
  rewrite (bind_run _ _ _ _ _ Hrun). destruct (_ && _); by eexists _, _.
Qed.

Lemma try_finally_run {A} (m : M A) (f : M unit) w r w1 w2 :
  m w = (r, w1) → f w1 = (Ok tt, w2) → try_finally m f w = (r, w2).
Proof. unfold try_finally. intros Hm Hf. by rewrite Hm, Hf. Qed.

Lemma sync_steps E (this : SafeSync.t) w :
  ∃ checked,
    SafeSync.preSyncValidation E this (SafeSync.initial_result this) (open_world w) = (Ok checked, open_world w) ∧
    match checked with
    | inl result => SafeSync.sync E this w = (Ok result, closed (open_world w))
    | inr result =>
        match SafeSync.planAndResolve E this result (open_world w) with
        | (Throw message, _) =>
            SafeSync.sync E this w
            = (Ok (SafeSync.push_error ("Sync failed: " +:+ message) result), closed (open_world w))
        | (Ok planned, _) =>
            if this.(SafeSync.options).(SafeSync.dryRun) then
              SafeSync.sync E this w = (Ok (finish planned), closed (open_world w))
            else
              ∃ executed w2,
                SafeSync.executeOperations E this planned (open_world w) = (Ok executed, w2) ∧
                w2.(db).(initialized) = true ∧
                SafeSync.sync E this w = (Ok (finish executed), closed w2)
        end
    end.
Proof.
  destruct (initialize_opens w) as [Hinit Hwi]. revert Hinit Hwi.
  generalize (open_world w). intros wi Hinit Hwi.
  destruct (preSyncValidation_returns E this (SafeSync.initial_result this) wi)
    as (checked & w1 & Hcheck).
  pose proof (quiet_preSyncValidation E this _ _ _ _ Hwi Hcheck) as ->.
  exists checked. split; [done|].
  unfold SafeSync.sync.
  destruct checked as [result|result].
  - eapply try_finally_run; [|by apply close_run].
    unfold try_catch at 1.
    by rewrite (bind_run _ _ _ _ _ Hinit), (bind_run _ _ _ _ _ Hcheck).
  - destruct (SafeSync.planAndResolve E this result wi) as [[planned|e] w1] eqn:Hplan;
      pose proof (quiet_planAndResolve E this _ _ _ _ Hwi Hplan) as ->.
    + destruct (SafeSync.dryRun _) eqn:Hdry.
      * eapply try_finally_run; [|by apply close_run].
        unfold try_catch at 1.
        rewrite (bind_run _ _ _ _ _ Hinit), (bind_run _ _ _ _ _ Hcheck).
        unfold try_catch. by rewrite (bind_run _ _ _ _ _ Hplan).
      * destruct (execute_each_spec E this planned.(SafeSync.operations) planned wi)
          as (executed & w2 & Hexec & _).
        fold (SafeSync.executeOperations E this planned) in Hexec.
        assert (w2.(db).(initialized) = true) as Hw2.
        { by apply (keeps_open_executeOperations E this planned _ _ _ Hwi Hexec). }
        exists executed, w2. split; [done|]. split; [done|].
        eapply try_finally_run; [|by apply close_run].
        unfold try_catch at 1.
        rewrite (bind_run _ _ _ _ _ Hinit), (bind_run _ _ _ _ _ Hcheck).
        unfold try_catch. rewrite (bind_run _ _ _ _ _ Hplan).
        simpl. by rewrite (bind_run _ _ _ _ _ Hexec).
    + eapply try_finally_run; [|by apply close_run].
      unfold try_catch at 1.
      rewrite (bind_run _ _ _ _ _ Hinit), (bind_run _ _ _ _ _ Hcheck).
      unfold try_catch, bind. by rewrite Hplan.
Qed.

Lemma report_issues_lists issues r :
  same_lists r (SafeSync.report_issues issues r)
  ∨ (SafeSync.report_issues issues r).(SafeSync.operations) = r.(SafeSync.operations)
    ∧ (SafeSync.report_issues issues r).(SafeSync.executedOperations)
      = r.(SafeSync.executedOperations)
    ∧ (SafeSync.report_issues issues r).(SafeSync.skippedOperations)
      = r.(SafeSync.skippedOperations).
Proof.
  right. unfold SafeSync.report_issues. revert r.
  induction issues as [|i issues IH]; intros r; [done|]. simpl.
  destruct (IH (match SyncValidator.type i with
                | SyncValidator.error => SafeSync.push_error (SyncValidator.message i) r
                | SyncValidator.warning => SafeSync.push_warning (SyncValidator.message i) r
                | SyncValidator.info => r
                end)) as (-> & -> & ->).
  by destruct (SyncValidator.type i).
Qed.

Lemma preSyncValidation_lists E this r w checked w' :
  SafeSync.preSyncValidation E this r w = (Ok checked, w') →
  let result := match checked with inl x => x | inr x => x end in
  result.(SafeSync.operations) = r.(SafeSync.operations) ∧
  result.(SafeSync.executedOperations) = r.(SafeSync.executedOperations) ∧
  result.(SafeSync.skippedOperations) = r.(SafeSync.skippedOperations).
Proof.
  unfold SafeSync.preSyncValidation. destruct (SafeSync.enabled _).
  - intros Hrun. apply bind_Ok in Hrun as (v & w1 & _ & Hrun).
    destruct (_ && _); injection Hrun as <- _; [done|]. simpl.
    by destruct (report_issues_lists (SyncValidator.issues v)
                   (SafeSync.set_validationResult v r)) as [(?&?&?&?)|?].
  - by intros [= <- _].
Qed.




(** ** Two runs in a row *)

(** *** Maps, once more *)

Lemma map_get_map_set_eq {V} (key : V → string) v (m : list V) :
  map_get key (key v) (map_set key v m) = Some v.
Proof.
  unfold map_get. induction m as [|x m IH]; cbn [map_set List.find].
  - by rewrite bool_decide_eq_true_2.
  - destruct (decide (key x = key v)) as [Heq|Hne]; cbn [List.find].
    + by rewrite bool_decide_eq_true_2.
    + by rewrite bool_decide_eq_false_2.
Qed.

Lemma map_get_map_set_ne {V} (key : V → string) v k (m : list V) :
  key v ≠ k → map_get key k (map_set key v m) = map_get key k m.
Proof.
  intros Hk. unfold map_get. induction m as [|x m IH]; cbn [map_set List.find].
  - by rewrite bool_decide_eq_false_2.
  - destruct (decide (key x = key v)) as [Heq|Hne]; cbn [List.find].
    + rewrite !bool_decide_eq_false_2; [done|congruence|done].
    + by rewrite IH.
Qed.

Lemma map_set_fresh {V} (key : V → string) v (m : list V) :
  (∀ x, x ∈ m → key x ≠ key v) → map_set key v m = m ++ [v].
Proof.
  induction m as [|x m IH]; intros Hfresh; [done|]. cbn [map_set].
  rewrite decide_False by (apply Hfresh; left).
  rewrite IH; [done|]. intros y Hy. apply Hfresh. by right.
Qed.

Lemma elem_of_map_set_1 {V} (key : V → string) v (m : list V) x :
  x ∈ map_set key v m → x = v ∨ x ∈ m.
Proof.
  induction m as [|y m IH]; cbn [map_set].
  - intros ->%list_elem_of_singleton. by left.
  - destruct (decide (key y = key v)).
    + intros [->|Hx]%elem_of_cons; [by left|]. right. by right.
    + intros [->|Hx]%elem_of_cons; [right; by left|].
      destruct (IH Hx) as [->|?]; [by left|]. right. by right.
Qed.

Lemma map_get_elem {V} (key : V → string) x (m : list V) :
  x ∈ m → is_Some (map_get key (key x) m).
Proof.
  intros Hx. destruct (map_get key (key x) m) eqn:Hget; [by eexists|].
  rewrite map_get_None in Hget. by destruct (Hget x Hx).
Qed.

(** *** Paths below the root *)


Lemma startsWith_app (a b : string) c :
  a ≠ "" → startsWith (a +:+ b) (String c "") = startsWith a (String c "").
Proof. destruct a as [|x a]; [done|]. intros _. unfold startsWith. simpl. by destruct (decide _). Qed.

Lemma resolve_join E root rel :
  root ≠ "" → resolve E (path_join root rel) = resolve E root +:+ "/" +:+ rel.
Proof.
  intros Hroot. unfold resolve, path_join.
  rewrite (startsWith_app root _ "/"%char Hroot).
  destruct (startsWith root "/"); [done|]. by rewrite !append_assoc.
Qed.



(** *** The plan as a function of the world *)

Lemma fold_each_collect {A B} (l : list A) (g : A → option B)
  (body : list B → A → M (list B)) w :
  (∀ acc x, body acc x w = (Ok (acc ++ option_list (g x)), w)) →
  ∀ acc, fold_each l body acc w = (Ok (acc ++ omap g l), w).
Proof.
  intros Hbody. induction l as [|x l IH]; intros acc; cbn [fold_each omap].
  - unfold ret. by rewrite app_nil_r.
  - rewrite (bind_run _ _ _ _ _ (Hbody acc x)), IH, <- app_assoc.
    simpl. by destruct (g x).
Qed.

Lemma planUploadOperations_exact E (this : SafeSync.t) w files :
  w.(db).(initialized) = true →
  SafeSync.getLocalFiles E this w = (Ok files, w) →
  SafeSync.planUploadOperations E this w = (Ok (omap (upload_for E this w) files), w).
Proof.
  intros Hinit Hfiles. unfold SafeSync.planUploadOperations.
  rewrite (bind_run _ _ _ _ _ Hfiles).
  apply (fold_each_collect files (upload_for E this w) _ w). intros acc x.
  rewrite (bind_run _ _ _ _ _ (getFileState_idle _ _ _ Hinit)).
  unfold upload_for, state_at, try_catch, calculateFileHash, bind.
  destruct (fs_readFile E x w) as [[c|e] w1] eqn:Hread;
    pose proof (fs_readFile_pure _ _ _ _ _ Hread) as ->.
  - unfold ret at 1. cbv beta iota.
    destruct (map_get _ _ _) as [st|]; [|done].
    destruct (bool_decide (E.(sha256) c = st.(localHash))); simpl; unfold ret;
      by rewrite ?app_nil_r.
  - unfold ret. by rewrite app_nil_r.
Qed.

Lemma planDownloadOperations_exact E (this : SafeSync.t) w files :
  w.(db).(initialized) = true →
  MockClaudeClient.listKnowledgeFiles this.(SafeSync.projectId) w = (Ok files, w) →
  SafeSync.planDownloadOperations E this w = (Ok (omap (download_for E this w) files), w).
Proof.
  intros Hinit Hfiles. unfold SafeSync.planDownloadOperations, try_catch.
  rewrite (bind_run _ _ _ _ _ Hfiles).
  rewrite (fold_each_collect files (download_for E this w) _ w); [done|]. intros acc x.
  rewrite (bind_run _ _ _ _ _ (getFileState_idle _ _ _ Hinit)).
  unfold download_for, state_at.
  destruct (map_get _ _ _) as [st|]; [|done].
  destruct (bool_decide (x.(kf_updatedAt) > st.(lastSyncTime))); simpl.
  - by rewrite (bind_run _ _ _ _ _ (fileExists_run E _ w)).
  - unfold ret. by rewrite app_nil_r.
Qed.

Lemma getLocalFiles_Ok E (this : SafeSync.t) w files w' :
  SafeSync.getLocalFiles E this w = (Ok files, w') →
  w' = w ∧ files = walk E this.(SafeSync.localPath) (scanned E this) w.
Proof.
  unfold SafeSync.getLocalFiles, scanDirectory.
  destruct (fs w !! _) as [[f|t]|]; [done| |]; by intros [= <- <-].
Qed.

Lemma uploads_due E (this : SafeSync.t) w files s :
  this.(SafeSync.localPath) ≠ "" →
  SafeSync.getLocalFiles E this w = (Ok files, w) →
  s ∈ shape <$> omap (upload_for E this w) files
  ↔ s.1 = SafeSync.upload ∧ upload_due E this w s.2.
Proof.
  intros Hroot Hfiles. apply getLocalFiles_Ok in Hfiles as [_ ->].
  rewrite list_elem_of_fmap. split.
  - intros (op & -> & Hop). apply list_elem_of_omap in Hop as (x & Hx & Hfor).
    apply elem_of_walk in Hx as (rel & f & -> & Hkeep & Hfs).
    unfold upload_for in Hfor. rewrite path_relative_join in Hfor.
    unfold fs_readFile in Hfor. rewrite resolve_join, Hfs in Hfor by done.
    assert (local_at E this.(SafeSync.localPath) w rel = Some (File f)) as Hloc.
    { unfold local_at. by rewrite resolve_join. }
    unfold upload_due.
    destruct (readable f) eqn:Hread; [|done].
    destruct (state_at _ w rel) as [st|] eqn:Hst.
    + case_bool_decide; [done|]. injection Hfor as <-. simpl.
      split; [done|]. split; [done|]. exists f. by rewrite Hst.
    + injection Hfor as <-. simpl.
      split; [done|]. split; [done|]. exists f. by rewrite Hst.
  - destruct s as [ty p]. simpl. intros [-> (Hscan & f & Hloc & Hread & Hst)].
    assert (path_join this.(SafeSync.localPath) p
            ∈ walk E this.(SafeSync.localPath) (scanned E this) w) as Hin.
    { apply elem_of_walk. exists p, f. split; [done|]. split; [done|].
      unfold local_at in Hloc. by rewrite resolve_join in Hloc. }
    assert (fs_readFile E (path_join this.(SafeSync.localPath) p) w = (Ok f.(content), w))
      as Hrd.
    { unfold fs_readFile. unfold local_at in Hloc. by rewrite Hloc, Hread. }
    destruct (state_at this.(SafeSync.projectId) w p) as [st|] eqn:Hs.
    + eexists. split; [|apply list_elem_of_omap; eexists; split; [exact Hin|]].
      2:{ unfold upload_for. rewrite path_relative_join, Hrd, Hs.
          by rewrite bool_decide_eq_false_2. }
      done.
    + eexists. split; [|apply list_elem_of_omap; eexists; split; [exact Hin|]].
      2:{ unfold upload_for. by rewrite path_relative_join, Hrd, Hs. }
      done.
Qed.

Lemma listKnowledgeFiles_Ok pid w files w' :
  MockClaudeClient.listKnowledgeFiles pid w = (Ok files, w') →
  w' = w ∧ remote_files pid w = files.
Proof.
  unfold MockClaudeClient.listKnowledgeFiles, remote_files.
  destruct (MockClaudeClient.project_files pid w); [|done]. by intros [= <- <-].
Qed.

Lemma downloads_due E (this : SafeSync.t) w files s :
  MockClaudeClient.listKnowledgeFiles this.(SafeSync.projectId) w = (Ok files, w) →
  s ∈ shape <$> omap (download_for E this w) files
  ↔ s.1 = SafeSync.download ∧ download_due this w s.2.
Proof.
  intros Hfiles. apply listKnowledgeFiles_Ok in Hfiles as [_ Hfiles].
  unfold download_due, remote_at. rewrite Hfiles, list_elem_of_fmap. split.
  - intros (op & -> & Hop). apply list_elem_of_omap in Hop as (rf & Hrf & Hfor).
    unfold download_for in Hfor.
    destruct (state_at _ w (kf_path rf)) as [st|] eqn:Hst.
    + case_bool_decide; [|done]. injection Hfor as <-. simpl. split; [done|].
      exists rf. rewrite list_elem_of_filter, Hst. done.
    + injection Hfor as <-. simpl. split; [done|].
      exists rf. rewrite list_elem_of_filter, Hst. done.
  - destruct s as [ty p]. simpl. intros [-> (rf & Hrf & Hst)].
    apply list_elem_of_filter in Hrf as [<- Hrf].
    destruct (state_at this.(SafeSync.projectId) w (kf_path rf)) as [st|] eqn:Hs.
    + eexists. split; [|apply list_elem_of_omap; eexists; split; [exact Hrf|]].
      2:{ unfold download_for. by rewrite Hs, bool_decide_eq_true_2. }
      done.
    + eexists. split; [|apply list_elem_of_omap; eexists; split; [exact Hrf|]].
      2:{ unfold download_for. by rewrite Hs. }
      done.
Qed.

Lemma planUploadOperations_Ok E (this : SafeSync.t) w ups w' :
  w.(db).(initialized) = true →
  SafeSync.planUploadOperations E this w = (Ok ups, w') →
  w' = w ∧ ∃ files, SafeSync.getLocalFiles E this w = (Ok files, w)
                    ∧ ups = omap (upload_for E this w) files.
Proof.
  intros Hinit Hrun. pose proof Hrun as Hrun'.
  unfold SafeSync.planUploadOperations in Hrun'.
  apply bind_Ok in Hrun' as (files & w1 & Hfiles & _).
  destruct (getLocalFiles_Ok _ _ _ _ _ Hfiles) as [-> _].
  rewrite (planUploadOperations_exact _ _ _ _ Hinit Hfiles) in Hrun.
  injection Hrun as <- <-. split; [done|]. by exists files.
Qed.

Lemma planDownloadOperations_Ok E (this : SafeSync.t) w downs w' :
  w.(db).(initialized) = true →
  SafeSync.planDownloadOperations E this w = (Ok downs, w') →
  w' = w ∧ ∃ files,
    MockClaudeClient.listKnowledgeFiles this.(SafeSync.projectId) w = (Ok files, w)
    ∧ downs = omap (download_for E this w) files.
Proof.
  intros Hinit Hrun. pose proof Hrun as Hrun'.
  unfold SafeSync.planDownloadOperations in Hrun'.
  apply try_catch_inv in Hrun' as [(a & Hin & _)|(e & w1 & _ & Hthrow)]; [|done].
  apply bind_Ok in Hin as (files & w1 & Hfiles & _).
  destruct (listKnowledgeFiles_Ok _ _ _ _ Hfiles) as [-> _].
  rewrite (planDownloadOperations_exact _ _ _ _ Hinit Hfiles) in Hrun.
  injection Hrun as <- <-. split; [done|]. by exists files.
Qed.

Lemma planOperations_shapes E (this : SafeSync.t) result w r' w' :
  this.(SafeSync.localPath) ≠ "" →
  w.(db).(initialized) = true →
  SafeSync.planOperations E this result w = (Ok r', w') →
  w' = w ∧
  (∀ s, s ∈ shape <$> r'.(SafeSync.operations) ↔ plan_due E this w s) ∧
  r'.(SafeSync.validationResult) = result.(SafeSync.validationResult) ∧
  r'.(SafeSync.errors) = result.(SafeSync.errors) ∧
  (uploads_on this → ∃ files, SafeSync.getLocalFiles E this w = (Ok files, w)) ∧
  (downloads_on this → ∃ files,
     MockClaudeClient.listKnowledgeFiles this.(SafeSync.projectId) w = (Ok files, w)).
Proof.
  intros Hroot Hinit Hrun. unfold SafeSync.planOperations in Hrun.
  apply bind_Ok in Hrun as (ups & w1 & Hups & Hrun).
  apply bind_Ok in Hrun as (downs & w2 & Hdowns & Hrun).
  injection Hrun as <- <-. simpl.
  assert (w1 = w ∧ (∀ s, s ∈ shape <$> ups ↔
                         s.1 = SafeSync.upload ∧ uploads_on this ∧ upload_due E this w s.2)
          ∧ (uploads_on this → ∃ files, SafeSync.getLocalFiles E this w = (Ok files, w)))
    as (-> & Hu & Hscan).
  { case_decide_in Hups; fold (uploads_on this) in *.
    - apply planUploadOperations_Ok in Hups as (-> & files & Hfiles & ->); [|done].
      split; [done|]. split; [|by exists files].
      intros s. rewrite (uploads_due _ _ _ _ _ Hroot Hfiles). tauto.
    - injection Hups as <- <-. split; [done|]. split; [|done].
      intros s. rewrite fmap_nil, elem_of_nil. tauto. }
  assert (w2 = w ∧ (∀ s, s ∈ shape <$> downs ↔
                         s.1 = SafeSync.download ∧ downloads_on this ∧ download_due this w s.2)
          ∧ (downloads_on this → ∃ files,
               MockClaudeClient.listKnowledgeFiles this.(SafeSync.projectId) w
               = (Ok files, w)))
    as (-> & Hd & Hlist).
  { case_decide_in Hdowns; fold (downloads_on this) in *.
    - apply planDownloadOperations_Ok in Hdowns as (-> & files & Hfiles & ->); [|done].
      split; [done|]. split; [|by exists files].
      intros s. rewrite (downloads_due _ _ _ _ _ Hfiles). tauto.
    - injection Hdowns as <- <-. split; [done|]. split; [|done].
      intros s. rewrite fmap_nil, elem_of_nil. tauto. }
  split; [done|]. split; [|done].
  intros s. rewrite fmap_app, elem_of_app, Hu, Hd. unfold plan_due.
  destruct s as [[] p]; simpl; split; try tauto; intros [[? ?]|[? ?]]; done.
Qed.

(** *** The conflict policy as a filter *)

Lemma survives_nil policy s : survives policy [] s.
Proof. destruct policy; simpl; try done; by intros [_ ?%elem_of_nil] || by intros ?%elem_of_nil. Qed.

Lemma survives_cons policy p conflicted s :
  survives policy (p :: conflicted) s ↔ survives policy [p] s ∧ survives policy conflicted s.
Proof.
  assert (s.2 ∈ p :: conflicted ↔ s.2 ∈ [p] ∨ s.2 ∈ conflicted) as Hcons.
  { by rewrite elem_of_cons, list_elem_of_singleton. }
  destruct policy; simpl; tauto.
Qed.

Lemma require_backup_shapes path ops :
  shape <$> SafeSync.require_backup path ops = shape <$> ops.
Proof.
  induction ops as [|op ops IH]; [done|]. cbn [SafeSync.require_backup].
  case_bool_decide; [done|]. by rewrite !fmap_cons, IH.
Qed.

Lemma handleConflict_shapes policy r c s :
  s ∈ shape <$> (SafeSync.handleConflict policy r c).(SafeSync.operations)
  ↔ s ∈ shape <$> r.(SafeSync.operations)
    ∧ survives policy [c.(SyncValidator.filePath)] s.
Proof.
  unfold SafeSync.handleConflict.
  destruct policy; simpl; rewrite ?require_backup_shapes; [| | | |tauto];
    rewrite !list_elem_of_fmap; setoid_rewrite list_elem_of_filter;
    setoid_rewrite list_elem_of_singleton.
  - split.
    + intros (op & -> & Hp & Hin). split; [by exists op|done].
    + intros [(op & -> & Hin) Hp]. by exists op.
  - split.
    + intros (op & -> & Hp & Hin). split; [by exists op|done].
    + intros [(op & -> & Hin) Hp]. by exists op.
  - split.
    + intros (op & -> & Hp & Hin). split; [by exists op|done].
    + intros [(op & -> & Hin) Hp]. by exists op.
  - split.
    + intros (op & -> & Hp & Hin). split; [by exists op|done].
    + intros [(op & -> & Hin) Hp]. by exists op.
Qed.

Lemma handleConflicts_shapes (this : SafeSync.t) cs r s :
  s ∈ shape <$> (SafeSync.handleConflicts this cs r).(SafeSync.operations)
  ↔ s ∈ shape <$> r.(SafeSync.operations)
    ∧ survives this.(SafeSync.options).(SafeSync.conflictResolution)
        (SyncValidator.filePath <$> cs) s.
Proof.
  unfold SafeSync.handleConflicts. revert r.
  induction cs as [|c cs IH]; intros r; cbn [foldl].
  - pose proof (survives_nil this.(SafeSync.options).(SafeSync.conflictResolution) s).
    rewrite fmap_nil. tauto.
  - rewrite IH, handleConflict_shapes, fmap_cons, (survives_cons _ _ (_ <$> cs)). tauto.
Qed.

Lemma handleConflicts_errors (this : SafeSync.t) cs r :
  (SafeSync.handleConflicts this cs r).(SafeSync.errors) = r.(SafeSync.errors).
Proof.
  unfold SafeSync.handleConflicts. revert r.
  induction cs as [|c cs IH]; intros r; cbn [foldl]; [done|]. rewrite IH.
  unfold SafeSync.handleConflict. by destruct (SafeSync.conflictResolution _).
Qed.

Lemma planAndResolve_shapes E (this : SafeSync.t) result w planned w' :
  this.(SafeSync.localPath) ≠ "" →
  w.(db).(initialized) = true →
  SafeSync.planAndResolve E this result w = (Ok planned, w') →
  w' = w ∧
  (∀ s, s ∈ shape <$> planned.(SafeSync.operations)
        ↔ plan_due E this w s
          ∧ survives this.(SafeSync.options).(SafeSync.conflictResolution)
              (conflict_paths result) s) ∧
  planned.(SafeSync.errors) = result.(SafeSync.errors) ∧
  (uploads_on this → ∃ files, SafeSync.getLocalFiles E this w = (Ok files, w)) ∧
  (downloads_on this → ∃ files,
     MockClaudeClient.listKnowledgeFiles this.(SafeSync.projectId) w = (Ok files, w)).
Proof.
  intros Hroot Hinit Hrun. unfold SafeSync.planAndResolve in Hrun.
  apply bind_Ok in Hrun as (r' & w1 & Hplan & Hrun).
  apply planOperations_shapes in Hplan as (-> & Hshapes & Hv & He & Hscan & Hlist);
    [|done..].
  unfold conflict_paths. rewrite <- Hv.
  destruct (SafeSync.validationResult r') as [v|].
  - case_bool_decide as Hlen; injection Hrun as <- <-.
    + split; [done|]. split; [|by rewrite handleConflicts_errors].
      intros s. by rewrite handleConflicts_shapes, Hshapes.
    + split; [done|]. split; [|done].
      destruct (SyncValidator.conflicts v); [|simpl in Hlen; lia].
      intros s. rewrite Hshapes, fmap_nil.
      pose proof (survives_nil this.(SafeSync.options).(SafeSync.conflictResolution) s).
      tauto.
  - injection Hrun as <- <-. split; [done|]. split; [|done].
    intros s. rewrite Hshapes.
    pose proof (survives_nil this.(SafeSync.options).(SafeSync.conflictResolution) s).
    tauto.
Qed.

(** *** The conflicts of the validation, path by path *)

Lemma fold_each_paths {A} (l : list A) (paths : A → list string)
  (body : SyncValidator.Findings → A → M SyncValidator.Findings) w :
  (∀ f x, ∃ f', body f x w = (Ok f', w) ∧ found_paths f' = found_paths f ++ paths x) →
  ∀ f, ∃ f', fold_each l body f w = (Ok f', w)
             ∧ found_paths f' = found_paths f ++ concat (paths <$> l).
Proof.
  intros Hbody. induction l as [|x l IH]; intros f; cbn [fold_each].
  - exists f. split; [done|]. simpl. by rewrite app_nil_r.
  - destruct (Hbody f x) as (f1 & Hrun & Hf1). rewrite (bind_run _ _ _ _ _ Hrun).
    destruct (IH f1) as (f' & Hrun' & Hf'). exists f'. split; [done|].
    rewrite Hf', Hf1, fmap_cons. simpl. by rewrite app_assoc.
Qed.

Lemma inspectLocalFile_paths E (this : SyncValidator.t) w f x :
  w.(db).(initialized) = true →
  ∃ f', try_catch (SyncValidator.inspectLocalFile E this f x)
          (λ _, ret (SyncValidator.push_issue
             {| SyncValidator.type := SyncValidator.warning;
                SyncValidator.code := "FILE_READ_ERROR";
                SyncValidator.message :=
                  "Cannot read file: " +:+ path_relative this.(SyncValidator.localPath) x;
                SyncValidator.issue_filePath := Some x;
                SyncValidator.suggestion := Some "Check file permissions" |} f)) w
        = (Ok f', w)
        ∧ found_paths f' = found_paths f ++ flagged_local E this w x.
Proof.
  intros Hinit. unfold SyncValidator.inspectLocalFile, flagged_local, state_at, try_catch.
  rewrite (bind_run _ _ _ _ _ (getFileState_idle _ _ _ Hinit)).
  destruct (map_get _ _ _) as [st|].
  2:{ eexists. split; [done|]. unfold found_paths. simpl. by rewrite app_nil_r. }
  unfold calculateFileHash, bind.
  destruct (fs_readFile E x w) as [[c|e] w1] eqn:Hread;
    pose proof (fs_readFile_pure _ _ _ _ _ Hread) as ->.
  2:{ eexists. split; [done|]. unfold found_paths. simpl. by rewrite app_nil_r. }
  unfold ret at 1. cbv beta iota.
  destruct (fs_stat E x w) as [[n|e] w1] eqn:Hstat;
    pose proof (fs_stat_pure _ _ _ _ _ Hstat) as ->.
  - destruct (decide (E.(sha256) c = st.(localHash))) as [Heq|Hne].
    + rewrite bool_decide_eq_true_2 by done. simpl.
      rewrite bool_decide_eq_false_2 by tauto.
      eexists. split; [done|]. unfold found_paths. simpl. by rewrite app_nil_r.
    + rewrite (bool_decide_eq_false_2 (E.(sha256) c = _)) by done. simpl. rewrite Hstat.
      destruct (SyncState.remoteMtime st) as [rt|].
      * destruct (decide (node_mtime n > SyncState.lastSyncTime st)) as [Hgt|Hle].
        -- rewrite bool_decide_eq_true_2 by done.
           rewrite bool_decide_eq_true_2 by (split; [done|]; split; [by eexists|done]).
           eexists. split; [done|]. unfold found_paths. simpl. by rewrite fmap_app.
        -- rewrite bool_decide_eq_false_2 by done.
           rewrite bool_decide_eq_false_2 by tauto.
           eexists. split; [done|]. unfold found_paths. simpl. by rewrite app_nil_r.
      * rewrite bool_decide_eq_false_2 by (intros (_ & [? [=]] & _)).
        eexists. split; [done|]. unfold found_paths. simpl. by rewrite app_nil_r.
  - destruct (decide (E.(sha256) c = st.(localHash))) as [Heq|Hne].
    + rewrite bool_decide_eq_true_2 by done. simpl.
      eexists. split; [done|]. unfold found_paths. simpl. by rewrite app_nil_r.
    + rewrite (bool_decide_eq_false_2 (E.(sha256) c = _)) by done. simpl. rewrite Hstat.
      eexists. split; [done|]. unfold found_paths. simpl. by rewrite app_nil_r.
Qed.

Lemma validateLocalFiles_paths E (this : SyncValidator.t) f w :
  w.(db).(initialized) = true →
  ∃ f', SyncValidator.validateLocalFiles E this f w = (Ok f', w)
        ∧ found_paths f' = found_paths f ++ local_part E this w.
Proof.
  intros Hinit. unfold SyncValidator.validateLocalFiles, local_part.
  unfold try_catch at 1.
  destruct (SyncValidator.getLocalFiles E this w) as [[files|e] w1] eqn:Hfiles;
    pose proof (scanDirectory_pure _ _ _ _ _ _ Hfiles) as ->.
  - rewrite (bind_run _ _ _ _ _ Hfiles).
    match goal with
    | |- context [fold_each files ?b ?s w] =>
        destruct (fold_each_paths files (flagged_local E this w) b w
                    (λ f x, inspectLocalFile_paths E this w f x Hinit) s)
          as (f' & Hrun & Hf')
    end.
    rewrite Hrun. by exists f'.
  - unfold bind. rewrite Hfiles. eexists. split; [done|].
    unfold found_paths. simpl. by rewrite app_nil_r.
Qed.

Lemma inspectRemoteFile_paths E (this : SyncValidator.t) w f rf :
  w.(db).(initialized) = true →
  ∃ f', SyncValidator.inspectRemoteFile E this f rf w = (Ok f', w)
        ∧ found_paths f' = found_paths f ++ flagged_remote this w rf.
Proof.
  intros Hinit. unfold SyncValidator.inspectRemoteFile, flagged_remote, state_at.
  rewrite (bind_run _ _ _ _ _ (getFileState_idle _ _ _ Hinit)).
  destruct (map_get _ _ _) as [st|].
  2:{ eexists. split; [done|]. unfold found_paths. simpl. by rewrite app_nil_r. }
  destruct (bool_decide (kf_updatedAt rf > SyncState.lastSyncTime st)).
  2:{ eexists. split; [done|]. unfold found_paths. simpl. by rewrite app_nil_r. }
  unfold try_catch, bind.
  destruct (fs_stat E _ w) as [[n|e] w1] eqn:Hstat;
    pose proof (fs_stat_pure _ _ _ _ _ Hstat) as ->.
  - destruct (bool_decide _); eexists; (split; [done|]); unfold found_paths; simpl;
      by rewrite fmap_app.
  - eexists. split; [done|]. unfold found_paths. simpl. by rewrite fmap_app.
Qed.

Lemma validateRemoteFiles_paths E (this : SyncValidator.t) f w :
  w.(db).(initialized) = true →
  ∃ f', SyncValidator.validateRemoteFiles E this f w = (Ok f', w)
        ∧ found_paths f' = found_paths f ++ remote_part this w.
Proof.
  intros Hinit. unfold SyncValidator.validateRemoteFiles, remote_part, try_catch.
  destruct (MockClaudeClient.listKnowledgeFiles this.(SyncValidator.projectId) w)
    as [[files|e] w1] eqn:Hfiles.
  - destruct (listKnowledgeFiles_Ok _ _ _ _ Hfiles) as [-> ->].
    rewrite (bind_run _ _ _ _ _ Hfiles).
    match goal with
    | |- context [fold_each files ?b ?s w] =>
        destruct (fold_each_paths files (flagged_remote this w) b w
                    (λ f x, inspectRemoteFile_paths E this w f x Hinit) s)
          as (f' & Hrun & Hf')
    end.
    rewrite Hrun. by exists f'.
  - pose proof (listKnowledgeFiles_pure _ _ _ _ Hfiles) as ->.
    unfold bind. rewrite Hfiles. eexists. split; [done|].
    assert (remote_files this.(SyncValidator.projectId) w = []) as ->.
    { unfold remote_files. unfold MockClaudeClient.listKnowledgeFiles in Hfiles.
      by destruct (MockClaudeClient.project_files _ w). }
    unfold found_paths. simpl. by rewrite app_nil_r.
Qed.

Lemma listFileStates_idle pid w :
  w.(db).(initialized) = true →
  JsonSyncStateDatabase.listFileStates pid w
  = (Ok (filter (λ entry, entry.(SyncState.projectId) = pid) w.(db).(syncStates)), w).
Proof.
  intros Hinit. unfold JsonSyncStateDatabase.listFileStates.
  by rewrite (bind_run _ _ _ _ _ (initialize_idle _ Hinit)).
Qed.

Lemma detectConflicts_paths E (this : SyncValidator.t) f w r w' :
  w.(db).(initialized) = true →
  SyncValidator.detectConflicts E this f w = (r, w') →
  w' = w ∧
  match r with
  | Ok f' => ∃ absent, found_paths f' = found_paths f ++ absent
                       ∧ ∀ p, p ∈ absent →
                              local_at E this.(SyncValidator.localPath) w p = None
                              ∧ is_Some (state_at this.(SyncValidator.projectId) w p)
  | Throw _ => True
  end.
Proof.
  intros Hinit. unfold SyncValidator.detectConflicts.
  rewrite (bind_run _ _ _ _ _ (listFileStates_idle _ _ Hinit)). unfold bind at 1.
  destruct (MockClaudeClient.listKnowledgeFiles this.(SyncValidator.projectId) w)
    as [[files|e] w1] eqn:Hfiles;
    pose proof (listKnowledgeFiles_pure _ _ _ _ Hfiles) as ->.
  2:{ by intros [= <- <-]. }
  set (states := filter _ _).
  match goal with
  | |- context [fold_each states ?b f w] =>
      assert (∀ f0 entry, ∃ f', b f0 entry w = (Ok f', w)
                ∧ found_paths f' = found_paths f0
                    ++ flagged_absent E this w (kf_path <$> files) entry) as Hbody
  end.
  { intros f0 entry. cbv beta.
    unfold flagged_absent, local_at, try_catch, fs_access, bind, fs_stat.
    destruct (fs w !! _) as [n|].
    - rewrite (bool_decide_eq_true_2 (is_Some _)) by by eexists.
      eexists. split; [done|]. by rewrite app_nil_r.
    - rewrite (bool_decide_eq_false_2 (is_Some _)) by (by intros [? ?]).
      destruct (bool_decide _); eexists; (split; [done|]); unfold found_paths; simpl.
      + by rewrite fmap_app.
      + by rewrite app_nil_r. }
  destruct (fold_each_paths states _ _ w Hbody f) as (f' & Hrun & Hf').
  rewrite Hrun. intros [= <- <-]. split; [done|].
  eexists. split; [exact Hf'|]. intros p Hp.
  apply elem_of_concat in Hp as (l & Hp & Hl).
  apply list_elem_of_fmap in Hl as (entry & -> & Hentry).
  unfold flagged_absent in Hp. case_bool_decide as Hloc; [by apply elem_of_nil in Hp|].
  case_bool_decide; [|by apply elem_of_nil in Hp].
  apply list_elem_of_singleton in Hp as ->. split.
  - destruct (local_at _ _ _ _); [|done]. destruct Hloc. by eexists.
  - apply list_elem_of_filter in Hentry as [Hpid Hentry].
    unfold state_at. rewrite <- Hpid.
    apply (map_get_elem JsonSyncStateDatabase.stateKey entry _ Hentry).
Qed.

Lemma checks_in_order_step step rest f w f' w' :
  step f w = (Ok f', w') →
  SyncValidator.checks_in_order (step :: rest) f w = SyncValidator.checks_in_order rest f' w'.
Proof. cbn [SyncValidator.checks_in_order]. by intros ->. Qed.

Lemma enabled_if_paths (b : bool) step w added :
  (∀ f, ∃ f', step f w = (Ok f', w) ∧ found_paths f' = found_paths f ++ added) →
  ∀ f, ∃ f', SyncValidator.enabled_if b step f w = (Ok f', w)
             ∧ found_paths f' = found_paths f ++ (if b then added else []).
Proof.
  intros Hstep f. destruct b; simpl; [done|]. exists f. by rewrite app_nil_r.
Qed.

Lemma doCheckDiskSpace_paths w f :
  ∃ f', SyncValidator.doCheckDiskSpace f w = (Ok f', w) ∧ found_paths f' = found_paths f ++ [].
Proof.
  unfold SyncValidator.doCheckDiskSpace, bind, get_world. rewrite app_nil_r.
  destruct (availableBytes (host w)); [|by eexists].
  destruct (bool_decide _); [by eexists|]. destruct (bool_decide _); by eexists.
Qed.

Lemma doCheckPermissions_paths this w f :
  ∃ f', SyncValidator.doCheckPermissions this f w = (Ok f', w)
        ∧ found_paths f' = found_paths f ++ [].
Proof.
  unfold SyncValidator.doCheckPermissions, bind, get_world. rewrite app_nil_r.
  destruct (_ && _); by eexists.
Qed.

Lemma doCheckGitStatus_paths w f :
  ∃ f', SyncValidator.doCheckGitStatus f w = (Ok f', w) ∧ found_paths f' = found_paths f ++ [].
Proof.
  unfold SyncValidator.doCheckGitStatus, bind, get_world. rewrite app_nil_r.
  destruct (gitStatus (host w)); by eexists.
Qed.

Lemma doCheckNetworkConnectivity_paths w f :
  ∃ f', SyncValidator.doCheckNetworkConnectivity f w = (Ok f', w)
        ∧ found_paths f' = found_paths f ++ [].
Proof. exists f. split; [done|]. by rewrite app_nil_r. Qed.

(** The paths in conflict that [validate] reports: those of the local
    files, then those of the remote files, then tracked paths with nothing
    at them locally. *)
Lemma validate_paths E (this : SyncValidator.t) direction w v w' :
  w.(db).(initialized) = true →
  SyncValidator.validate E this direction w = (Ok v, w') →
  ∃ absent,
    SyncValidator.filePath <$> v.(SyncValidator.conflicts)
    = (if bool_decide (direction = SyncState.upload ∨ direction = both)
       then local_part E this w else [])
      ++ (if bool_decide (direction = SyncState.download ∨ direction = both)
          then remote_part this w else [])
      ++ absent
    ∧ ∀ p, p ∈ absent → local_at E this.(SyncValidator.localPath) w p = None
                        ∧ is_Some (state_at this.(SyncValidator.projectId) w p).
Proof.
  intros Hinit Hrun. unfold SyncValidator.validate in Hrun.
  apply bind_Ok in Hrun as (f & w1 & Hchecks & Hrun). injection Hrun as <- <-.
  cbn [SyncValidator.conflicts]. fold (found_paths f).
  destruct (enabled_if_paths (SyncValidator.checkDiskSpace (SyncValidator.options this))
              _ w [] (doCheckDiskSpace_paths w) no_findings) as (f1 & H1 & P1).
  destruct (enabled_if_paths (SyncValidator.checkPermissions (SyncValidator.options this))
              _ w [] (doCheckPermissions_paths this w) f1) as (f2 & H2 & P2).
  destruct (enabled_if_paths (SyncValidator.checkGitStatus (SyncValidator.options this))
              _ w [] (doCheckGitStatus_paths w) f2) as (f3 & H3 & P3).
  destruct (enabled_if_paths
              (SyncValidator.checkNetworkConnectivity (SyncValidator.options this))
              _ w [] (doCheckNetworkConnectivity_paths w) f3) as (f4 & H4 & P4).
  destruct (enabled_if_paths (bool_decide (direction = SyncState.upload ∨ direction = both))
              _ w _ (λ f, validateLocalFiles_paths E this f w Hinit) f4) as (f5 & H5 & P5).
  destruct (enabled_if_paths (bool_decide (direction = SyncState.download ∨ direction = both))
              _ w _ (λ f, validateRemoteFiles_paths E this f w Hinit) f5) as (f6 & H6 & P6).
  fold no_findings in Hchecks.
  rewrite (checks_in_order_step _ _ _ _ _ _ H1), (checks_in_order_step _ _ _ _ _ _ H2),
    (checks_in_order_step _ _ _ _ _ _ H3), (checks_in_order_step _ _ _ _ _ _ H4),
    (checks_in_order_step _ _ _ _ _ _ H5), (checks_in_order_step _ _ _ _ _ _ H6) in Hchecks.
  assert (found_paths f6 =
          (if bool_decide (direction = SyncState.upload ∨ direction = both)
           then local_part E this w else [])
          ++ (if bool_decide (direction = SyncState.download ∨ direction = both)
              then remote_part this w else [])) as P.
  { rewrite P6, P5, P4, P3, P2, P1.
    destruct (SyncValidator.checkDiskSpace _), (SyncValidator.checkPermissions _),
      (SyncValidator.checkGitStatus _), (SyncValidator.checkNetworkConnectivity _);
      by rewrite !app_nil_r. }
  cbn [SyncValidator.checks_in_order] in Hchecks.
  destruct (bool_decide (direction = both)); simpl in Hchecks.
  - destruct (SyncValidator.detectConflicts E this f6 w) as [[f7|e] w2] eqn:Hdc;
      destruct (detectConflicts_paths _ _ _ _ _ _ Hinit Hdc) as [-> Hf7].
    + injection Hchecks as <- <-. destruct Hf7 as (absent & Hf7 & Habsent).
      exists absent. split; [|done]. by rewrite Hf7, P, app_assoc.
    + injection Hchecks as <- <-. exists []. split; [|by intros p ?%elem_of_nil].
      unfold found_paths in *. simpl. by rewrite P, app_nil_r.
  - injection Hchecks as <- <-. exists []. split; [|by intros p ?%elem_of_nil].
    by rewrite P, app_nil_r.
Qed.

Lemma elem_of_flagged_local E (this : SyncValidator.t) w rel f p :
  this.(SyncValidator.localPath) ≠ "" →
  local_at E this.(SyncValidator.localPath) w rel = Some (File f) →
  p ∈ flagged_local E this w (path_join this.(SyncValidator.localPath) rel)
  ↔ p = rel ∧ f.(readable) = true ∧
    ∃ st, state_at this.(SyncValidator.projectId) w rel = Some st ∧
          E.(sha256) f.(content) ≠ st.(localHash) ∧
          is_Some st.(SyncState.remoteMtime) ∧
          f.(mtime) > st.(SyncState.lastSyncTime).
Proof.
  intros Hroot Hloc. unfold flagged_local. rewrite path_relative_join.
  unfold fs_readFile, fs_stat. unfold local_at in Hloc. rewrite Hloc.
  destruct (state_at _ w rel) as [st|].
  2:{ rewrite elem_of_nil. split; [done|]. by intros (_ & _ & st & [=] & _). }
  destruct (readable f).
  2:{ rewrite elem_of_nil. split; [done|]. by intros (_ & [=] & _). }
  simpl. case_bool_decide as Hc.
  - rewrite list_elem_of_singleton. split; [|by intros [-> _]].
    intros ->. split; [done|]. split; [done|]. by exists st.
  - rewrite elem_of_nil. split; [done|].
    intros (_ & _ & st' & Hst' & ?). injection Hst' as ->. by destruct Hc.
Qed.


Lemma conflict_local_part E (this : SyncValidator.t) w p files :
  this.(SyncValidator.localPath) ≠ "" →
  scanDirectory E this.(SyncValidator.localPath) (λ _, true) w = (Ok files, w) →
  local_conflict E this w p → p ∈ local_part E this w.
Proof.
  intros Hroot Hscan (Hkeep & f & st & Hloc & Hread & Hst & Hhash & Hrm & Hnew).
  unfold local_part, SyncValidator.getLocalFiles. unfold scanDirectory in *.
  destruct (fs w !! resolve E _) as [[f0|t]|]; [done| |].
  - apply elem_of_concat. eexists. split; [|apply list_elem_of_fmap; eexists; split; [done|]].
    2:{ apply elem_of_walk. exists p, f. split; [done|]. split; [done|].
        unfold local_at in Hloc. by rewrite resolve_join in Hloc. }
    apply (elem_of_flagged_local _ _ _ _ _ _ Hroot Hloc).
    split; [done|]. split; [done|]. by exists st.
  - apply elem_of_concat. eexists. split; [|apply list_elem_of_fmap; eexists; split; [done|]].
    2:{ apply elem_of_walk. exists p, f. split; [done|]. split; [done|].
        unfold local_at in Hloc. by rewrite resolve_join in Hloc. }
    apply (elem_of_flagged_local _ _ _ _ _ _ Hroot Hloc).
    split; [done|]. split; [done|]. by exists st.
Qed.

Lemma elem_of_remote_part (this : SyncValidator.t) w p :
  p ∈ remote_part this w ↔ remote_conflict this.(SyncValidator.projectId) w p.
Proof.
  unfold remote_part, remote_conflict, remote_at. rewrite elem_of_concat. split.
  - intros (l & Hp & Hl). apply list_elem_of_fmap in Hl as (rf & -> & Hrf).
    unfold flagged_remote in Hp.
    destruct (state_at _ w (kf_path rf)) as [st|] eqn:Hst; [|by apply elem_of_nil in Hp].
    case_bool_decide; [|by apply elem_of_nil in Hp].
    apply list_elem_of_singleton in Hp as ->.
    exists rf, st. by rewrite list_elem_of_filter.
  - intros (rf & st & [<- Hrf]%list_elem_of_filter & Hst & Hnew).
    exists (flagged_remote this w rf). split; [|apply list_elem_of_fmap; by exists rf].
    unfold flagged_remote. rewrite Hst, bool_decide_eq_true_2 by done.
    by apply list_elem_of_singleton.
Qed.

(** *** What a run leaves behind *)

Lemma same_view_refl E this w p : same_view E this w w p.
Proof. done. Qed.




Section backups.
Context (E : Env) (this : SafeSync.t) (w0 : World).
Context (tick_forward : ∀ t, t ≤ E.(tick) t).
Context (backups_apart : ∀ name rel,
  resolve E (path_join this.(SafeSync.backupManager).(BackupManager.backupBaseDir) name)
  ≠ resolve E (path_join this.(SafeSync.localPath) rel)).

Lemma keeps_unseen_initialize : keeps (unseen E this w0) JsonSyncStateDatabase.initialize.
Proof.
  intros w r w' HI. rewrite (initialize_idle w) by apply HI. by intros [= <- <-].
Qed.

Lemma keeps_unseen_new_Date : keeps (unseen E this w0) (new_Date E).
Proof.
  intros w r w' (Hinit & (Hb & Hstamp & Hid) & Hs & Hr & Hl) [= <- <-].
  split; [done|]. split; [|done]. split; [done|]. split; [|done].
  intros rf Hrf. simpl. specialize (Hstamp rf Hrf). specialize (tick_forward (clock w)). lia.
Qed.

Lemma keeps_unseen_randomBytes : keeps (unseen E this w0) (randomBytes E).
Proof.
  intros w r w' (Hinit & (Hb & Hstamp & Hid) & Hs & Hr & Hl) [= <- <-].
  split; [done|]. split; [|done]. split; [done|]. split; [done|].
  intros rf n Hrf Hn. simpl in Hn. apply (Hid rf n Hrf). lia.
Qed.

Lemma keeps_unseen_write_backup name c :
  keeps (unseen E this w0)
    (write_node E (path_join this.(SafeSync.backupManager).(BackupManager.backupBaseDir) name) c).
Proof.
  intros w r w' (Hinit & (Hb & Hstamp & Hid) & Hs & Hr & Hl). unfold write_node.
  destruct (fs w !! _) as [[f|t]|]; intros [= <- <-]; [|done|].
  - split; [done|]. split; [done|]. split; [done|]. split; [done|].
    intros rel. rewrite <- Hl. unfold local_at. simpl.
    apply lookup_insert_ne. apply backups_apart.
  - split; [done|]. split; [done|]. split; [done|]. split; [done|].
    intros rel. rewrite <- Hl. unfold local_at. simpl.
    apply lookup_insert_ne. apply backups_apart.
Qed.

Lemma keeps_unseen_unlink_backup name :
  keeps (unseen E this w0)
    (fs_unlink E (path_join this.(SafeSync.backupManager).(BackupManager.backupBaseDir) name)).
Proof.
  intros w r w' (Hinit & (Hb & Hstamp & Hid) & Hs & Hr & Hl). unfold fs_unlink.
  destruct (fs w !! _) as [[f|t]|]; intros [= <- <-]; [|done..].
  split; [done|]. split; [done|]. split; [done|]. split; [done|].
  intros rel. rewrite <- Hl. unfold local_at. simpl.
  apply lookup_delete_ne. apply backups_apart.
Qed.

Lemma keeps_unseen_db_createBackup id original name created hash project reason :
  keeps (unseen E this w0)
    (JsonSyncStateDatabase.createBackup
       {| backupId := id; originalPath := original;
          backupPath :=
            path_join this.(SafeSync.backupManager).(BackupManager.backupBaseDir) name;
          createdAt := created; fileHash := hash; backupProjectId := project;
          SyncState.reason := reason |}).
Proof.
  intros w r w' (Hinit & (Hb & Hstamp & Hid) & Hs & Hr & Hl).
  rewrite (db_createBackup_run _ w Hinit). intros [= <- <-].
  split; [done|]. split; [|done]. split; [|done].
  intros b rel Hin. simpl in Hin. apply elem_of_map_set_1 in Hin as [->|Hin].
  - apply backups_apart.
  - by apply Hb.
Qed.

Lemma keeps_unseen_deleteBackup id :
  keeps (unseen E this w0) (JsonSyncStateDatabase.deleteBackup E id).
Proof.
  intros w r w' (Hinit & (Hb & Hstamp & Hid) & Hs & Hr & Hl) Hrun.
  destruct (deleteBackup_spec E id w Hinit)
    as (w1 & Hrun1 & Hbackups & (Hs1 & Hi1 & Hr1 & Hc1 & He1 & _) & Hfs).
  rewrite Hrun1 in Hrun. injection Hrun as <- <-.
  split; [congruence|]. split; [|split; [congruence|split; [congruence|]]].
  - split; [|split].
    + intros b rel Hin. rewrite Hbackups in Hin. unfold map_delete in Hin.
      apply list_elem_of_filter in Hin as [_ Hin]. by apply Hb.
    + intros rf. unfold remote_files, MockClaudeClient.project_files.
      rewrite Hr1, Hc1. apply Hstamp.
    + intros rf n. unfold remote_files, MockClaudeClient.project_files.
      rewrite Hr1, He1. apply Hid.
  - intros rel. rewrite <- Hl. unfold local_at. apply Hfs.
    intros b Hin _. by apply Hb.
Qed.

#[local] Hint Resolve keeps_unseen_initialize keeps_unseen_new_Date keeps_unseen_randomBytes
  keeps_unseen_write_backup keeps_unseen_unlink_backup keeps_unseen_deleteBackup
  keeps_unseen_db_createBackup : keeps.


End backups.

(** *** One operation *)

Lemma uploadKnowledgeFile_Ok E pid path text w file w' :
  MockClaudeClient.uploadKnowledgeFile E pid path text w = (Ok file, w') →
  ∃ files,
    MockClaudeClient.project_files pid w = Some files ∧
    file = {| kf_id := "file_" +:+ E.(randomHex) w.(entropy);
              kf_path := path;
              kf_sizeBytes := Z.of_nat (String.length text);
              kf_createdAt := w.(clock);
              kf_updatedAt := w.(clock);
              kf_content := Some text |} ∧
    w' = set_remote (map_set fst (pid, map_set kf_id file files) w.(remote))
           (set_entropy (S w.(entropy)) (set_clock (E.(tick) w.(clock)) w)).
Proof.
  unfold MockClaudeClient.uploadKnowledgeFile, bind, get_world.
  destruct (MockClaudeClient.project_files pid w) as [files|] eqn:Hfiles; [|done].
  unfold new_Date, randomBytes, modify, ret. simpl.
  change (MockClaudeClient.project_files pid
            (set_entropy (S (entropy w)) (set_clock (tick E (clock w)) w)))
    with (MockClaudeClient.project_files pid w).
  rewrite Hfiles. intros [= <- <-]. by exists files.
Qed.

Lemma saveFileState_run entry w :
  w.(db).(initialized) = true →
  JsonSyncStateDatabase.saveFileState entry w
  = (Ok tt, set_db (JsonSyncStateDatabase.saved
                      (JsonSyncStateDatabase.set_syncStates
                         (map_set JsonSyncStateDatabase.stateKey entry w.(db).(syncStates))
                         w.(db))) w).
Proof.
  intros Hinit. unfold JsonSyncStateDatabase.saveFileState.
  by rewrite (bind_run _ _ _ _ _ (initialize_idle _ Hinit)).
Qed.

Lemma remote_files_set pid files (remote0 : list (string * list ClaudeKnowledgeFile)) w :
  remote_files pid (set_remote (map_set fst (pid, files) remote0) w) = files.
Proof.
  unfold remote_files, MockClaudeClient.project_files. simpl.
  by rewrite (map_get_map_set_eq fst (pid, files)).
Qed.


Section execution.
Context (E : Env) (this : SafeSync.t).
Context (tick_forward : ∀ t, t ≤ E.(tick) t).
Context (hex_inj : Inj (=) (=) E.(randomHex)).
Context (root_named : this.(SafeSync.localPath) ≠ "").
Context (backups_apart : ∀ name rel,
  resolve E (path_join this.(SafeSync.backupManager).(BackupManager.backupBaseDir) name)
  ≠ resolve E (path_join this.(SafeSync.localPath) rel)).








End execution.

(** *** The second run *)





Lemma same_view_closed E this w p : same_view E this w (closed w) p.
Proof. done. Qed.

(** What the first step of [sync] hands on. *)
Lemma preSyncValidation_facts E (this : SafeSync.t) r w checked w' :
  SafeSync.preSyncValidation E this r w = (Ok checked, w') →
  match checked with
  | inl x => x.(SafeSync.success) = r.(SafeSync.success)
             ∧ x.(SafeSync.operations) = r.(SafeSync.operations)
  | inr x =>
      x.(SafeSync.success) = r.(SafeSync.success) ∧
      x.(SafeSync.operations) = r.(SafeSync.operations) ∧
      if this.(SafeSync.options).(SafeSync.validation).(SafeSync.enabled) then
        ∃ v, SyncValidator.validate E this.(SafeSync.validator)
               this.(SafeSync.options).(SafeSync.direction) w = (Ok v, w')
             ∧ x.(SafeSync.validationResult) = Some v
      else x.(SafeSync.validationResult) = r.(SafeSync.validationResult)
  end.
Proof.
  unfold SafeSync.preSyncValidation. destruct (SafeSync.enabled _).
  - intros Hrun. apply bind_Ok in Hrun as (v & w1 & Hv & Hrun).
    destruct (_ && _); injection Hrun as <- <-; [done|].
    assert (∀ issues r0,
              (SafeSync.report_issues issues r0).(SafeSync.success) = r0.(SafeSync.success)
              ∧ (SafeSync.report_issues issues r0).(SafeSync.operations)
                = r0.(SafeSync.operations)
              ∧ (SafeSync.report_issues issues r0).(SafeSync.validationResult)
                = r0.(SafeSync.validationResult)) as Hreport.
    { unfold SafeSync.report_issues. induction issues as [|i issues IH]; intros r0; [done|].
      cbn [foldl]. destruct (IH (match SyncValidator.type i with
                                 | SyncValidator.error =>
                                     SafeSync.push_error (SyncValidator.message i) r0
                                 | SyncValidator.warning =>
                                     SafeSync.push_warning (SyncValidator.message i) r0
                                 | SyncValidator.info => r0
                                 end)) as (-> & -> & ->).
      by destruct (SyncValidator.type i). }
    destruct (Hreport (SyncValidator.issues v) (SafeSync.set_validationResult v r))
      as (-> & -> & Hres).
    split; [done|]. split; [done|]. exists v. by rewrite Hres.
  - by intros [= <- <-].
Qed.

Section twice.
Context (E : Env) (this : SafeSync.t).
Context (tick_forward : ∀ t, t ≤ E.(tick) t).
Context (hex_inj : Inj (=) (=) E.(randomHex)).
Context (root_named : this.(SafeSync.localPath) ≠ "").
Context (backups_apart : ∀ name rel,
  resolve E (path_join this.(SafeSync.backupManager).(BackupManager.backupBaseDir) name)
  ≠ resolve E (path_join this.(SafeSync.localPath) rel)).
Context (validator_project :
  this.(SafeSync.validator).(SyncValidator.projectId) = this.(SafeSync.projectId)).
Context (validator_root :
  this.(SafeSync.validator).(SyncValidator.localPath) = this.(SafeSync.localPath)).





End twice.

(** ** Two runs in a row: the statement *)








(** ** The other statements at work *)

(** One turn of the loop on the edited world, on the faulty disk: the backup
    attempt fails, and the turn is the operation run after it. *)
Lemma operation_runs_after_its_backup_attempt_witness :
  upload_of_a.(SafeSync.backupRequired) = true ∧
  ∃ br w1,
    BackupManager.createBackup faulty_env local_first.(SafeSync.backupManager)
      (path_join local_first.(SafeSync.localPath) upload_of_a.(SafeSync.filePath)) "sync"
      edited_world = (Ok br, w1) ∧
    br.(BackupManager.success) = false ∧
    SafeSync.executeOne faulty_env local_first (SafeSync.initial_result local_first)
      upload_of_a edited_world =
    match SafeSync.executeOperation faulty_env local_first upload_of_a
            (after_backup br upload_of_a (SafeSync.initial_result local_first)) w1 with
    | (Ok result2, w2) => (Ok (SafeSync.push_executed upload_of_a result2), w2)
    | (Throw message, w2) =>
        (Ok (SafeSync.push_skipped upload_of_a
               (SafeSync.push_error (failure_message upload_of_a message)
                  (after_backup br upload_of_a (SafeSync.initial_result local_first)))), w2)
    end.
Proof.
  split; [reflexivity|].
  destruct (operation_runs_after_its_backup_attempt faulty_env local_first
              (SafeSync.initial_result local_first) upload_of_a edited_world eq_refl)
    as [(br & w1 & Hbackup & Hone) _].
  exists br, w1. split; [done|]. split; [|done].
  vm_compute in Hbackup. by injection Hbackup as <- _.
Defined.

(** C1 as stated fails: on a disk that damages copies the backup of
    [a.txt] is rejected, and the upload that required it is executed all the
    same, with a warning; no backup is on record afterwards. *)
Lemma a_failed_backup_does_not_stop_the_upload :
  match SafeSync.sync faulty_env local_first edited_world with
  | (Ok r, w') =>
      r.(SafeSync.result_dryRun) = false ∧
      r.(SafeSync.operations) = [upload_of_a] ∧
      upload_of_a.(SafeSync.backupRequired) = true ∧
      (BackupManager.createBackup faulty_env local_first.(SafeSync.backupManager)
         "/work/proj/a.txt" "sync" edited_world).1
      = Ok (BackupManager.failed "Backup integrity verification failed") ∧
      r.(SafeSync.executedOperations) = [upload_of_a] ∧
      r.(SafeSync.skippedOperations) = [] ∧
      r.(SafeSync.stats).(SafeSync.backupsCreated) = 0 ∧
      r.(SafeSync.warnings)
      = ["Failed to create backup for a.txt: Backup integrity verification failed"] ∧
      w'.(db).(backups) = [] ∧
      kf_content <$> remote_files "p1" w' = [Some "hello"]
  | (Throw _, _) => False
  end.
Proof. vm_compute. repeat split; done. Qed.






(** Three backups of [proj/a.txt], a quota of two: the two newest stay. *)
Lemma retention_keeps_the_newest_witness :
  crowded_world.(db).(initialized) = true ∧
  NoDup (backupId <$> crowded_world.(db).(backups)) ∧
  length (backups_of "p1" "proj/a.txt" crowded_world.(db).(backups)) = (2 + 1)%nat ∧
  ∃ w',
    JsonSyncStateDatabase.cleanupOldBackups sound_env "p1" 2 crowded_world = (Ok tt, w') ∧
    length (backups_of "p1" "proj/a.txt" w'.(db).(backups)) = 2%nat ∧
    (∀ kept removed,
       kept ∈ backups_of "p1" "proj/a.txt" w'.(db).(backups) →
       removed ∈ backups_of "p1" "proj/a.txt" crowded_world.(db).(backups) →
       removed ∉ backups_of "p1" "proj/a.txt" w'.(db).(backups) →
       removed.(createdAt) ≤ kept.(createdAt)).
Proof.
  assert (NoDup (backupId <$> crowded_world.(db).(backups))) as Hids.
  { by apply (bool_decide_unpack _). }
  split; [reflexivity|]. split; [exact Hids|]. split; [reflexivity|].
  destruct (retention_keeps_the_newest sound_env "p1" 2 1 "proj/a.txt" crowded_world
              eq_refl Hids eq_refl) as (w' & Hrun & Hlen & _ & Hnewest & _).
  exists w'. done.
Defined.

(** C5 as stated fails for other paths: cleaning up with a quota of two
    removes the oldest backup of [proj/b.txt] along with that of
    [proj/a.txt], for every path of the project is trimmed to its quota. *)
Lemma cleanup_trims_every_path :
  backupId <$> backups_of "p1" "proj/a.txt" crowded_world.(db).(backups) = ["a1"; "a2"; "a3"] ∧
  backupId <$> backups_of "p1" "proj/b.txt" crowded_world.(db).(backups) = ["b1"; "b2"; "b3"] ∧
  match JsonSyncStateDatabase.cleanupOldBackups sound_env "p1" 2 crowded_world with
  | (Ok _, w') => backupId <$> w'.(db).(backups) = ["a2"; "b2"; "a3"; "b3"]
  | (Throw _, _) => False
  end.
Proof. vm_compute. repeat split; done. Qed.

(** On a host that refuses writes the permission check reports an error,
    and the validation does not let the run proceed. *)
Lemma validate_gate_witness :
  engine.(SafeSync.validator).(SyncValidator.options).(SyncValidator.allowForce) = false ∧
  ∃ v w',
    SyncValidator.validate sound_env engine.(SafeSync.validator) both locked_world
    = (Ok v, w') ∧
    (∃ i, i ∈ v.(SyncValidator.issues) ∧ i.(SyncValidator.type) = SyncValidator.error) ∧
    v.(SyncValidator.canProceed) = false.
Proof.
  split; [reflexivity|].
  destruct (validate_gate sound_env engine.(SafeSync.validator) both locked_world eq_refl)
    as (v & w' & Hrun & Hgate).
  assert (∃ i, i ∈ v.(SyncValidator.issues) ∧ i.(SyncValidator.type) = SyncValidator.error)
    as Herror.
  { pose proof Hrun as Hrun'. vm_compute in Hrun'. injection Hrun' as <- _.
    eexists. split; [apply list_elem_of_here|reflexivity]. }
  exists v, w'. split; [done|]. split; [done|]. apply Hgate. by left.
Defined.

(** The touched world: [a.txt] has a new time and its old bytes, and no
    upload of it is planned. *)
Lemma hash_is_the_authority_for_uploads_witness :
  touched_world.(db).(initialized) = true ∧
  SafeSync.getLocalFiles sound_env engine touched_world
  = (Ok ["/work/proj/a.txt"], touched_world) ∧
  SafeSync.planOperations sound_env engine (SafeSync.initial_result engine) touched_world
  = (Ok touched_plan, touched_world) ∧
  state_at "p1" touched_world "a.txt" = Some settled_entry ∧
  settled_entry.(SyncState.localMtime) ≠ 999 ∧
  ∀ op, op ∈ touched_plan.(SafeSync.operations) →
        op.(SafeSync.type) = SafeSync.upload → op.(SafeSync.filePath) ≠ "a.txt".
Proof.
  split; [reflexivity|]. split; [by vm_compute|]. split; [by vm_compute|].
  split; [by vm_compute|]. split; [done|].
  destruct (hash_is_the_authority_for_uploads sound_env engine
              (SafeSync.initial_result engine) touched_world touched_plan touched_world
              ["/work/proj/a.txt"]) as [Hsame _].
  - reflexivity.
  - by vm_compute.
  - by vm_compute.
  - apply (Hsame "/work/proj/a.txt" settled_entry "hello" (list_elem_of_here _ _)).
    + by vm_compute.
    + by vm_compute.
    + reflexivity.
Defined.

(** Restoring the backup of [a.txt] to its original path succeeds, and the
    restored file hashes to the recorded hash. *)
Lemma restore_is_verified_witness :
  backed_up_world.(db).(initialized) = true ∧
  ∃ res w' backup c,
    BackupManager.restoreFromBackup sound_env engine.(SafeSync.backupManager) "a1" None
      backed_up_world = (Ok res, w') ∧
    res.(BackupManager.success) = true ∧
    backup ∈ backed_up_world.(db).(backups) ∧
    backup.(backupId) = "a1" ∧
    fs_readFile sound_env (BackupManager.restore_path None backup) w' = (Ok c, w') ∧
    sound_env.(sha256) c = backup.(fileHash).
Proof.
  split; [reflexivity|].
  destruct (restore_is_verified sound_env engine.(SafeSync.backupManager) "a1" None
              backed_up_world eq_refl) as (res & w' & Hrun & Hsuccess).
  assert (res.(BackupManager.success) = true) as Hok.
  { pose proof Hrun as Hrun'. vm_compute in Hrun'. by injection Hrun' as <- _. }
  destruct (Hsuccess Hok) as (backup & c & Hin & Hid & _ & _ & Hread & Hhash).
  by exists res, w', backup, c.
Defined.

(** [a.txt] against its one backup. *)
Lemma changed_since_latest_backup_witness :
  backed_up_world.(db).(initialized) = true ∧
  relative_to_cwd sound_env "/work/proj/a.txt" ≠ "" ∧
  ∃ changed,
    BackupManager.hasFileChangedSinceBackup sound_env engine.(SafeSync.backupManager)
      "/work/proj/a.txt" backed_up_world = (Ok changed, backed_up_world) ∧
    match fs_readFile sound_env "/work/proj/a.txt" backed_up_world with
    | (Throw _, _) => changed = true
    | (Ok c, _) =>
        match backups_of engine.(SafeSync.backupManager).(BackupManager.projectId)
                (relative_to_cwd sound_env "/work/proj/a.txt")
                backed_up_world.(db).(backups) with
        | [] => changed = true
        | recorded =>
            ∃ latest,
              latest ∈ recorded ∧
              (∀ b, b ∈ recorded → b.(createdAt) ≤ latest.(createdAt)) ∧
              (changed = true ↔ sound_env.(sha256) c ≠ latest.(fileHash))
        end
    end.
Proof.
  split; [reflexivity|]. split; [by vm_compute|].
  apply (changed_since_latest_backup sound_env engine.(SafeSync.backupManager)
           "/work/proj/a.txt" backed_up_world); [reflexivity|by vm_compute].
Defined.

(** * Part III: further properties of the code *)

(** ** The state database: records and the state file *)

Lemma saveFileState_opened entry w :
  JsonSyncStateDatabase.saveFileState entry w
  = (Ok tt,
     set_db (JsonSyncStateDatabase.saved
               (JsonSyncStateDatabase.set_syncStates
                  (map_set JsonSyncStateDatabase.stateKey entry
                     (opened w.(db)).(syncStates)) (opened w.(db)))) w).
Proof.
  unfold JsonSyncStateDatabase.saveFileState, bind.
  destruct (initialize_opens w) as [-> _]. by destruct w.
Qed.

Lemma deleteFileState_opened pid path w :
  JsonSyncStateDatabase.deleteFileState pid path w
  = (Ok tt,
     set_db (JsonSyncStateDatabase.saved
               (JsonSyncStateDatabase.set_syncStates
                  (map_delete JsonSyncStateDatabase.stateKey
                     (JsonSyncStateDatabase.getStateKey pid path)
                     (opened w.(db)).(syncStates)) (opened w.(db)))) w).
Proof.
  unfold JsonSyncStateDatabase.deleteFileState, bind.
  destruct (initialize_opens w) as [-> _]. by destruct w.
Qed.

Lemma getFileState_opened pid path w :
  JsonSyncStateDatabase.getFileState pid path w
  = (Ok (map_get JsonSyncStateDatabase.stateKey
           (JsonSyncStateDatabase.getStateKey pid path) (opened w.(db)).(syncStates)),
     open_world w).
Proof.
  unfold JsonSyncStateDatabase.getFileState, bind.
  destruct (initialize_opens w) as [-> _]. reflexivity.
Qed.

Lemma opened_initialized d : (opened d).(initialized) = true.
Proof.
  unfold opened. destruct (initialized d) eqn:H; [exact H|].
  unfold JsonSyncStateDatabase.load. by destruct (dbFile d).
Qed.

Lemma map_get_map_delete_eq {V} (key : V → string) k (m : list V) :
  map_get key k (map_delete key k m) = None.
Proof. apply map_get_None. intros v Hv%elem_of_map_delete. tauto. Qed.

Lemma map_get_map_delete_ne {V} (key : V → string) k k' (m : list V) :
  k ≠ k' → map_get key k' (map_delete key k m) = map_get key k' m.
Proof.
  intros Hk. unfold map_get, map_delete. induction m as [|x m IH]; [done|].
  destruct (decide (key x = k)) as [Heq|Hne].
  - rewrite filter_cons_False by tauto. cbn [List.find].
    by rewrite bool_decide_eq_false_2 by congruence.
  - rewrite filter_cons_True by done. cbn [List.find]. by rewrite IH.
Qed.

(** X1. A record written with [saveFileState] is the one [getFileState]
    returns for its project and path, whether or not the database had been
    opened before; reading any other key gives what it gave before the
    write. *)
Theorem saved_state_is_read_back entry w :
  ∃ w',
    JsonSyncStateDatabase.saveFileState entry w = (Ok tt, w') ∧
    JsonSyncStateDatabase.getFileState
      entry.(SyncState.projectId) entry.(SyncState.localPath) w' = (Ok (Some entry), w') ∧
    ∀ pid path,
      JsonSyncStateDatabase.getStateKey pid path ≠ JsonSyncStateDatabase.stateKey entry →
      (JsonSyncStateDatabase.getFileState pid path w').1
      = (JsonSyncStateDatabase.getFileState pid path w).1.
Proof.
  eexists. split; [apply saveFileState_opened|]. split.
  - rewrite getFileState_idle by apply opened_initialized.
    cbn [db set_db syncStates JsonSyncStateDatabase.saved JsonSyncStateDatabase.set_syncStates].
    change (JsonSyncStateDatabase.getStateKey _ _) with (JsonSyncStateDatabase.stateKey entry).
    by rewrite map_get_map_set_eq.
  - intros pid path Hkey.
    rewrite getFileState_idle by apply opened_initialized.
    rewrite getFileState_opened.
    cbn [db set_db syncStates JsonSyncStateDatabase.saved JsonSyncStateDatabase.set_syncStates fst].
    by rewrite map_get_map_set_ne.
Qed.

(** X2. After [deleteFileState] the database has no record for that project
    and path, and every other key reads as before; deleting a key that has
    no record is not an error. *)
Theorem deleted_state_is_gone pid path w :
  ∃ w',
    JsonSyncStateDatabase.deleteFileState pid path w = (Ok tt, w') ∧
    JsonSyncStateDatabase.getFileState pid path w' = (Ok None, w') ∧
    ∀ pid' path',
      JsonSyncStateDatabase.getStateKey pid' path'
      ≠ JsonSyncStateDatabase.getStateKey pid path →
      (JsonSyncStateDatabase.getFileState pid' path' w').1
      = (JsonSyncStateDatabase.getFileState pid' path' w).1.
Proof.
  eexists. split; [apply deleteFileState_opened|]. split.
  - rewrite getFileState_idle by apply opened_initialized.
    cbn [db set_db syncStates JsonSyncStateDatabase.saved JsonSyncStateDatabase.set_syncStates].
    by rewrite map_get_map_delete_eq.
  - intros pid' path' Hkey.
    rewrite getFileState_idle by apply opened_initialized.
    rewrite getFileState_opened.
    cbn [db set_db syncStates JsonSyncStateDatabase.saved JsonSyncStateDatabase.set_syncStates fst].
    by rewrite map_get_map_delete_ne.
Qed.

Lemma foldl_map_set_app {V} (key : V → string) (l m : list V) :
  NoDup (key <$> (m ++ l)) →
  foldl (λ m v, map_set key v m) m l = m ++ l.
Proof.
  revert m. induction l as [|v l IH]; intros m Hnd; cbn [foldl].
  - by rewrite app_nil_r.
  - rewrite map_set_fresh.
    + rewrite IH; rewrite <- app_assoc; done.
    + intros x Hx Heq. rewrite fmap_app, fmap_cons in Hnd.
      apply NoDup_app in Hnd as (_ & Hdisj & _).
      apply (Hdisj (key x)); [by apply list_elem_of_fmap_2|]. rewrite Heq. left.
Qed.

(** X3. What [close] writes is what the next process reads: when the keys
    of the records in memory are distinct, as the keys of a map are, a new
    database object that initializes from the file left by [close] holds
    the same file states and the same backup records, in the same order. *)
Theorem state_file_round_trip w :
  w.(db).(initialized) = true →
  NoDup (JsonSyncStateDatabase.stateKey <$> w.(db).(syncStates)) →
  NoDup (backupId <$> w.(db).(backups)) →
  ∃ w1 w2,
    JsonSyncStateDatabase.close w = (Ok tt, w1) ∧
    JsonSyncStateDatabase.initialize (reopened w1) = (Ok tt, w2) ∧
    w2.(db).(syncStates) = w.(db).(syncStates) ∧
    w2.(db).(backups) = w.(db).(backups) ∧
    w2.(db).(initialized) = true.
Proof.
  intros Hinit Hstates Hbackups.
  eexists _, _. split; [by apply close_run|].
  split; [reflexivity|]. cbn.
  rewrite !foldl_map_set_app by done. done.
Qed.

Lemma state_file_round_trip_witness :
  backed_up_world.(db).(initialized) = true ∧
  NoDup (JsonSyncStateDatabase.stateKey <$> backed_up_world.(db).(syncStates)) ∧
  NoDup (backupId <$> backed_up_world.(db).(backups)) ∧
  ∃ w1 w2,
    JsonSyncStateDatabase.close backed_up_world = (Ok tt, w1) ∧
    JsonSyncStateDatabase.initialize (reopened w1) = (Ok tt, w2) ∧
    w2.(db).(syncStates) = backed_up_world.(db).(syncStates) ∧
    w2.(db).(backups) = backed_up_world.(db).(backups) ∧
    w2.(db).(initialized) = true.
Proof.
  split; [reflexivity|]. split; [apply NoDup_nil_2|]. split; [apply NoDup_singleton|].
  apply (state_file_round_trip backed_up_world).
  - reflexivity.
  - apply NoDup_nil_2.
  - apply NoDup_singleton.
Defined.

(** ** Backup records: listing, deleting, trimming *)

Lemma listBackups_opened pid path w :
  JsonSyncStateDatabase.listBackups pid path w
  = (Ok (JsonSyncStateDatabase.sort_newest_first
           (filter (JsonSyncStateDatabase.selected pid path) (opened w.(db)).(backups))),
     open_world w).
Proof.
  unfold JsonSyncStateDatabase.listBackups, bind.
  destruct (initialize_opens w) as [-> _]. reflexivity.
Qed.

(** X4. [listBackups] returns the backups of the manager's project, newest
    first: every record of the project that matches the path is listed
    exactly once, no record of another project is, and an empty path
    selects like no path at all. *)
Theorem backups_are_listed_newest_first (this : BackupManager.t) path w :
  ∃ l,
    BackupManager.listBackups this path w = (Ok l, open_world w) ∧
    StronglySorted not_older l ∧
    l ≡ₚ filter (λ b, b.(backupProjectId) = this.(BackupManager.projectId) ∧
                      (path = None ∨ path = Some "" ∨ path = Some b.(originalPath)))
                (open_world w).(db).(backups) ∧
    (path = Some "" →
     BackupManager.listBackups this path w = BackupManager.listBackups this None w).
Proof.
  unfold BackupManager.listBackups. rewrite !listBackups_opened.
  eexists. split; [done|]. split; [apply sort_newest_first_sorted|]. split.
  - rewrite sort_newest_first_perm. cbn [open_world db set_db].
    erewrite filter_iff_in; [done|]. intros b _. unfold JsonSyncStateDatabase.selected.
    destruct path as [p|]; [|tauto].
    split.
    + intros [? [->| <-]]; eauto.
    + intros [? [?|[[= Hp]|[= Hp]]]]; [done|split; [done|by left]|split; [done|by right]].
  - intros ->. do 3 f_equal.
    apply filter_iff_in. intros b _. unfold JsonSyncStateDatabase.selected.
    split; [tauto|]. intros [? _]. split; [done|by left].
Qed.

(** X5. [deleteBackup] removes the record with the given id and reports
    success even when the backup file is gone from the disk or cannot be
    unlinked; it does not look at the project of the record. The file of
    the record is unlinked when it is a regular file, no other path of the
    file system changes, no other record changes, and an id without a
    record leaves everything as it was. *)
Theorem deleteBackup_forgives_a_missing_file E (this : BackupManager.t) id w :
  w.(db).(initialized) = true →
  ∃ w',
    BackupManager.deleteBackup E this id w = (Ok BackupManager.succeeded, w') ∧
    map_get backupId id w'.(db).(backups) = None ∧
    (∀ b, b.(backupId) ≠ id → b ∈ w'.(db).(backups) ↔ b ∈ w.(db).(backups)) ∧
    w'.(db).(syncStates) = w.(db).(syncStates) ∧
    w'.(remote) = w.(remote) ∧
    match map_get backupId id w.(db).(backups) with
    | None => w' = w
    | Some b =>
        (∀ q, q ≠ resolve E b.(backupPath) → w'.(fs) !! q = w.(fs) !! q) ∧
        w'.(fs) !! resolve E b.(backupPath)
        = match w.(fs) !! resolve E b.(backupPath) with
          | Some (Directory t) => Some (Directory t)
          | _ => None
          end
    end.
Proof.
  intros Hinit. unfold BackupManager.deleteBackup, try_catch, bind at 1.
  unfold JsonSyncStateDatabase.deleteBackup.
  rewrite (bind_run _ _ _ _ _ (initialize_idle w Hinit)). unfold bind at 1, get_world.
  destruct (map_get backupId id _) as [backup|] eqn:Hget.
  - assert (∃ w1, try_catch (fs_unlink E backup.(backupPath)) (λ _, ret tt) w = (Ok tt, w1)
                  ∧ db w1 = db w ∧ remote w1 = remote w
                  ∧ (∀ q, q ≠ resolve E backup.(backupPath) → fs w1 !! q = fs w !! q)
                  ∧ fs w1 !! resolve E backup.(backupPath)
                    = match fs w !! resolve E backup.(backupPath) with
                      | Some (Directory t) => Some (Directory t)
                      | _ => None
                      end) as (w1 & Hrun & Hdb & Hremote & Hframe & Hat).
    { unfold try_catch, fs_unlink.
      destruct (fs w !! resolve E (backupPath backup)) as [[f|t]|] eqn:Hnode; simpl;
        eexists; (split; [done|]); simpl; rewrite ?Hnode; repeat split; try done.
      - intros q Hq. by rewrite lookup_delete_ne.
      - by rewrite lookup_delete_eq. }
    rewrite (bind_run _ _ _ _ _ Hrun). unfold bind, modify, JsonSyncStateDatabase.save, ret.
    eexists. split; [reflexivity|]. simpl. rewrite Hdb.
    split; [apply map_get_map_delete_eq|].
    split; [intros b Hb; rewrite elem_of_map_delete; tauto|]. done.
  - exists w. split; [done|]. split; [done|]. done.
Qed.

Lemma deleteBackup_forgives_a_missing_file_witness :
  crowded_world.(db).(initialized) = true ∧
  ∃ w',
    BackupManager.deleteBackup sound_env engine.(SafeSync.backupManager) "a2" crowded_world
    = (Ok BackupManager.succeeded, w') ∧
    map_get backupId "a2" w'.(db).(backups) = None ∧
    w'.(fs) = crowded_world.(fs).
Proof.
  destruct (deleteBackup_forgives_a_missing_file sound_env
              engine.(SafeSync.backupManager) "a2" crowded_world eq_refl)
    as (w' & Hrun & Hgone & _).
  split; [reflexivity|].
  exists w'. split; [exact Hrun|]. split; [exact Hgone|].
  vm_compute in Hrun. injection Hrun as <-. reflexivity.
Defined.

#[local] Existing Instance doomed_dec.




(** ** Creating and restoring backups *)

Ltac bind_step H :=
  let w1 := fresh "w" in
  let Hm := fresh "Hm" in
  apply bind_inv in H as [(? & w1 & Hm & H)|(? & Hm & ?)].

Lemma fs_mkdir_pure E p w r w' : fs_mkdir E p w = (r, w') → w' = w.
Proof. unfold fs_mkdir. repeat case_match; by intros [= _ <-]. Qed.

Lemma write_node_frame E p c w r w' :
  write_node E p c w = (r, w') →
  db w' = db w ∧ remote w' = remote w ∧ ∀ q, q ≠ resolve E p → fs w' !! q = fs w !! q.
Proof.
  unfold write_node. repeat case_match; intros [= _ <-]; simpl; repeat split; try done;
    intros q Hq; by rewrite lookup_insert_ne.
Qed.

Lemma fs_copyFile_frame E src dst w r w' :
  fs_copyFile E src dst w = (r, w') →
  db w' = db w ∧ remote w' = remote w ∧ ∀ q, q ≠ resolve E dst → fs w' !! q = fs w !! q.
Proof.
  unfold fs_copyFile. intros H.
  apply bind_inv in H as [(c & w1 & Hread & H)|(e & Hread & _)].
  - apply fs_readFile_pure in Hread as ->. by apply write_node_frame in H.
  - by apply fs_readFile_pure in Hread as ->.
Qed.


Lemma shrunk_refl w : w.(db).(initialized) = true → shrunk w w.
Proof. intros ?. repeat split; auto. Qed.

Lemma shrunk_trans w1 w2 w3 : shrunk w1 w2 → shrunk w2 w3 → shrunk w1 w3.
Proof.
  intros (? & Hb & Hf & Ha) (? & Hb' & Hf' & Ha').
  split; [done|]. split; [auto|]. split; [|by eapply backups_aside_trans].
  intros q. destruct (Hf' q) as [->| ->]; auto.
Qed.

Lemma deleteBackup_shrinks E id w :
  w.(db).(initialized) = true →
  ∃ w', JsonSyncStateDatabase.deleteBackup E id w = (Ok tt, w') ∧ shrunk w w'.
Proof.
  intros Hinit. unfold JsonSyncStateDatabase.deleteBackup.
  rewrite (bind_run _ _ _ _ _ (initialize_idle w Hinit)). unfold bind at 1, get_world.
  destruct (map_get backupId id _) as [backup|] eqn:Hget.
  - assert (∃ w1, try_catch (fs_unlink E backup.(backupPath)) (λ _, ret tt) w = (Ok tt, w1)
                  ∧ db w1 = db w ∧ backups_aside w w1
                  ∧ (∀ q, fs w1 !! q = fs w !! q ∨ fs w1 !! q = None))
      as (w1 & Hrun & Hdb & Haside & Hfs).
    { unfold try_catch, fs_unlink.
      destruct (fs w !! resolve E (backupPath backup)) as [[f|t]|] eqn:Hnode; simpl;
        eexists; (split; [done|]); simpl; repeat split; auto.
      intros q. destruct (decide (q = resolve E (backupPath backup))) as [->|Hq].
      - right. apply lookup_delete_eq.
      - left. by apply lookup_delete_ne. }
    rewrite (bind_run _ _ _ _ _ Hrun). unfold bind, modify, JsonSyncStateDatabase.save, ret.
    eexists. split; [reflexivity|]. split; [simpl; by rewrite Hdb|].
    split; [|split; [done|]].
    + simpl. rewrite Hdb. intros b Hb%elem_of_map_delete. tauto.
    + destruct Haside as (?&?&?&?&?&?). simpl. rewrite Hdb. by repeat split.
  - exists w. split; [done|]. by apply shrunk_refl.
Qed.

Lemma for_each_shrinks {A} (l : list A) (body : A → M unit) w :
  (∀ x w, w.(db).(initialized) = true → ∃ w', body x w = (Ok tt, w') ∧ shrunk w w') →
  w.(db).(initialized) = true →
  ∃ w', for_each l body w = (Ok tt, w') ∧ shrunk w w'.
Proof.
  intros Hbody. revert w. induction l as [|x l IH]; intros w Hinit; simpl.
  - exists w. split; [done|]. by apply shrunk_refl.
  - destruct (Hbody x w Hinit) as (w1 & Hrun & Hs1).
    rewrite (bind_run _ _ _ _ _ Hrun).
    destruct (IH w1) as (w2 & Hrun2 & Hs2); [by destruct Hs1|].
    exists w2. split; [done|]. by eapply shrunk_trans.
Qed.

Lemma cleanupOldBackups_shrinks E pid n w :
  w.(db).(initialized) = true →
  ∃ w', JsonSyncStateDatabase.cleanupOldBackups E pid n w = (Ok tt, w') ∧ shrunk w w'.
Proof.
  intros Hinit. unfold JsonSyncStateDatabase.cleanupOldBackups.
  rewrite (bind_run _ _ _ _ _ (initialize_idle w Hinit)). unfold bind, get_world.
  apply for_each_shrinks; [|done]. intros group w1 Hinit1.
  apply for_each_shrinks; [|done]. intros b w2 Hinit2.
  by apply deleteBackup_shrinks.
Qed.



(** X8. [createBackupIfChanged] makes no second copy of an unchanged file:
    when the file can be read and its hash is the one recorded in the most
    recent backup listed for its path, the call reports success without a
    backup id and leaves the world as it was; when the file has no backup
    on record, or its hash differs from the most recent one, or it cannot
    be read, the call is [createBackup]. *)
Theorem unchanged_file_is_not_backed_up_again E (this : BackupManager.t) p reason w :
  w.(db).(initialized) = true →
  ∃ backups,
    BackupManager.listBackups this (Some (relative_to_cwd E p)) w = (Ok backups, w) ∧
    BackupManager.createBackupIfChanged E this p reason w
    = match fs_readFile E p w, backups with
      | (Ok c, _), latest :: _ =>
          if bool_decide (E.(sha256) c = latest.(fileHash))
          then (Ok BackupManager.succeeded, w)
          else BackupManager.createBackup E this p reason w
      | _, _ => BackupManager.createBackup E this p reason w
      end.
Proof.
  intros Hinit. eexists. split; [by apply listBackups_idle|].
  unfold BackupManager.createBackupIfChanged, BackupManager.hasFileChangedSinceBackup,
    BackupManager.listBackups.
  unfold bind at 1, try_catch, bind at 1, calculateFileHash, bind at 1.
  destruct (fs_readFile E p w) as [[c|e] w1] eqn:Hread;
    pose proof (fs_readFile_pure _ _ _ _ _ Hread) as ->; [|done].
  unfold ret at 1.
  rewrite (bind_run _ _ _ _ _ (listBackups_idle _ _ _ Hinit)).
  destruct (sort_newest_first _) as [|latest rest]; [done|].
  unfold ret. by destruct (bool_decide _).
Qed.

Lemma unchanged_file_is_not_backed_up_again_witness :
  backed_up_world.(db).(initialized) = true ∧
  BackupManager.createBackupIfChanged sound_env engine.(SafeSync.backupManager)
    "/work/proj/a.txt" "sync" backed_up_world
  = (Ok BackupManager.succeeded, backed_up_world).
Proof.
  split; [reflexivity|].
  destruct (unchanged_file_is_not_backed_up_again sound_env engine.(SafeSync.backupManager)
              "/work/proj/a.txt" "sync" backed_up_world eq_refl) as (backups & Hlist & ->).
  vm_compute in Hlist. injection Hlist as <-. reflexivity.
Defined.

Lemma restoreFromBackup_returns E (this : BackupManager.t) id targetPath w :
  ∃ res w', BackupManager.restoreFromBackup E this id targetPath w = (Ok res, w').
Proof. unfold BackupManager.restoreFromBackup. apply try_catch_returns. Qed.

(** X9. [restoreFromBackup] writes one path and nothing else: whatever it
    reports, the database and the remote store are as they were, and a
    path of the file system can only have changed if it is the restore path
    of a record of this project with this id. When the project has no
    record with the id (the record of another project does not count), the
    call reports that the backup was not found and the world is unchanged. *)
Theorem restore_writes_only_its_target E (this : BackupManager.t) id targetPath w :
  w.(db).(initialized) = true →
  ∃ res w',
    BackupManager.restoreFromBackup E this id targetPath w = (Ok res, w') ∧
    w'.(db) = w.(db) ∧ w'.(remote) = w.(remote) ∧
    (∀ q, (∀ b, b ∈ w.(db).(backups) → b.(backupId) = id →
                b.(backupProjectId) = this.(BackupManager.projectId) →
                q ≠ resolve E (BackupManager.restore_path targetPath b)) →
          w'.(fs) !! q = w.(fs) !! q) ∧
    ((∀ b, b ∈ w.(db).(backups) → b.(backupId) = id →
           b.(backupProjectId) ≠ this.(BackupManager.projectId)) →
     res = BackupManager.failed "Backup not found" ∧ w' = w).
Proof.
  intros Hinit.
  destruct (restoreFromBackup_returns E this id targetPath w) as (res & w' & Hrun).
  exists res, w'. split; [exact Hrun|].
  unfold BackupManager.restoreFromBackup in Hrun.
  match type of Hrun with
  | try_catch ?m _ _ = _ =>
      assert (∃ r, m w = (r, w') ∧ (r = Ok res ∨ ∃ e, r = Throw e)) as (r & Hbody & Hr)
  end.
  { apply try_catch_inv in Hrun as [(res' & Hbody & [= <-])|(e & w1 & Hbody & [= _ <-])];
      eauto. }
  clear Hrun.
  rewrite (bind_run _ _ _ _ _ (listBackups_idle _ _ _ Hinit)) in Hbody.
  destruct (find _ _) as [backup|] eqn:Hfind.
  - apply find_some in Hfind as [Hin Hid]. apply bool_decide_eq_true in Hid.
    apply list_elem_of_In in Hin. rewrite elem_of_sort_newest_first in Hin.
    apply list_elem_of_filter in Hin as [[Hpid _] Hin].
    assert (db w' = db w ∧ remote w' = remote w ∧
            ∀ q, q ≠ resolve E (BackupManager.restore_path targetPath backup) →
                 fs w' !! q = fs w !! q) as (Hdb & Hremote & Hfs).
    { pose proof (fileExists_run E backup.(backupPath) w) as Hex.
      unfold SafeSync.fileExists in Hex. rewrite (bind_run _ _ _ _ _ Hex) in Hbody.
      destruct (negb _); [by injection Hbody as _ <-|].
      bind_step Hbody; [|by apply fs_mkdir_pure in Hm as ->].
      apply fs_mkdir_pure in Hm as ->.
      bind_step Hbody; [|by apply fs_copyFile_frame in Hm].
      apply fs_copyFile_frame in Hm as (Hdb & Hremote & Hfs).
      bind_step Hbody; [|by apply calculateFileHash_pure in Hm as ->].
      apply calculateFileHash_pure in Hm as ->.
      by destruct (negb _); injection Hbody as _ <-. }
    split; [done|]. split; [done|]. split.
    + intros q Hq. apply Hfs. by apply Hq.
    + intros Hother. by destruct (Hother backup).
  - injection Hbody as <- <-. split; [done|]. split; [done|]. split; [done|].
    intros _. by destruct Hr as [[= <-]|[e [=]]].
Qed.

(** What is known when [createBackup] has reported success with an id. *)
Lemma createBackup_success E (this : BackupManager.t) p reason w res w' id :
  w.(db).(initialized) = true →
  NoDup (backupId <$> w.(db).(backups)) →
  BackupManager.createBackup E this p reason w = (Ok res, w') →
  res.(BackupManager.success) = true →
  res.(BackupManager.result_backupId) = Some id →
  ∃ c entry,
    fs_readFile E p w = (Ok c, w) ∧
    entry.(backupId) = id ∧
    entry.(fileHash) = E.(sha256) c ∧
    entry.(backupProjectId) = this.(BackupManager.projectId) ∧
    entry.(originalPath) = relative_to_cwd E p ∧
    E.(sha256) (E.(copied) c) = E.(sha256) c ∧
    w'.(db).(initialized) = true ∧
    (∀ e, e ∈ w'.(db).(backups) → e.(backupId) = id → e = entry) ∧
    (∀ c', fs_readFile E entry.(backupPath) w' = (Ok c', w') → c' = E.(copied) c).
Proof.
  intros Hinit Hnd Hrun Hok Hid. unfold BackupManager.createBackup in Hrun.
  destruct (negb _); [by injection Hrun as <- <-|].
  apply try_catch_inv in Hrun as [(res' & Hrun & [= <-])|(e & w1 & _ & [= <- _])]; [|done].
  apply bind_Ok in Hrun as (stats & w1 & Hstat & Hrun).
  pose proof (fs_stat_pure _ _ _ _ _ Hstat) as ->.
  destruct stats as [f0|]; [|by injection Hrun as <- _].
  apply bind_Ok in Hrun as ([] & w1 & Hmkdir & Hrun).
  apply fs_mkdir_pure in Hmkdir as ->.
  apply bind_Ok in Hrun as (id' & w1 & Hid' & Hrun). injection Hid' as <- <-.
  apply bind_Ok in Hrun as (stamp & w1 & Hstamp & Hrun). injection Hstamp as <- <-.
  simpl in Hrun.
  set (bp := path_join _ _) in Hrun.
  apply bind_Ok in Hrun as (h & w1 & Hhash & Hrun).
  apply calculateFileHash_Ok in Hhash as (-> & c & Hread & ->).
  apply bind_Ok in Hrun as ([] & w1 & Hcopy & Hrun).
  apply fs_copyFile_Ok in Hcopy as (c' & f & Hread' & -> & Hf & _).
  assert (c' = c) as -> by congruence. clear Hread'.
  apply bind_Ok in Hrun as (h' & w1 & Hhash & Hrun).
  apply calculateFileHash_Ok in Hhash as (-> & c2 & Hback & ->).
  apply fs_readFile_lookup in Hback as (f' & Hlook & Hreadable & <-).
  simpl in Hlook. rewrite lookup_insert_eq in Hlook. injection Hlook as <-.
  case_bool_decide as Hsame; simpl in Hrun.
  2:{ apply bind_Ok in Hrun as (? & ? & _ & Hrun). by injection Hrun as <- _. }
  apply bind_Ok in Hrun as (created & w1 & Hcreated & Hrun). injection Hcreated as <- <-.
  set (entry := {| backupId := E.(randomHex) w.(entropy);
                   originalPath := relative_to_cwd E p;
                   backupPath := bp; createdAt := _; fileHash := E.(sha256) c;
                   backupProjectId := this.(BackupManager.projectId);
                   reason := reason |}) in Hrun.
  match type of Hrun with
  | bind _ _ ?w0 = _ =>
      rewrite (bind_run _ _ _ _ _ (db_createBackup_run entry w0 Hinit)) in Hrun
  end.
  match type of Hrun with context [set_db ?d ?w0] => set (w2 := set_db d w0) in Hrun end.
  assert (w2.(db).(backups) = map_set backupId entry w.(db).(backups)) as Hb2 by done.
  assert (w2.(fs) !! resolve E bp = Some (File f)) as Hfs2.
  { simpl. apply lookup_insert_eq. }
  assert (w2.(db).(initialized) = true) as Hinit2 by done.
  apply bind_Ok in Hrun as ([] & w3 & Hclean & Hrun). injection Hrun as <- <-.
  simpl in Hid. injection Hid as <-.
  assert (shrunk w2 w3) as (Hinit3 & Hsub & Hfs3 & _).
  { destruct (BackupManager.autoCleanup _).
    - destruct (cleanupOldBackups_shrinks E this.(BackupManager.projectId)
                  this.(BackupManager.options).(BackupManager.retentionCount) w2 Hinit2)
        as (w3' & Hrun' & Hs). congruence.
    - injection Hclean as <-. by apply shrunk_refl. }
  exists c, entry.
  split; [apply fs_readFile_lookup; by apply fs_readFile_lookup in Hread|].
  split; [done|]. split; [done|]. split; [done|].
  split; [done|]. split; [by rewrite Hf in Hsame|]. split; [done|]. split.
  - intros e He Hide. apply Hsub in He. rewrite Hb2 in He.
    apply (elem_of_map_set _ _ _ _ Hnd) in He as [->|[_ Hne]]; [done|]. by destruct Hne.
  - intros c' (f' & Hlook & _ & <-)%fs_readFile_lookup.
    destruct (Hfs3 (resolve E bp)) as [Heq|Heq]; simpl in Hlook; rewrite Heq in Hlook.
    + rewrite Hfs2 in Hlook. by injection Hlook as <-.
    + done.
Qed.

(** What is known when [restoreFromBackup] has reported success. *)
Lemma restoreFromBackup_success E (this : BackupManager.t) id targetPath w res w' :
  w.(db).(initialized) = true →
  BackupManager.restoreFromBackup E this id targetPath w = (Ok res, w') →
  res.(BackupManager.success) = true →
  ∃ backup c,
    backup ∈ w.(db).(backups) ∧
    backup.(backupId) = id ∧
    backup.(backupProjectId) = this.(BackupManager.projectId) ∧
    res.(BackupManager.result_backupPath)
    = Some (BackupManager.restore_path targetPath backup) ∧
    fs_readFile E backup.(backupPath) w = (Ok c, w) ∧
    fs_readFile E (BackupManager.restore_path targetPath backup) w'
    = (Ok (E.(copied) c), w') ∧
    E.(sha256) (E.(copied) c) = backup.(fileHash).
Proof.
  intros Hinit Hrun Hok. unfold BackupManager.restoreFromBackup in Hrun.
  apply try_catch_inv in Hrun as [(res' & Hrun & [= <-])|(e & w1 & _ & [= <- _])]; [|done].
  rewrite (bind_run _ _ _ _ _ (listBackups_idle _ _ _ Hinit)) in Hrun.
  destruct (find _ _) as [backup|] eqn:Hfind; [|by injection Hrun as <- _].
  apply find_some in Hfind as [Hin Hid]. apply bool_decide_eq_true in Hid.
  apply list_elem_of_In in Hin. rewrite elem_of_sort_newest_first in Hin.
  apply list_elem_of_filter in Hin as [[Hpid _] Hin].
  pose proof (fileExists_run E backup.(backupPath) w) as Hex.
  unfold SafeSync.fileExists in Hex. rewrite (bind_run _ _ _ _ _ Hex) in Hrun. clear Hex.
  destruct (negb _); [by injection Hrun as <- _|].
  apply bind_Ok in Hrun as ([] & w1 & Hmkdir & Hrun).
  apply fs_mkdir_pure in Hmkdir as ->.
  apply bind_Ok in Hrun as ([] & w2 & Hcopy & Hrun).
  apply fs_copyFile_Ok in Hcopy as (c & f & Hread & -> & Hf & _).
  apply bind_Ok in Hrun as (h & w3 & Hhash & Hrun).
  apply calculateFileHash_Ok in Hhash as (-> & c2 & Hback & ->).
  pose proof Hback as Hback'.
  apply fs_readFile_lookup in Hback' as (f' & Hlook & Hreadable & <-).
  simpl in Hlook. rewrite lookup_insert_eq in Hlook. injection Hlook as <-.
  case_bool_decide as Hsame; simpl in Hrun; injection Hrun as <- <-; [|done].
  exists backup, c. rewrite <- Hf. done.
Qed.

(** X10. Backup, then restore: when [createBackup] has reported success
    with an id and [restoreFromBackup] of that id then reports success, the
    file at the path that the restore reports holds the bytes that the
    backed-up file had, as two copies leave them, and these hash like the
    original; on a disk that copies faithfully they are the original
    bytes. *)
Theorem backup_then_restore E (this : BackupManager.t) p reason targetPath w res w1 id res' w2 :
  w.(db).(initialized) = true →
  NoDup (backupId <$> w.(db).(backups)) →
  BackupManager.createBackup E this p reason w = (Ok res, w1) →
  res.(BackupManager.success) = true →
  res.(BackupManager.result_backupId) = Some id →
  BackupManager.restoreFromBackup E this id targetPath w1 = (Ok res', w2) →
  res'.(BackupManager.success) = true →
  ∃ c restored,
    fs_readFile E p w = (Ok c, w) ∧
    res'.(BackupManager.result_backupPath) = Some restored ∧
    restored = match targetPath with
               | Some t => if bool_decide (t = "") then relative_to_cwd E p else t
               | None => relative_to_cwd E p
               end ∧
    fs_readFile E restored w2 = (Ok (E.(copied) (E.(copied) c)), w2) ∧
    E.(sha256) (E.(copied) (E.(copied) c)) = E.(sha256) c ∧
    ((∀ x, E.(copied) x = x) → fs_readFile E restored w2 = (Ok c, w2)).
Proof.
  intros Hinit Hnd Hrun Hok Hid Hrun' Hok'.
  destruct (createBackup_success _ _ _ _ _ _ _ _ Hinit Hnd Hrun Hok Hid)
    as (c & entry & Hread & Hide & Hhash & Hpid & Hpath & Hcopy & Hinit1 & Hone & Hfile).
  destruct (restoreFromBackup_success _ _ _ _ _ _ _ Hinit1 Hrun' Hok')
    as (backup & c1 & Hin & Hidb & _ & Hres & Hread1 & Hread2 & Hhash2).
  apply Hone in Hin as ->; [|done].
  apply Hfile in Hread1 as ->.
  exists c, (BackupManager.restore_path targetPath entry).
  split; [done|]. split; [done|]. split; [by unfold BackupManager.restore_path; rewrite Hpath|].
  split; [done|]. split; [congruence|].
  intros Hsound. by rewrite !Hsound in Hread2.
Qed.

Lemma restore_writes_only_its_target_witness :
  backed_up_world.(db).(initialized) = true ∧
  BackupManager.restoreFromBackup sound_env engine.(SafeSync.backupManager) "a9" None
    backed_up_world
  = (Ok (BackupManager.failed "Backup not found"), backed_up_world).
Proof.
  split; [reflexivity|].
  destruct (restore_writes_only_its_target sound_env engine.(SafeSync.backupManager) "a9" None
              backed_up_world eq_refl) as (res & w' & Hrun & _ & _ & _ & Hnone).
  destruct Hnone as [-> ->]; [|exact Hrun].
  intros b Hb%list_elem_of_singleton Hid. subst b. discriminate Hid.
Defined.

Lemma backup_then_restore_witness :
  ∃ res w1 res' w2,
    edited_world.(db).(initialized) = true ∧
    NoDup (backupId <$> edited_world.(db).(backups)) ∧
    BackupManager.createBackup sound_env engine.(SafeSync.backupManager)
      "/work/proj/a.txt" "manual" edited_world = (Ok res, w1) ∧
    res.(BackupManager.success) = true ∧
    res.(BackupManager.result_backupId) = Some "id0" ∧
    BackupManager.restoreFromBackup sound_env engine.(SafeSync.backupManager) "id0"
      (Some "/work/proj/old.txt") w1 = (Ok res', w2) ∧
    res'.(BackupManager.success) = true ∧
    fs_readFile sound_env "/work/proj/old.txt" w2 = (Ok "hello", w2).
Proof.
  destruct (createBackup_returns sound_env engine.(SafeSync.backupManager)
              "/work/proj/a.txt" "manual" edited_world) as (res & w1 & Hrun).
  pose proof Hrun as Hrun1. vm_compute in Hrun1. injection Hrun1 as Hres Hw1.
  assert (res.(BackupManager.success) = true) as Hok by (by rewrite <- Hres).
  assert (res.(BackupManager.result_backupId) = Some "id0") as Hid by (by rewrite <- Hres).
  destruct (restoreFromBackup_returns sound_env engine.(SafeSync.backupManager) "id0"
              (Some "/work/proj/old.txt") w1) as (res' & w2 & Hrun').
  assert (res'.(BackupManager.success) = true) as Hok'.
  { pose proof Hrun' as Hrun2. rewrite <- Hw1 in Hrun2. vm_compute in Hrun2.
    injection Hrun2 as Hres' _. by rewrite <- Hres'. }
  exists res, w1, res', w2.
  split; [reflexivity|]. split; [apply NoDup_nil_2|]. split; [exact Hrun|].
  split; [exact Hok|]. split; [exact Hid|]. split; [exact Hrun'|]. split; [exact Hok'|].
  destruct (backup_then_restore sound_env engine.(SafeSync.backupManager)
              "/work/proj/a.txt" "manual" (Some "/work/proj/old.txt") edited_world
              res w1 "id0" res' w2 eq_refl (NoDup_nil_2 (A:=string)) Hrun Hok Hid Hrun' Hok')
    as (c & restored & Hread & _ & -> & _ & _ & Hsound).
  vm_compute in Hread. injection Hread as <-.
  apply Hsound. reflexivity.
Defined.

(** ** The remote store of the mock client *)

Lemma project_files_set pid files (remote0 : list (string * list ClaudeKnowledgeFile)) w :
  MockClaudeClient.project_files pid (set_remote (map_set fst (pid, files) remote0) w)
  = Some files.
Proof.
  unfold MockClaudeClient.project_files. simpl.
  by rewrite (map_get_map_set_eq fst (pid, files)).
Qed.

Lemma project_files_set_ne pid pid' files (remote0 : list (string * list ClaudeKnowledgeFile)) w :
  pid' ≠ pid →
  MockClaudeClient.project_files pid' (set_remote (map_set fst (pid, files) remote0) w)
  = snd <$> map_get fst pid' remote0.
Proof.
  intros Hne. unfold MockClaudeClient.project_files. simpl.
  by rewrite (map_get_map_set_ne fst (pid, files)) by (simpl; congruence).
Qed.

(** X11. A file uploaded to the mock client's store is served back: the
    file that [uploadKnowledgeFile] returns carries the given path and
    content and the time of the upload; [getKnowledgeFile] with its id
    returns it and [listKnowledgeFiles] lists it. Files with another id,
    even of the same path, stay as they were, as do the other projects,
    the local files and the database. For a project that the store does
    not know the upload throws and changes nothing. *)
Theorem uploaded_file_is_served E pid filePath text w :
  match MockClaudeClient.project_files pid w with
  | None =>
      MockClaudeClient.uploadKnowledgeFile E pid filePath text w
      = (Throw ("Project with ID " +:+ pid +:+ " not found"), w)
  | Some before =>
      ∃ file w',
        MockClaudeClient.uploadKnowledgeFile E pid filePath text w = (Ok file, w') ∧
        file.(kf_path) = filePath ∧ file.(kf_content) = Some text ∧
        file.(kf_updatedAt) = w.(clock) ∧
        MockClaudeClient.getKnowledgeFile pid file.(kf_id) w' = (Ok file, w') ∧
        (∃ files, MockClaudeClient.listKnowledgeFiles pid w' = (Ok files, w') ∧ file ∈ files ∧
                  ∀ f, f ∈ before → f.(kf_id) ≠ file.(kf_id) → f ∈ files) ∧
        (∀ fid, fid ≠ file.(kf_id) →
                (MockClaudeClient.getKnowledgeFile pid fid w').1
                = (MockClaudeClient.getKnowledgeFile pid fid w).1) ∧
        (∀ pid', pid' ≠ pid →
                 MockClaudeClient.project_files pid' w' = MockClaudeClient.project_files pid' w) ∧
        w'.(fs) = w.(fs) ∧ w'.(db) = w.(db)
  end.
Proof.
  destruct (MockClaudeClient.project_files pid w) as [before|] eqn:Hfiles.
  - destruct (MockClaudeClient.uploadKnowledgeFile E pid filePath text w) as [r w'] eqn:Hrun.
    assert (∃ file, r = Ok file) as [file ->].
    { revert Hrun. unfold MockClaudeClient.uploadKnowledgeFile, bind, get_world.
      rewrite Hfiles. unfold new_Date, randomBytes, modify, ret. simpl.
      intros [= <- _]. by eexists. }
    exists file, w'. split; [done|].
    apply uploadKnowledgeFile_Ok in Hrun as (files & Hfiles' & Hfile & ->).
    assert (files = before) as -> by congruence.
    split; [by rewrite Hfile|]. split; [by rewrite Hfile|]. split; [by rewrite Hfile|].
    split; [|split; [|split; [|split; [|done]]]].
    + unfold MockClaudeClient.getKnowledgeFile. rewrite project_files_set.
      by rewrite (map_get_map_set_eq kf_id).
    + exists (map_set kf_id file before). unfold MockClaudeClient.listKnowledgeFiles.
      rewrite project_files_set. split; [done|]. split.
      * destruct (map_get_Some kf_id _ _ _ (map_get_map_set_eq kf_id file before)) as [? _].
        done.
      * intros f Hf Hid.
        destruct (map_get_elem kf_id f before Hf) as [f' Hget].
        rewrite <- (map_get_map_set_ne kf_id file) in Hget by done.
        apply map_get_Some in Hget as [Hin' Hid'].
        clear -Hf Hid. induction before as [|x l IH]; [by apply elem_of_nil in Hf|].
        cbn [map_set]. destruct (decide (kf_id x = kf_id file)) as [Heq|Hne].
        -- apply elem_of_cons in Hf as [->|Hf]; [congruence|]. by right.
        -- apply elem_of_cons in Hf as [->|Hf]; [left|right; by apply IH].
    + intros fid Hfid. unfold MockClaudeClient.getKnowledgeFile.
      rewrite project_files_set, Hfiles.
      rewrite (map_get_map_set_ne kf_id) by done. by destruct (map_get kf_id fid before).
    + intros pid' Hpid. by rewrite project_files_set_ne.
  - unfold MockClaudeClient.uploadKnowledgeFile, bind, get_world. by rewrite Hfiles.
Qed.

(** X12. [deleteKnowledgeFile] succeeds exactly when [getKnowledgeFile]
    finds the file, and throws the same error when it does not, leaving the
    store as it was. After a successful delete the file is not found any
    more, the other files of the project are served as before, and the
    other projects, the local files and the database are untouched. *)
Theorem deleted_remote_file_is_gone pid fid w :
  match MockClaudeClient.getKnowledgeFile pid fid w with
  | (Throw message, _) => MockClaudeClient.deleteKnowledgeFile pid fid w = (Throw message, w)
  | (Ok _, _) =>
      ∃ w',
        MockClaudeClient.deleteKnowledgeFile pid fid w = (Ok tt, w') ∧
        MockClaudeClient.getKnowledgeFile pid fid w'
        = (Throw ("File with ID " +:+ fid +:+ " not found in project " +:+ pid), w') ∧
        (∀ fid', fid' ≠ fid →
                 (MockClaudeClient.getKnowledgeFile pid fid' w').1
                 = (MockClaudeClient.getKnowledgeFile pid fid' w).1) ∧
        (∀ pid', pid' ≠ pid →
                 MockClaudeClient.project_files pid' w' = MockClaudeClient.project_files pid' w) ∧
        w'.(fs) = w.(fs) ∧ w'.(db) = w.(db)
  end.
Proof.
  unfold MockClaudeClient.getKnowledgeFile at 1, MockClaudeClient.deleteKnowledgeFile.
  destruct (MockClaudeClient.project_files pid w) as [files|] eqn:Hfiles; [|done].
  destruct (map_get kf_id fid files) as [file|] eqn:Hget; [|done].
  eexists. split; [done|]. split; [|split; [|split; [|done]]].
  - unfold MockClaudeClient.getKnowledgeFile. rewrite project_files_set.
    by rewrite map_get_map_delete_eq.
  - intros fid' Hfid. unfold MockClaudeClient.getKnowledgeFile.
    rewrite project_files_set, Hfiles.
    rewrite map_get_map_delete_ne by congruence. by destruct (map_get kf_id fid' files).
  - intros pid' Hpid. by rewrite project_files_set_ne.
Qed.

(** ** The validator *)



Lemma inspectRemoteFile_spec E (this : SyncValidator.t) f remoteFile w :
  w.(db).(initialized) = true →
  ∃ f', SyncValidator.inspectRemoteFile E this f remoteFile w = (Ok f', w) ∧
    f'.(SyncValidator.found_issues) = f.(SyncValidator.found_issues) ∧
    f'.(SyncValidator.found_conflicts)
    = f.(SyncValidator.found_conflicts) ++ remote_flags E this w remoteFile.
Proof.
  intros Hinit. unfold remote_flags, SyncValidator.inspectRemoteFile.
  rewrite !(bind_run _ _ _ _ _ (getFileState_idle _ _ _ Hinit)).
  destruct (map_get _ _ _) as [st|];
    [|eexists; split; [done|]; split; [done|]; by rewrite app_nil_r].
  case_bool_decide; [|eexists; split; [done|]; split; [done|]; by rewrite app_nil_r].
  unfold try_catch, bind, fs_stat.
  destruct (fs w !! _) as [n|]; [|by eexists].
  case_bool_decide; by eexists.
Qed.

Lemma fold_each_conflicts {A} (l : list A) (flags : A → list SyncValidator.ConflictInfo)
  (body : SyncValidator.Findings → A → M SyncValidator.Findings) w :
  (∀ f x, ∃ f', body f x w = (Ok f', w) ∧
     f'.(SyncValidator.found_issues) = f.(SyncValidator.found_issues) ∧
     f'.(SyncValidator.found_conflicts) = f.(SyncValidator.found_conflicts) ++ flags x) →
  ∀ f, ∃ f', fold_each l body f w = (Ok f', w) ∧
     f'.(SyncValidator.found_issues) = f.(SyncValidator.found_issues) ∧
     f'.(SyncValidator.found_conflicts)
     = f.(SyncValidator.found_conflicts) ++ concat (flags <$> l).
Proof.
  intros Hbody. induction l as [|x l IH]; intros f; simpl.
  - exists f. by rewrite app_nil_r.
  - destruct (Hbody f x) as (f1 & Hrun & Hi1 & Hf1). rewrite (bind_run _ _ _ _ _ Hrun).
    destruct (IH f1) as (f' & Hrun' & Hi' & Hf'). exists f'. split; [done|].
    split; [congruence|]. by rewrite Hf', Hf1, <- app_assoc.
Qed.

(** X14. How [validateRemoteFiles] classifies a remote change. For every
    remote file whose path has a record and whose update time is later
    than the last sync of the record, exactly one conflict is added, and
    its type is [local_deleted] when nothing is at the local path,
    [both_modified] when the local modification time is later than the last
    sync too, and [remote_newer] otherwise: a change on the remote side
    alone is reported as a conflict as well. Remote files without a record,
    or not updated since the last sync, add none. *)
Theorem remote_change_is_classified E (this : SyncValidator.t) f w remoteFiles :
  w.(db).(initialized) = true →
  MockClaudeClient.listKnowledgeFiles this.(SyncValidator.projectId) w = (Ok remoteFiles, w) →
  ∃ f',
    SyncValidator.validateRemoteFiles E this f w = (Ok f', w) ∧
    f'.(SyncValidator.found_issues) = f.(SyncValidator.found_issues) ∧
    f'.(SyncValidator.found_conflicts)
    = f.(SyncValidator.found_conflicts) ++ concat (remote_flags E this w <$> remoteFiles) ∧
    ∀ remoteFile, remoteFile ∈ remoteFiles →
      match (JsonSyncStateDatabase.getFileState this.(SyncValidator.projectId)
               remoteFile.(kf_path) w).1 with
      | Ok (Some st) =>
          if bool_decide (remoteFile.(kf_updatedAt) > st.(SyncState.lastSyncTime)) then
            ∃ k, remote_flags E this w remoteFile = [k] ∧
              k.(SyncValidator.filePath) = remoteFile.(kf_path) ∧
              k.(SyncValidator.conflictType)
              = match w.(fs) !! resolve E (path_join this.(SyncValidator.localPath)
                                             remoteFile.(kf_path)) with
                | None => SyncValidator.local_deleted
                | Some n =>
                    if bool_decide (node_mtime n > st.(SyncState.lastSyncTime))
                    then SyncValidator.both_modified
                    else SyncValidator.remote_newer
                end
          else remote_flags E this w remoteFile = []
      | _ => remote_flags E this w remoteFile = []
      end.
Proof.
  intros Hinit Hlist.
  unfold SyncValidator.validateRemoteFiles, try_catch.
  rewrite (bind_run _ _ _ _ _ Hlist).
  destruct (fold_each_conflicts remoteFiles (remote_flags E this w)
              (SyncValidator.inspectRemoteFile E this) w
              (λ f x, inspectRemoteFile_spec E this f x w Hinit)
              (SyncValidator.with_stats
                 (SyncValidator.set_remoteFiles (Z.of_nat (length remoteFiles))) f))
    as (f' & Hrun & Hissues & Hconf).
  rewrite Hrun. exists f'. split; [done|]. split; [done|]. split; [done|].
  intros remoteFile _. rewrite (getFileState_idle _ _ _ Hinit). simpl.
  unfold remote_flags, SyncValidator.inspectRemoteFile.
  rewrite !(bind_run _ _ _ _ _ (getFileState_idle _ _ _ Hinit)).
  destruct (map_get _ _ _) as [st|]; [|done].
  case_bool_decide; [|done].
  unfold try_catch, bind, fs_stat.
  destruct (fs w !! _) as [n|]; [|by eexists].
  case_bool_decide; by eexists.
Qed.

(** ** The run as a whole *)

Lemma sync_cases E (this : SafeSync.t) w :
  ∃ r w', SafeSync.sync E this w = (Ok r, w') ∧ sync_case E this w r w'.
Proof.
  destruct (initialize_opens w) as [_ Hinit].
  destruct (sync_steps E this w) as (checked & Hcheck & Hsteps).
  destruct checked as [result|result].
  { eexists _, _. split; [exact Hsteps|]. by eapply run_stopped. }
  destruct (SafeSync.planAndResolve E this result (open_world w))
    as [[planned|e] wp] eqn:Hplan;
    pose proof (quiet_planAndResolve E this _ _ _ _ Hinit Hplan) as ->.
  - destruct (SafeSync.dryRun _) eqn:Hdry.
    + eexists _, _. split; [exact Hsteps|].
      eapply (run_planned _ _ _ _ _ result planned planned (open_world w)); try done.
      by rewrite Hdry.
    + destruct Hsteps as (executed & w2 & Hexec & Hinit2 & Hsteps).
      eexists _, _. split; [exact Hsteps|].
      eapply (run_planned _ _ _ _ _ result planned executed w2); try done.
      by rewrite Hdry.
  - eexists _, _. split; [exact Hsteps|]. by eapply run_failed.
Qed.

Lemma sync_case_of E (this : SafeSync.t) w r w' :
  SafeSync.sync E this w = (Ok r, w') → sync_case E this w r w'.
Proof.
  intros Hrun. destruct (sync_cases E this w) as (r0 & w0 & Hrun0 & Hcase). congruence.
Qed.

Lemma planAndResolve_errors E this r w planned w' :
  SafeSync.planAndResolve E this r w = (Ok planned, w') →
  planned.(SafeSync.errors) = r.(SafeSync.errors).
Proof.
  unfold SafeSync.planAndResolve, SafeSync.planOperations. intros Hrun.
  apply bind_Ok in Hrun as (r1 & w1 & Hplan & Hrun).
  apply bind_Ok in Hplan as (ups & w2 & _ & Hplan).
  apply bind_Ok in Hplan as (downs & w3 & _ & Hplan). injection Hplan as <- _.
  simpl in Hrun. destruct (SafeSync.validationResult r) as [v|]; [|by injection Hrun as <- _].
  case_bool_decide; injection Hrun as <- _; [|done].
  by rewrite handleConflicts_errors.
Qed.




Lemma planOperations_types E (this : SafeSync.t) result w r' w' :
  w.(db).(initialized) = true →
  SafeSync.planOperations E this result w = (Ok r', w') →
  ∀ op, op ∈ r'.(SafeSync.operations) →
    (op.(SafeSync.type) = SafeSync.upload ∧ uploads_on this)
    ∨ (op.(SafeSync.type) = SafeSync.download ∧ downloads_on this).
Proof.
  intros Hinit Hrun. unfold SafeSync.planOperations in Hrun.
  apply bind_Ok in Hrun as (ups & w1 & Hups & Hrun).
  apply bind_Ok in Hrun as (downs & w2 & Hdowns & Hrun). injection Hrun as <- _.
  simpl. intros op [Hop|Hop]%elem_of_app.
  - left. case_decide_in Hups; [|injection Hups as <- _; by apply elem_of_nil in Hop].
    split; [|done].
    apply planUploadOperations_Ok in Hups as (-> & files & _ & ->); [|done].
    apply list_elem_of_omap in Hop as (x & _ & Hx). unfold upload_for in Hx.
    repeat case_match; by simplify_eq.
  - right.
    assert (w1 = w) as ->.
    { case_decide_in Hups; [|by injection Hups as _ <-].
      by apply planUploadOperations_Ok in Hups as (-> & _). }
    case_decide_in Hdowns; [|injection Hdowns as <- _; by apply elem_of_nil in Hop].
    split; [|done].
    apply planDownloadOperations_Ok in Hdowns as (-> & files & _ & ->); [|done].
    apply list_elem_of_omap in Hop as (x & _ & Hx). unfold download_for in Hx.
    repeat case_match; by simplify_eq.
Qed.

Lemma planAndResolve_types E (this : SafeSync.t) result w planned w' :
  w.(db).(initialized) = true →
  SafeSync.planAndResolve E this result w = (Ok planned, w') →
  ∀ op, op ∈ planned.(SafeSync.operations) →
    (op.(SafeSync.type) = SafeSync.upload ∧ uploads_on this)
    ∨ (op.(SafeSync.type) = SafeSync.download ∧ downloads_on this).
Proof.
  intros Hinit Hrun op Hop. unfold SafeSync.planAndResolve in Hrun.
  apply bind_Ok in Hrun as (r1 & w1 & Hplan & Hrun).
  pose proof (planOperations_types _ _ _ _ _ _ Hinit Hplan) as Htypes.
  assert (∃ op1, op1 ∈ r1.(SafeSync.operations) ∧ shape op1 = shape op) as (op1 & Hop1 & Hs).
  { destruct (SafeSync.validationResult r1) as [v|];
      [|injection Hrun as <- _; by exists op].
    case_bool_decide; injection Hrun as <- _; [|by exists op].
    assert (shape op ∈ shape <$> (SafeSync.handleConflicts this (SyncValidator.conflicts v) r1)
                                   .(SafeSync.operations)) as Hin.
    { apply list_elem_of_fmap. by exists op. }
    apply handleConflicts_shapes in Hin as [Hin _].
    apply list_elem_of_fmap in Hin as (op1 & ? & ?). by exists op1. }
  injection Hs as Hty _. rewrite <- Hty. by apply Htypes.
Qed.

Lemma sync_operations E (this : SafeSync.t) w r w' :
  SafeSync.sync E this w = (Ok r, w') →
  r.(SafeSync.operations) = [] ∨
  ∃ result planned,
    SafeSync.preSyncValidation E this (SafeSync.initial_result this) (open_world w)
    = (Ok (inr result), open_world w) ∧
    SafeSync.planAndResolve E this result (open_world w) = (Ok planned, open_world w) ∧
    r.(SafeSync.operations) = planned.(SafeSync.operations).
Proof.
  intros Hrun. apply sync_case_of in Hrun.
  destruct Hrun as [result Hcheck -> _|result message Hcheck Hplan -> _
                   |result planned executed w2 Hcheck Hplan Hexec _ -> _].
  - left. by destruct (preSyncValidation_lists _ _ _ _ _ _ Hcheck) as (-> & _).
  - left. by destruct (preSyncValidation_lists _ _ _ _ _ _ Hcheck) as (Ho & _).
  - right. exists result, planned. split; [done|]. split; [done|]. simpl.
    destruct (SafeSync.dryRun _); [by destruct Hexec as [-> _]|].
    destruct (execute_each_spec E this planned.(SafeSync.operations) planned (open_world w))
      as (r' & w3 & Hexec' & Hops & _).
    unfold SafeSync.executeOperations in Hexec. rewrite Hexec in Hexec'.
    by injection Hexec' as <- _.
Qed.

(** X16. The plan follows the direction and never deletes: every operation
    listed in the result of [sync] is an upload or a download, uploads are
    listed only when the direction is [upload] or [both], and downloads
    only when it is [download] or [both]. No [delete_local] and no
    [delete_remote] operation is ever planned. *)
Theorem plan_follows_the_direction E (this : SafeSync.t) w r w' :
  SafeSync.sync E this w = (Ok r, w') →
  ∀ op, op ∈ r.(SafeSync.operations) →
    match op.(SafeSync.type) with
    | SafeSync.upload =>
        this.(SafeSync.options).(SafeSync.direction) = SyncState.upload
        ∨ this.(SafeSync.options).(SafeSync.direction) = both
    | SafeSync.download =>
        this.(SafeSync.options).(SafeSync.direction) = SyncState.download
        ∨ this.(SafeSync.options).(SafeSync.direction) = both
    | SafeSync.delete_local | SafeSync.delete_remote => False
    end.
Proof.
  intros Hrun op Hop.
  destruct (sync_operations _ _ _ _ _ Hrun) as [Hnil|(result & planned & _ & Hplan & Hops)].
  { rewrite Hnil in Hop. by apply elem_of_nil in Hop. }
  rewrite Hops in Hop.
  destruct (initialize_opens w) as [_ Hinit].
  by destruct (planAndResolve_types _ _ _ _ _ _ Hinit Hplan op Hop) as [[-> ?]|[-> ?]].
Qed.

Lemma plan_follows_the_direction_witness :
  ∃ r w',
    SafeSync.sync sound_env engine fresh_world = (Ok r, w') ∧
    SafeSync.type <$> r.(SafeSync.operations) = [SafeSync.upload; SafeSync.download] ∧
    ∀ op, op ∈ r.(SafeSync.operations) →
      match op.(SafeSync.type) with
      | SafeSync.upload =>
          engine.(SafeSync.options).(SafeSync.direction) = SyncState.upload
          ∨ engine.(SafeSync.options).(SafeSync.direction) = both
      | SafeSync.download =>
          engine.(SafeSync.options).(SafeSync.direction) = SyncState.download
          ∨ engine.(SafeSync.options).(SafeSync.direction) = both
      | SafeSync.delete_local | SafeSync.delete_remote => False
      end.
Proof.
  destruct (sync_cases sound_env engine fresh_world) as (r & w' & Hrun & _).
  exists r, w'. split; [exact Hrun|]. split.
  - vm_compute in Hrun. by injection Hrun as <- _.
  - exact (plan_follows_the_direction sound_env engine fresh_world r w' Hrun).
Defined.

(** ** Conflicts and the plan *)

Lemma handleConflict_stats policy r c :
  (SafeSync.handleConflict policy r c).(SafeSync.stats).(SafeSync.conflictsResolved)
  = r.(SafeSync.stats).(SafeSync.conflictsResolved) + 1 ∧
  (SafeSync.handleConflict policy r c).(SafeSync.stats).(SafeSync.totalOperations)
  = r.(SafeSync.stats).(SafeSync.totalOperations).
Proof. by destruct policy. Qed.

Lemma handleConflicts_stats (this : SafeSync.t) cs r :
  (SafeSync.handleConflicts this cs r).(SafeSync.stats).(SafeSync.conflictsResolved)
  = r.(SafeSync.stats).(SafeSync.conflictsResolved) + Z.of_nat (length cs) ∧
  (SafeSync.handleConflicts this cs r).(SafeSync.stats).(SafeSync.totalOperations)
  = r.(SafeSync.stats).(SafeSync.totalOperations).
Proof.
  unfold SafeSync.handleConflicts. revert r. induction cs as [|c cs IH]; intros r.
  - simpl. split; [lia|done].
  - cbn [foldl]. destruct (IH (SafeSync.handleConflict
                                 (SafeSync.conflictResolution (SafeSync.options this)) r c))
      as [-> ->].
    destruct (handleConflict_stats (SafeSync.conflictResolution (SafeSync.options this)) r c)
      as [-> ->].
    split; [|done]. rewrite length_cons. lia.
Qed.

Lemma handleConflicts_filter (this : SafeSync.t) (P : string → SafeSync.SyncOperation → Prop)
  `{∀ p op, Decision (P p op)} cs r :
  (∀ r c, (SafeSync.handleConflict this.(SafeSync.options).(SafeSync.conflictResolution) r c)
            .(SafeSync.operations)
          = filter (P c.(SyncValidator.filePath)) r.(SafeSync.operations)) →
  (SafeSync.handleConflicts this cs r).(SafeSync.operations)
  = filter (λ op, Forall (λ p, P p op) (SyncValidator.filePath <$> cs))
           r.(SafeSync.operations).
Proof.
  intros Hone. unfold SafeSync.handleConflicts. revert r.
  induction cs as [|c cs IH]; intros r.
  - simpl. symmetry. apply filter_all. intros op _. apply Forall_nil_2.
  - cbn [foldl]. rewrite IH, Hone, list_filter_filter.
    apply filter_iff_in. intros op _. rewrite fmap_cons, Forall_cons. tauto.
Qed.

(** X17. What each conflict policy does to the plan. With [skip], and
    with [ask], which is not implemented and acts as [skip], every
    operation on a conflicted path is dropped; with [local_wins] the
    downloads on conflicted paths are dropped, with [remote_wins] the
    uploads; with [backup_and_merge] every operation stays, in place and
    with its type and path. The operations that stay keep their order.
    Every conflict is counted as resolved, dropped or not, and the count
    [totalOperations] stays at the size of the plan before the policy was
    applied. *)
Theorem conflict_policy_on_the_plan (this : SafeSync.t) conflicts r :
  let paths := SyncValidator.filePath <$> conflicts in
  let r' := SafeSync.handleConflicts this conflicts r in
  match this.(SafeSync.options).(SafeSync.conflictResolution) with
  | SafeSync.skip | SafeSync.ask =>
      r'.(SafeSync.operations)
      = filter (λ op, op.(SafeSync.filePath) ∉ paths) r.(SafeSync.operations)
  | SafeSync.local_wins =>
      r'.(SafeSync.operations)
      = filter (λ op, ¬ (op.(SafeSync.type) = SafeSync.download ∧ op.(SafeSync.filePath) ∈ paths))
               r.(SafeSync.operations)
  | SafeSync.remote_wins =>
      r'.(SafeSync.operations)
      = filter (λ op, ¬ (op.(SafeSync.type) = SafeSync.upload ∧ op.(SafeSync.filePath) ∈ paths))
               r.(SafeSync.operations)
  | SafeSync.backup_and_merge =>
      (λ op, (op.(SafeSync.type), op.(SafeSync.filePath))) <$> r'.(SafeSync.operations)
      = (λ op, (op.(SafeSync.type), op.(SafeSync.filePath))) <$> r.(SafeSync.operations)
  end ∧
  r'.(SafeSync.stats).(SafeSync.conflictsResolved)
  = r.(SafeSync.stats).(SafeSync.conflictsResolved) + Z.of_nat (length conflicts) ∧
  r'.(SafeSync.stats).(SafeSync.totalOperations) = r.(SafeSync.stats).(SafeSync.totalOperations) ∧
  r'.(SafeSync.errors) = r.(SafeSync.errors).
Proof.
  intros paths r'. split; [|split; [apply handleConflicts_stats|split;
    [apply handleConflicts_stats|apply handleConflicts_errors]]].
  subst r' paths.
  destruct (SafeSync.conflictResolution (SafeSync.options this)) eqn:Hpolicy.
  - rewrite (handleConflicts_filter this (λ p op, op.(SafeSync.filePath) ≠ p))
      by (intros r0 c; by rewrite Hpolicy).
    apply filter_iff_in. intros op _. split.
    + rewrite Forall_forall. intros Hall Hin. by apply (Hall _ Hin).
    + rewrite Forall_forall. intros Hnot p Hp <-. done.
  - rewrite (handleConflicts_filter this (λ p op, op.(SafeSync.filePath) ≠ p))
      by (intros r0 c; by rewrite Hpolicy).
    apply filter_iff_in. intros op _. split.
    + rewrite Forall_forall. intros Hall Hin. by apply (Hall _ Hin).
    + rewrite Forall_forall. intros Hnot p Hp <-. done.
  - rewrite (handleConflicts_filter this
               (λ p op, ¬ (op.(SafeSync.type) = SafeSync.download ∧ op.(SafeSync.filePath) = p)))
      by (intros r0 c; by rewrite Hpolicy).
    apply filter_iff_in. intros op _. split.
    + rewrite Forall_forall. intros Hall [Hty Hin]. by apply (Hall _ Hin).
    + rewrite Forall_forall. intros Hnot p Hp [Hty <-]. by apply Hnot.
  - rewrite (handleConflicts_filter this
               (λ p op, ¬ (op.(SafeSync.type) = SafeSync.upload ∧ op.(SafeSync.filePath) = p)))
      by (intros r0 c; by rewrite Hpolicy).
    apply filter_iff_in. intros op _. split.
    + rewrite Forall_forall. intros Hall [Hty Hin]. by apply (Hall _ Hin).
    + rewrite Forall_forall. intros Hnot p Hp [Hty <-]. by apply Hnot.
  - unfold SafeSync.handleConflicts. rewrite Hpolicy. revert r.
    induction conflicts as [|c cs IH]; intros r; [done|].
    cbn [foldl]. rewrite IH. simpl. apply require_backup_shapes.
Qed.

Lemma getFileState_state_at pid p w :
  (JsonSyncStateDatabase.getFileState pid p w).1 = Ok (state_at pid (open_world w) p).
Proof. by rewrite getFileState_opened. Qed.

(** The conflict paths that the plan of a run is filtered with. *)
Lemma sync_plan_shapes E pid root opts w r w' :
  root ≠ "" →
  opts.(SafeSync.validation).(SafeSync.enabled) = true →
  SafeSync.sync E (SafeSync.new E pid root opts) w = (Ok r, w') →
  ∀ op, op ∈ r.(SafeSync.operations) →
    ∃ v absent,
      plan_due E (SafeSync.new E pid root opts) (open_world w) (shape op) ∧
      survives opts.(SafeSync.conflictResolution)
        (SyncValidator.filePath <$> v.(SyncValidator.conflicts)) (shape op) ∧
      SyncValidator.filePath <$> v.(SyncValidator.conflicts)
      = (if bool_decide (opts.(SafeSync.direction) = SyncState.upload
                         ∨ opts.(SafeSync.direction) = both)
         then local_part E (SafeSync.new E pid root opts).(SafeSync.validator) (open_world w)
         else [])
        ++ (if bool_decide (opts.(SafeSync.direction) = SyncState.download
                            ∨ opts.(SafeSync.direction) = both)
            then remote_part (SafeSync.new E pid root opts).(SafeSync.validator) (open_world w)
            else [])
        ++ absent ∧
      (uploads_on (SafeSync.new E pid root opts) →
       ∃ files, SafeSync.getLocalFiles E (SafeSync.new E pid root opts) (open_world w)
                = (Ok files, open_world w)).
Proof.
  intros Hroot Hon Hrun op Hop.
  destruct (initialize_opens w) as [_ Hinit].
  destruct (sync_operations _ _ _ _ _ Hrun) as [Hnil|(result & planned & Hcheck & Hplan & Hops)].
  { rewrite Hnil in Hop. by apply elem_of_nil in Hop. }
  rewrite Hops in Hop.
  apply preSyncValidation_facts in Hcheck as (_ & _ & Hv).
  cbn [SafeSync.new SafeSync.options] in Hv. rewrite Hon in Hv.
  destruct Hv as (v & Hval & Hres).
  destruct (planAndResolve_shapes E (SafeSync.new E pid root opts) _ _ _ _ Hroot Hinit Hplan)
    as (_ & Hshapes & _ & Hscan & _).
  assert (shape op ∈ shape <$> planned.(SafeSync.operations)) as Hin.
  { apply list_elem_of_fmap. by exists op. }
  apply Hshapes in Hin as [Hdue Hsurvives].
  unfold conflict_paths in Hsurvives. rewrite Hres in Hsurvives.
  destruct (validate_paths _ _ _ _ _ _ Hinit Hval) as (absent & Hpaths & _).
  exists v, absent. done.
Qed.

(** X18. With the policies [ask] (the default), [skip] and [local_wins],
    and validation enabled, a run never downloads a file that it tracks:
    every download listed in the result of [sync] is of a path that had no
    record in the database when the run began. A remote file that changed
    after its last sync is reported by the validator as a conflict, and
    these policies drop its download from the plan. *)
Theorem tracked_remote_changes_are_not_downloaded E pid root opts w r w' :
  root ≠ "" →
  opts.(SafeSync.validation).(SafeSync.enabled) = true →
  opts.(SafeSync.conflictResolution) = SafeSync.ask
  ∨ opts.(SafeSync.conflictResolution) = SafeSync.skip
  ∨ opts.(SafeSync.conflictResolution) = SafeSync.local_wins →
  SafeSync.sync E (SafeSync.new E pid root opts) w = (Ok r, w') →
  ∀ op, op ∈ r.(SafeSync.operations) →
    op.(SafeSync.type) = SafeSync.download →
    (JsonSyncStateDatabase.getFileState pid op.(SafeSync.filePath) w).1 = Ok None.
Proof.
  intros Hroot Hon Hpolicy Hrun op Hop Hty.
  destruct (sync_plan_shapes _ _ _ _ _ _ _ Hroot Hon Hrun op Hop)
    as (v & absent & Hdue & Hsurvives & Hpaths & _).
  rewrite getFileState_state_at.
  unfold plan_due, shape in Hdue. rewrite Hty in Hdue. cbn [fst snd] in Hdue.
  destruct Hdue as (Hdown & rf & Hrf & Hnew). cbn [SafeSync.new SafeSync.projectId] in Hrf, Hnew.
  destruct (state_at pid (open_world w) (SafeSync.filePath op)) as [st|] eqn:Hst; [|done].
  exfalso.
  assert (SafeSync.filePath op ∈ SyncValidator.filePath <$> v.(SyncValidator.conflicts))
    as Hin.
  { rewrite Hpaths. apply elem_of_app. right. apply elem_of_app. left.
    rewrite bool_decide_eq_true_2 by exact Hdown.
    apply elem_of_remote_part. exists rf, st. done. }
  unfold survives, shape in Hsurvives. cbn [fst snd] in Hsurvives.
  destruct Hpolicy as [Hp|[Hp|Hp]]; rewrite Hp in Hsurvives; tauto.
Qed.

(** X19. With the policies [ask] (the default), [skip] and [remote_wins],
    and validation enabled, an upload of a tracked file is listed only if
    the validator did not see a conflict in it: the file is one that the
    validator does not scan, or its record has no remote time, or its
    modification time is not later than the last sync of the record. A
    tracked file edited after its last sync, whose record came from an
    earlier upload or download, is therefore not uploaded. *)
Theorem tracked_local_changes_are_not_uploaded E pid root opts w r w' :
  root ≠ "" →
  opts.(SafeSync.validation).(SafeSync.enabled) = true →
  opts.(SafeSync.conflictResolution) = SafeSync.ask
  ∨ opts.(SafeSync.conflictResolution) = SafeSync.skip
  ∨ opts.(SafeSync.conflictResolution) = SafeSync.remote_wins →
  SafeSync.sync E (SafeSync.new E pid root opts) w = (Ok r, w') →
  ∀ op st, op ∈ r.(SafeSync.operations) →
    op.(SafeSync.type) = SafeSync.upload →
    (JsonSyncStateDatabase.getFileState pid op.(SafeSync.filePath) w).1 = Ok (Some st) →
    ∃ f, w.(fs) !! resolve E (path_join root op.(SafeSync.filePath)) = Some (File f) ∧
         E.(sha256) f.(content) ≠ st.(SyncState.localHash) ∧
         (SyncValidator.kept op.(SafeSync.filePath) = false
          ∨ st.(SyncState.remoteMtime) = None
          ∨ f.(mtime) ≤ st.(SyncState.lastSyncTime)).
Proof.
  intros Hroot Hon Hpolicy Hrun op st Hop Hty Hst.
  destruct (sync_plan_shapes _ _ _ _ _ _ _ Hroot Hon Hrun op Hop)
    as (v & absent & Hdue & Hsurvives & Hpaths & Hscan).
  rewrite getFileState_state_at in Hst. injection Hst as Hst.
  unfold plan_due, shape in Hdue. rewrite Hty in Hdue. cbn [fst snd] in Hdue.
  destruct Hdue as (Hup & _ & f & Hloc & Hread & Hhash).
  cbn [SafeSync.new SafeSync.projectId SafeSync.localPath] in Hloc, Hhash.
  rewrite Hst in Hhash.
  exists f. split; [exact Hloc|]. split; [exact Hhash|].
  destruct (SyncValidator.kept (SafeSync.filePath op)) eqn:Hkept; [|by left].
  destruct (SyncState.remoteMtime st) as [rm|] eqn:Hrm; [|right; by left].
  destruct (decide (mtime f ≤ SyncState.lastSyncTime st)) as [?|Hnewer]; [right; by right|].
  exfalso.
  assert (SafeSync.filePath op ∈ SyncValidator.filePath <$> v.(SyncValidator.conflicts))
    as Hin.
  { rewrite Hpaths. apply elem_of_app. left.
    rewrite bool_decide_eq_true_2 by exact Hup.
    destruct (Hscan Hup) as (files & Hfiles).
    assert (∃ files', scanDirectory E root (λ _, true) (open_world w)
                      = (Ok files', open_world w)) as (files' & Hfiles').
    { unfold SafeSync.getLocalFiles, scanDirectory in *. cbn [SafeSync.new SafeSync.localPath] in Hfiles.
      destruct (fs (open_world w) !! _) as [[?|?]|]; [done|by eexists..]. }
    apply (conflict_local_part _ _ _ _ files'); [done|done|].
    split; [done|]. exists f, st. cbn [SafeSync.new SafeSync.validator SyncValidator.localPath
                                        SyncValidator.projectId].
    split; [done|]. split; [done|]. split; [done|]. split; [done|].
    split; [by rewrite Hrm|lia]. }
  unfold survives, shape in Hsurvives. cbn [fst snd] in Hsurvives.
  destruct Hpolicy as [Hp|[Hp|Hp]]; rewrite Hp in Hsurvives; tauto.
Qed.

(** ** The validation gate of a run *)


Lemma work_proj_named : "/work/proj" ≠ "".
Proof. discriminate. Qed.

Lemma tracked_remote_changes_are_not_downloaded_witness :
  ∃ r w',
    SafeSync.sync sound_env (SafeSync.new sound_env "p1" "/work/proj" SafeSync.default_options)
      fresh_world = (Ok r, w') ∧
    download_of_r ∈ r.(SafeSync.operations) ∧
    (JsonSyncStateDatabase.getFileState "p1" download_of_r.(SafeSync.filePath) fresh_world).1
    = Ok None.
Proof.
  destruct (sync_cases sound_env (SafeSync.new sound_env "p1" "/work/proj"
                                    SafeSync.default_options) fresh_world)
    as (r & w' & Hrun & _).
  assert (download_of_r ∈ r.(SafeSync.operations)) as Hop.
  { pose proof Hrun as Hrun'. vm_compute in Hrun'. injection Hrun' as Hr _.
    rewrite <- Hr. right. left. }
  exists r, w'. split; [exact Hrun|]. split; [exact Hop|].
  exact (tracked_remote_changes_are_not_downloaded sound_env "p1" "/work/proj"
           SafeSync.default_options fresh_world r w' work_proj_named eq_refl
           (or_introl eq_refl) Hrun download_of_r Hop eq_refl).
Defined.

Lemma tracked_local_changes_are_not_uploaded_witness :
  ∃ r w' f,
    SafeSync.sync sound_env (SafeSync.new sound_env "p1" "/work/proj" SafeSync.default_options)
      stale_world = (Ok r, w') ∧
    upload_of_a ∈ r.(SafeSync.operations) ∧
    (JsonSyncStateDatabase.getFileState "p1" upload_of_a.(SafeSync.filePath) stale_world).1
    = Ok (Some tracked_entry) ∧
    stale_world.(fs) !! resolve sound_env (path_join "/work/proj" upload_of_a.(SafeSync.filePath))
    = Some (File f) ∧
    (SyncValidator.kept upload_of_a.(SafeSync.filePath) = false
     ∨ tracked_entry.(SyncState.remoteMtime) = None
     ∨ f.(mtime) ≤ tracked_entry.(SyncState.lastSyncTime)).
Proof.
  destruct (sync_cases sound_env (SafeSync.new sound_env "p1" "/work/proj"
                                    SafeSync.default_options) stale_world)
    as (r & w' & Hrun & _).
  assert (upload_of_a ∈ r.(SafeSync.operations)) as Hop.
  { pose proof Hrun as Hrun'. vm_compute in Hrun'. injection Hrun' as Hr _.
    rewrite <- Hr. left. }
  destruct (tracked_local_changes_are_not_uploaded sound_env "p1" "/work/proj"
              SafeSync.default_options stale_world r w' work_proj_named eq_refl
              (or_introl eq_refl) Hrun upload_of_a tracked_entry Hop eq_refl eq_refl)
    as (f & Hf & _ & Hwhy).
  exists r, w', f.
  split; [exact Hrun|]. split; [exact Hop|]. split; [reflexivity|].
  split; [exact Hf|exact Hwhy].
Defined.


Lemma report_issues_errors_exact issues r :
  (SafeSync.report_issues issues r).(SafeSync.errors)
  = r.(SafeSync.errors) ++ error_messages issues.
Proof.
  unfold SafeSync.report_issues, error_messages. revert r.
  induction issues as [|i issues IH]; intros r; simpl; [by rewrite app_nil_r|].
  rewrite IH. destruct (SyncValidator.type i) eqn:Hty.
  - rewrite filter_cons_True by done. simpl. by rewrite <- app_assoc.
  - by rewrite filter_cons_False by congruence.
  - by rewrite filter_cons_False by congruence.
Qed.

Lemma executeOne_failures E this result op w r' w' :
  SafeSync.executeOne E this result op w = (Ok r', w') →
  ∃ extra, r'.(SafeSync.errors) = result.(SafeSync.errors) ++ extra ∧
    ∀ m, m ∈ extra → ∃ op message, m = failure_message op message.
Proof.
  intros Hrun.
  destruct (backupBefore_returns E this op result w) as (result1 & w1 & Hbackup & Hsame).
  rewrite (executeOne_unfold _ _ _ _ _ _ _ Hbackup) in Hrun.
  destruct Hsame as (_ & _ & _ & Herr).
  destruct (SafeSync.executeOperation E this op result1 w1) as [[result2|message] w2] eqn:Hop;
    injection Hrun as <- <-.
  - apply executeOperation_lists in Hop as (_ & _ & _ & Herr2).
    exists []. rewrite app_nil_r. split; [simpl; congruence|]. by intros m ?%elem_of_nil.
  - exists [failure_message op message]. split; [simpl; congruence|].
    intros m ->%list_elem_of_singleton. by eexists _, _.
Qed.

Lemma execute_each_failures E this ops result w r' w' :
  fold_each ops (SafeSync.executeOne E this) result w = (Ok r', w') →
  ∃ extra, r'.(SafeSync.errors) = result.(SafeSync.errors) ++ extra ∧
    ∀ m, m ∈ extra → ∃ op message, m = failure_message op message.
Proof.
  revert result w. induction ops as [|op ops IH]; intros result w Hrun.
  - injection Hrun as <- <-. exists []. rewrite app_nil_r. split; [done|].
    by intros m ?%elem_of_nil.
  - cbn [fold_each] in Hrun. apply bind_Ok in Hrun as (r1 & w1 & Hone & Hrest).
    apply executeOne_failures in Hone as (e1 & He1 & Hf1).
    apply IH in Hrest as (e2 & He2 & Hf2). exists (e1 ++ e2).
    split; [by rewrite He2, He1, app_assoc|].
    intros m [?|?]%elem_of_app; auto.
Qed.

(** X21. With [force], the validation never stops the run, but what it
    found is not forgotten: the result of [sync] carries the messages of
    all the validator's issues of type [error], in order, at the head of
    its errors, followed by the errors of planning and execution; so a
    forced run in which the validator found an error is never a success,
    although its operations are planned and executed. *)
Theorem forced_run_keeps_the_validation_errors E (this : SafeSync.t) w r w' :
  this.(SafeSync.options).(SafeSync.validation).(SafeSync.enabled) = true →
  this.(SafeSync.options).(SafeSync.force) = true →
  SafeSync.sync E this w = (Ok r, w') →
  ∃ v later,
    SyncValidator.validate E this.(SafeSync.validator)
      this.(SafeSync.options).(SafeSync.direction) (open_world w) = (Ok v, open_world w) ∧
    r.(SafeSync.errors) = error_messages v.(SyncValidator.issues) ++ later ∧
    ("Validation failed. Use --force to override." ∉ later) ∧
    (r.(SafeSync.success) = true →
     ∀ i, i ∈ v.(SyncValidator.issues) → i.(SyncValidator.type) ≠ SyncValidator.error).
Proof.
  intros Hon Hforce Hrun.
  assert (∀ checked,
            SafeSync.preSyncValidation E this (SafeSync.initial_result this) (open_world w)
            = (Ok checked, open_world w) →
            ∃ v, SyncValidator.validate E this.(SafeSync.validator)
                   this.(SafeSync.options).(SafeSync.direction) (open_world w)
                 = (Ok v, open_world w) ∧
                 checked = inr (SafeSync.report_issues v.(SyncValidator.issues)
                                  (SafeSync.set_validationResult v
                                     (SafeSync.initial_result this)))) as Hgate.
  { intros checked Hcheck. unfold SafeSync.preSyncValidation in Hcheck.
    rewrite Hon, Hforce in Hcheck.
    apply bind_Ok in Hcheck as (v & w1 & Hval & Hcheck).
    destruct (negb (SyncValidator.canProceed v)); simpl in Hcheck;
      injection Hcheck as <- ->; by exists v. }
  assert (∀ (issues : list SyncValidator.ValidationIssue) later0,
            error_messages issues ++ later0 = [] →
            ∀ i, i ∈ issues → i.(SyncValidator.type) ≠ SyncValidator.error) as Hclean.
  { intros issues later0 [Hnil _]%app_eq_nil i Hi Hty. unfold error_messages in Hnil.
    apply fmap_nil_inv in Hnil.
    assert (i ∈ filter (λ i, SyncValidator.type i = SyncValidator.error) issues) as Hin
      by (by apply list_elem_of_filter).
    rewrite Hnil in Hin. by apply elem_of_nil in Hin. }
  apply sync_case_of in Hrun.
  destruct Hrun as [result Hcheck -> _|result message Hcheck Hplan -> _
                   |result planned executed w2 Hcheck Hplan Hexec _ -> _].
  - by destruct (Hgate _ Hcheck) as (v & _ & ?).
  - destruct (Hgate _ Hcheck) as (v & Hval & [= ->]).
    exists v, ["Sync failed: " +:+ message]. split; [done|]. split; [|split].
    + simpl. by rewrite report_issues_errors_exact.
    + by intros [= ]%list_elem_of_singleton.
    + pose proof (preSyncValidation_facts _ _ _ _ _ _ Hcheck) as (Hs & _). simpl in *.
      rewrite Hs. done.
  - destruct (Hgate _ Hcheck) as (v & Hval & [= ->]).
    pose proof (planAndResolve_errors _ _ _ _ _ _ Hplan) as Hperr.
    rewrite report_issues_errors_exact in Hperr. simpl in Hperr.
    assert (∃ later, executed.(SafeSync.errors) = planned.(SafeSync.errors) ++ later ∧
                     ("Validation failed. Use --force to override." ∉ later))
      as (later & Hlater & Hnot).
    { destruct (SafeSync.dryRun _).
      - destruct Hexec as [-> _]. exists []. rewrite app_nil_r. split; [done|].
        by intros ?%elem_of_nil.
      - unfold SafeSync.executeOperations in Hexec.
        destruct (execute_each_failures _ _ _ _ _ _ _ Hexec) as (later & Hlater & Hform).
        exists later. split; [done|]. intros Hin.
        destruct (Hform _ Hin) as (op & message & Heq).
        unfold failure_message in Heq. simpl in Heq. discriminate Heq. }
    exists v, later. split; [done|]. split; [|split; [done|]].
    + simpl. by rewrite Hlater, Hperr.
    + simpl. intros Hok%bool_decide_eq_true. rewrite Hlater, Hperr in Hok.
      by apply (Hclean _ later).
Qed.

(** ** What a run does to the remote store *)

Lemma remote_kept_refl w : remote_kept w w.
Proof. intros pid files Hfiles. exists files. split; [done|]. intros f Hf. by exists f. Qed.

Lemma remote_kept_same w0 w w' : w'.(remote) = w.(remote) → remote_kept w0 w → remote_kept w0 w'.
Proof.
  intros Hsame Hkept pid files Hfiles. unfold MockClaudeClient.project_files. rewrite Hsame.
  by apply Hkept.
Qed.

Lemma elem_of_map_set_key {V} (key : V → string) v (m : list V) x :
  x ∈ m → ∃ x', x' ∈ map_set key v m ∧ key x' = key x.
Proof.
  induction m as [|y m IH]; [by intros ?%elem_of_nil|].
  cbn [map_set]. destruct (decide (key y = key v)) as [Heq|Hne].
  - intros [->|Hx]%elem_of_cons.
    + exists v. split; [left|done].
    + exists x. split; [by right|done].
  - intros [->|Hx]%elem_of_cons.
    + exists y. split; [left|done].
    + destruct (IH Hx) as (x' & ? & ?). exists x'. split; [by right|done].
Qed.

Lemma remote_kept_upload w0 w pid file :
  remote_kept w0 w →
  remote_kept w0
    match MockClaudeClient.project_files pid w with
    | Some projectFiles =>
        set_remote (map_set fst (pid, map_set kf_id file projectFiles) w.(remote)) w
    | None => w
    end.
Proof.
  intros Hkept. destruct (MockClaudeClient.project_files pid w) as [projectFiles|] eqn:Hpf;
    [|done].
  intros pid' files Hfiles. destruct (Hkept pid' files Hfiles) as (files1 & Hfiles1 & Hids).
  destruct (decide (pid' = pid)) as [->|Hne].
  - rewrite project_files_set. eexists. split; [done|]. intros f Hf.
    destruct (Hids f Hf) as (f1 & Hf1 & <-).
    assert (files1 = projectFiles) as -> by congruence.
    by apply elem_of_map_set_key.
  - rewrite project_files_set_ne by done. exists files1. done.
Qed.

Lemma keeps_remote_executeOne E this w0 result op :
  op.(SafeSync.type) = SafeSync.upload ∨ op.(SafeSync.type) = SafeSync.download →
  keeps (remote_kept w0) (SafeSync.executeOne E this result op).
Proof.
  intros Hty.
  assert (∀ f : World → World, (∀ w, remote (f w) = remote w) →
            keeps (remote_kept w0) (modify f)) as Hmodify.
  { intros f Hf. apply keeps_modify. intros w. by apply remote_kept_same. }
  assert (∀ {A} (m : M A), (∀ w r w', m w = (r, w') → remote w' = remote w) →
            keeps (remote_kept w0) m) as Hsame.
  { intros A m Hm w r w' HI Hrun. eapply remote_kept_same; [|exact HI]. by eapply Hm. }
  unfold SafeSync.executeOne, SafeSync.executeOperation.
  apply keeps_bind.
  - unfold SafeSync.backupBefore, BackupManager.createBackup, generateBackupId,
      JsonSyncStateDatabase.createBackup, JsonSyncStateDatabase.cleanupOldBackups,
      JsonSyncStateDatabase.deleteBackup, fs_copyFile.
    keeps; first
      [ apply Hmodify; intros w; done
      | apply Hsame; intros w r w';
        first [ unfold JsonSyncStateDatabase.initialize; case_match; by intros [= _ <-]
              | unfold JsonSyncStateDatabase.save, modify; by intros [= _ <-]
              | unfold new_Date; by intros [= _ <-]
              | unfold randomBytes; by intros [= _ <-]
              | unfold write_node; repeat case_match; by intros [= _ <-]
              | unfold fs_unlink; repeat case_match; by intros [= _ <-] ] ].
  - intros result1. apply keeps_try_catch; [|intros; apply keeps_ret].
    apply keeps_bind; [|intros; apply keeps_ret].
    destruct Hty as [-> | ->].
    + unfold SafeSync.executeUpload, MockClaudeClient.uploadKnowledgeFile,
        JsonSyncStateDatabase.saveFileState.
      keeps; first
        [ apply keeps_modify; intros w; by apply remote_kept_upload
        | apply Hmodify; intros w; done
        | apply Hsame; intros w r w';
          first [ unfold JsonSyncStateDatabase.initialize; case_match; by intros [= _ <-]
                | unfold JsonSyncStateDatabase.save, modify; by intros [= _ <-]
                | unfold new_Date; by intros [= _ <-]
                | unfold randomBytes; by intros [= _ <-] ] ].
    + unfold SafeSync.executeDownload, JsonSyncStateDatabase.saveFileState, fs_writeFile.
      keeps; first
        [ apply Hmodify; intros w; done
        | apply Hsame; intros w r w';
          first [ unfold JsonSyncStateDatabase.initialize; case_match; by intros [= _ <-]
                | unfold JsonSyncStateDatabase.save, modify; by intros [= _ <-]
                | unfold new_Date; by intros [= _ <-]
                | unfold write_node; repeat case_match; by intros [= _ <-] ] ].
Qed.

Lemma keeps_remote_each E this w0 ops result :
  Forall (λ op, op.(SafeSync.type) = SafeSync.upload
                ∨ op.(SafeSync.type) = SafeSync.download) ops →
  keeps (remote_kept w0) (fold_each ops (SafeSync.executeOne E this) result).
Proof.
  intros Hty. revert result. induction Hty as [|op ops Hop _ IH]; intros result.
  - apply keeps_ret.
  - cbn [fold_each]. apply keeps_bind; [by apply keeps_remote_executeOne|]. intros r1. apply IH.
Qed.

(** X22. A run never removes a file from the remote store: whatever the
    options and whatever the outcome, every project that the store knew
    before [sync] it knows after, and every file identifier that a project
    served before is served after. The store only changes by uploads. *)
Theorem sync_never_removes_a_remote_file E (this : SafeSync.t) w r w' :
  SafeSync.sync E this w = (Ok r, w') →
  ∀ pid files, MockClaudeClient.project_files pid w = Some files →
    ∃ files', MockClaudeClient.project_files pid w' = Some files' ∧
      ∀ f, f ∈ files → ∃ f', f' ∈ files' ∧ f'.(kf_id) = f.(kf_id).
Proof.
  intros Hrun. apply sync_case_of in Hrun.
  change (remote_kept w w').
  destruct Hrun as [result Hcheck _ ->|result message Hcheck Hplan _ ->
                   |result planned executed w2 Hcheck Hplan Hexec _ _ ->];
    [by apply (remote_kept_same w w), remote_kept_refl..|].
  apply (remote_kept_same w w2); [done|].
  destruct (SafeSync.dryRun _);
    [destruct Hexec as [_ ->]; by apply (remote_kept_same w w), remote_kept_refl|].
  destruct (initialize_opens w) as [_ Hinit].
  pose proof (planAndResolve_types _ _ _ _ _ _ Hinit Hplan) as Htypes.
  unfold SafeSync.executeOperations in Hexec.
  apply (keeps_remote_each E this w planned.(SafeSync.operations) planned) in Hexec;
    [done| |by apply (remote_kept_same w w), remote_kept_refl].
  apply Forall_forall. intros op Hop. destruct (Htypes op Hop) as [[? _]|[? _]]; auto.
Qed.

(** ** Uploads and downloads *)


Lemma find_first {A} (P : A → bool) (l : list A) x :
  List.find P l = Some x →
  ∃ before after, l = before ++ x :: after ∧ P x = true ∧ ∀ y, y ∈ before → P y = false.
Proof.
  induction l as [|y l IH]; [done|]. cbn [List.find].
  destruct (P y) eqn:Hy.
  - intros [= ->]. exists [], l. split; [done|]. split; [done|]. by intros ? ?%elem_of_nil.
  - intros Hfind. destruct (IH Hfind) as (before & after & -> & Hx & Hbefore).
    exists (y :: before), after. split; [done|]. split; [done|].
    intros z [->|Hz]%elem_of_cons; auto.
Qed.

(** X24. What a download writes. When [executeDownload] returns, the file
    picked is the first one, in the order of the remote listing, whose path
    is the path of the operation; the local file then holds the content
    that the store serves under the identifier of that file (the empty text
    when it serves none), and the database has a record for the path that
    names the file picked, holds the hash of the bytes written, carries the
    remote update time and is not marked deleted. The remote store is
    untouched and one more download is counted. *)
Theorem download_writes_the_first_match E (this : SafeSync.t) op result w r' w' :
  w.(db).(initialized) = true →
  SafeSync.executeDownload E this op result w = (Ok r', w') →
  ∃ before picked after served st,
    MockClaudeClient.listKnowledgeFiles this.(SafeSync.projectId) w
    = (Ok (before ++ picked :: after), w) ∧
    picked.(kf_path) = op.(SafeSync.filePath) ∧
    (∀ f, f ∈ before → f.(kf_path) ≠ op.(SafeSync.filePath)) ∧
    MockClaudeClient.getKnowledgeFile this.(SafeSync.projectId) picked.(kf_id) w
    = (Ok served, w) ∧
    fs_readFile E (path_join this.(SafeSync.localPath) op.(SafeSync.filePath)) w'
    = (Ok (default "" served.(kf_content)), w') ∧
    JsonSyncStateDatabase.getFileState this.(SafeSync.projectId) op.(SafeSync.filePath) w'
    = (Ok (Some st), w') ∧
    st.(remoteId) = Some picked.(kf_id) ∧
    st.(SyncState.localHash) = E.(sha256) (default "" served.(kf_content)) ∧
    st.(SyncState.remoteMtime) = Some picked.(kf_updatedAt) ∧
    st.(syncDirection) = SyncState.download ∧
    st.(isDeleted) = false ∧
    w'.(remote) = w.(remote) ∧
    r'.(SafeSync.stats).(SafeSync.filesDownloaded)
    = result.(SafeSync.stats).(SafeSync.filesDownloaded) + 1.
Proof.
  intros Hinit Hrun. unfold SafeSync.executeDownload in Hrun.
  apply bind_Ok in Hrun as (files & w1 & Hlist & Hrun).
  pose proof (listKnowledgeFiles_pure _ _ _ _ Hlist) as ->.
  destruct (find _ files) as [picked|] eqn:Hfind; [|done].
  apply find_first in Hfind as (before & after & -> & Hpicked & Hbefore).
  apply bool_decide_eq_true in Hpicked.
  apply bind_Ok in Hrun as (served & w1 & Hget & Hrun).
  assert (w1 = w) as ->.
  { revert Hget. unfold MockClaudeClient.getKnowledgeFile. repeat case_match; congruence. }
  apply bind_Ok in Hrun as ([] & w1 & Hmkdir & Hrun).
  apply fs_mkdir_pure in Hmkdir as ->.
  apply bind_Ok in Hrun as ([] & w1 & Hwrite & Hrun).
  apply bind_Ok in Hrun as (n & w2 & Hstat & Hrun).
  pose proof (fs_stat_pure _ _ _ _ _ Hstat) as ->.
  apply bind_Ok in Hrun as (h & w2 & Hhash & Hrun).
  apply calculateFileHash_Ok in Hhash as (-> & c & Hread & ->).
  apply bind_Ok in Hrun as (now & w2 & Hnow & Hrun). injection Hnow as <- <-.
  apply bind_Ok in Hrun as ([] & w2 & Hsave & Hrun). injection Hrun as <- <-.
  assert (w1.(db) = w.(db) ∧ w1.(remote) = w.(remote)
          ∧ c = default "" served.(kf_content)) as (Hdb & Hremote & ->).
  { unfold fs_writeFile, write_node in Hwrite.
    apply fs_readFile_lookup in Hread as (f & Hf & _ & <-).
    destruct (fs w !! _) as [[f0|t]|]; [|done|]; injection Hwrite as <-;
      simpl in Hf; rewrite lookup_insert_eq in Hf; injection Hf as <-; done. }
  rewrite saveFileState_run in Hsave by (simpl; by rewrite Hdb). injection Hsave as <-.
  exists before, picked, after, served. eexists.
  split; [done|]. split; [done|]. split.
  { intros f Hf Hpath. apply Hbefore in Hf. by apply bool_decide_eq_false in Hf. }
  split; [done|]. split.
  { apply fs_readFile_lookup. by apply fs_readFile_lookup in Hread. }
  split.
  { rewrite getFileState_idle by (simpl; by rewrite Hdb).
    cbn [db set_db set_clock syncStates JsonSyncStateDatabase.saved
           JsonSyncStateDatabase.set_syncStates].
    match goal with
    | |- context [map_set JsonSyncStateDatabase.stateKey ?e _] =>
        change (JsonSyncStateDatabase.getStateKey _ _) with (JsonSyncStateDatabase.stateKey e)
    end.
    by rewrite map_get_map_set_eq. }
  done.
Qed.

(** ** Exclusion patterns *)






(** ** Backups during a run *)

(** X26. With backups disabled, the backup step of an operation that
    requires a backup copies nothing and records nothing, yet the run
    counts a backup as created: [createBackup] reports success without
    doing anything, and the step increments [backupsCreated]. *)
Theorem disabled_backups_are_counted E (this : SafeSync.t) op result w :
  this.(SafeSync.backupManager).(BackupManager.options).(BackupManager.enabled) = false →
  op.(SafeSync.backupRequired) = true →
  ∃ result',
    SafeSync.backupBefore E this op result w = (Ok result', w) ∧
    result'.(SafeSync.stats).(SafeSync.backupsCreated)
    = result.(SafeSync.stats).(SafeSync.backupsCreated) + 1 ∧
    result'.(SafeSync.warnings) = result.(SafeSync.warnings) ∧
    result'.(SafeSync.errors) = result.(SafeSync.errors).
Proof.
  intros Hoff Hreq. unfold SafeSync.backupBefore, BackupManager.createBackup.
  rewrite Hreq, Hoff. by eexists.
Qed.

(** ** Deleting a local file *)

Lemma createBackup_keeps_states E (this : BackupManager.t) p reason (S : list SyncStateEntry) R :
  keeps (λ w, w.(db).(initialized) = true ∧ w.(db).(syncStates) = S ∧ w.(remote) = R)
        (BackupManager.createBackup E this p reason).
Proof.
  assert (∀ {A} (m : M A),
            (∀ w r w', w.(db).(initialized) = true → m w = (r, w') →
                       w'.(db).(initialized) = true ∧ w'.(db).(syncStates) = w.(db).(syncStates)
                       ∧ w'.(remote) = w.(remote)) →
            keeps (λ w, w.(db).(initialized) = true ∧ w.(db).(syncStates) = S ∧ w.(remote) = R)
                  m) as Hsame.
  { intros A m Hm w r w' (Hi & Hs & Hr) Hrun.
    destruct (Hm w r w' Hi Hrun) as (? & ? & ?). repeat split; congruence. }
  unfold BackupManager.createBackup, generateBackupId,
    JsonSyncStateDatabase.createBackup, JsonSyncStateDatabase.cleanupOldBackups,
    JsonSyncStateDatabase.deleteBackup, fs_copyFile.
  keeps; apply Hsame; intros w r w' Hi;
    first [ rewrite initialize_idle by done; by intros [= _ <-]
          | unfold JsonSyncStateDatabase.save, modify; by intros [= _ <-]
          | unfold modify; by intros [= _ <-]
          | unfold new_Date; by intros [= _ <-]
          | unfold randomBytes; by intros [= _ <-]
          | unfold write_node; repeat case_match; by intros [= _ <-]
          | unfold fs_unlink; repeat case_match; by intros [= _ <-] ].
Qed.

(** X27. What deleting a local file leaves behind. When
    [executeLocalDelete] returns, nothing is at the local path any more,
    whether or not the backup made before the deletion succeeded: its
    result is not looked at. The record of the path, if there was one, is
    not removed from the database but kept and marked deleted, with its
    remote identifier; the remote store is untouched. *)
Theorem local_delete_leaves_a_marked_record E (this : SafeSync.t) op result w r' w' :
  w.(db).(initialized) = true →
  SafeSync.executeLocalDelete E this op result w = (Ok r', w') →
  r' = result ∧
  w'.(fs) !! resolve E (path_join this.(SafeSync.localPath) op.(SafeSync.filePath)) = None ∧
  w'.(remote) = w.(remote) ∧
  match (JsonSyncStateDatabase.getFileState this.(SafeSync.projectId)
           op.(SafeSync.filePath) w).1 with
  | Ok (Some st) =>
      ∃ st', JsonSyncStateDatabase.getFileState this.(SafeSync.projectId)
               op.(SafeSync.filePath) w' = (Ok (Some st'), w') ∧
             st'.(isDeleted) = true ∧ st'.(remoteId) = st.(remoteId) ∧
             st'.(SyncState.localHash) = st.(SyncState.localHash)
  | _ => JsonSyncStateDatabase.getFileState this.(SafeSync.projectId)
           op.(SafeSync.filePath) w' = (Ok None, w')
  end.
Proof.
  intros Hinit Hrun. unfold SafeSync.executeLocalDelete in Hrun.
  set (lp := path_join this.(SafeSync.localPath) op.(SafeSync.filePath)) in *.
  rewrite (bind_run _ _ _ _ _ (fileExists_run E lp w)) in Hrun.
  apply bind_Ok in Hrun as ([] & w1 & Hgone & Hrun).
  assert (w1.(fs) !! resolve E lp = None ∧ w1.(db).(initialized) = true
          ∧ w1.(db).(syncStates) = w.(db).(syncStates) ∧ w1.(remote) = w.(remote))
    as (Hfs & Hinit1 & Hstates & Hremote).
  { case_bool_decide as Hthere.
    - apply bind_Ok in Hgone as (br & w0 & Hbackup & Hunlink).
      destruct (createBackup_keeps_states E this.(SafeSync.backupManager) lp "delete"
                  w.(db).(syncStates) w.(remote) w (Ok br) w0) as (Hi0 & Hs0 & Hr0);
        [done|done|].
      unfold fs_unlink in Hunlink.
      destruct (fs w0 !! resolve E lp) as [[f|t]|]; [|done..].
      injection Hunlink as <-. simpl. rewrite lookup_delete_eq. done.
    - injection Hgone as <-. split; [|done].
      destruct (fs w !! resolve E lp) eqn:Hnode; [|done]. destruct Hthere. by eexists. }
  rewrite getFileState_idle by done. simpl.
  rewrite (bind_run _ _ _ _ _ (getFileState_idle _ _ _ Hinit1)) in Hrun.
  rewrite Hstates in Hrun.
  destruct (map_get _ _ (syncStates (db w))) as [st|] eqn:Hst.
  - apply bind_Ok in Hrun as (now & w2 & Hnow & Hrun). injection Hnow as <- <-.
    apply bind_Ok in Hrun as ([] & w2 & Hsave & Hrun). injection Hrun as <- <-.
    rewrite saveFileState_run in Hsave by done. injection Hsave as <-.
    split; [done|]. split; [done|]. split; [done|].
    exists (SafeSync.mark_deleted (clock w1) st). split; [|done].
    rewrite getFileState_idle by done.
    cbn [db set_db set_clock syncStates JsonSyncStateDatabase.saved
           JsonSyncStateDatabase.set_syncStates].
    apply map_get_Some in Hst as [_ Hkey].
    rewrite <- Hkey.
    change (JsonSyncStateDatabase.stateKey st)
      with (JsonSyncStateDatabase.stateKey (SafeSync.mark_deleted (clock w1) st)).
    by rewrite map_get_map_set_eq.
  - injection Hrun as <- <-. split; [done|]. split; [done|]. split; [done|].
    rewrite getFileState_idle by done. by rewrite Hstates, Hst.
Qed.

Lemma remote_change_is_classified_witness :
  drifted_world.(db).(initialized) = true ∧
  MockClaudeClient.listKnowledgeFiles "p1" drifted_world = (Ok [remote_note], drifted_world) ∧
  ∃ f',
    SyncValidator.validateRemoteFiles sound_env engine.(SafeSync.validator) no_findings
      drifted_world = (Ok f', drifted_world) ∧
    SyncValidator.conflictType <$> f'.(SyncValidator.found_conflicts)
    = [SyncValidator.local_deleted].
Proof.
  split; [reflexivity|]. split; [reflexivity|].
  destruct (remote_change_is_classified sound_env engine.(SafeSync.validator) no_findings
              drifted_world [remote_note] eq_refl eq_refl) as (f' & Hrun & _ & Hconf & _).
  exists f'. split; [exact Hrun|]. rewrite Hconf. reflexivity.
Defined.

Lemma forced_run_keeps_the_validation_errors_witness :
  forced.(SafeSync.options).(SafeSync.validation).(SafeSync.enabled) = true ∧
  forced.(SafeSync.options).(SafeSync.force) = true ∧
  ∃ r w' v later,
    SafeSync.sync sound_env forced locked_world = (Ok r, w') ∧
    r.(SafeSync.errors) = error_messages v.(SyncValidator.issues) ++ later ∧
    r.(SafeSync.success) = false ∧
    length r.(SafeSync.executedOperations) = 2%nat.
Proof.
  split; [reflexivity|]. split; [reflexivity|].
  destruct (sync_cases sound_env forced locked_world) as (r & w' & Hrun & _).
  destruct (forced_run_keeps_the_validation_errors sound_env forced locked_world r w'
              eq_refl eq_refl Hrun) as (v & later & _ & Herrors & _).
  exists r, w', v, later. split; [exact Hrun|]. split; [exact Herrors|].
  pose proof Hrun as Hrun'. vm_compute in Hrun'. injection Hrun' as Hr _.
  rewrite <- Hr. split; reflexivity.
Defined.

Lemma sync_never_removes_a_remote_file_witness :
  ∃ r w' files',
    SafeSync.sync sound_env engine fresh_world = (Ok r, w') ∧
    MockClaudeClient.project_files "p1" w' = Some files' ∧
    ∀ f, f ∈ [remote_note] → ∃ f', f' ∈ files' ∧ f'.(kf_id) = f.(kf_id).
Proof.
  destruct (sync_cases sound_env engine fresh_world) as (r & w' & Hrun & _).
  destruct (sync_never_removes_a_remote_file sound_env engine fresh_world r w' Hrun
              "p1" [remote_note] eq_refl) as (files' & Hfiles & Hkept).
  exists r, w', files'. split; [exact Hrun|]. split; [exact Hfiles|exact Hkept].
Defined.


Lemma download_writes_the_first_match_witness :
  (open_world fresh_world).(db).(initialized) = true ∧
  ∃ r' w' served,
    SafeSync.executeDownload sound_env engine download_of_r (SafeSync.initial_result engine)
      (open_world fresh_world) = (Ok r', w') ∧
    fs_readFile sound_env "/work/proj/r.md" w' = (Ok (default "" served.(kf_content)), w') ∧
    w'.(remote) = fresh_world.(remote) ∧
    r'.(SafeSync.stats).(SafeSync.filesDownloaded) = 1.
Proof.
  split; [reflexivity|].
  destruct (SafeSync.executeDownload sound_env engine download_of_r
              (SafeSync.initial_result engine) (open_world fresh_world))
    as [[r'|e] w'] eqn:Hrun; [|by vm_compute in Hrun].
  destruct (download_writes_the_first_match sound_env engine download_of_r
              (SafeSync.initial_result engine) (open_world fresh_world) r' w' eq_refl Hrun)
    as (before & picked & after & served & st & _ & _ & _ & _ & Hread & _ & _ & _ & _ & _
        & _ & Hremote & Hcount).
  exists r', w', served. split; [reflexivity|]. split; [exact Hread|].
  split; [exact Hremote|exact Hcount].
Defined.

Lemma disabled_backups_are_counted_witness :
  unguarded.(SafeSync.backupManager).(BackupManager.options).(BackupManager.enabled) = false ∧
  upload_of_a.(SafeSync.backupRequired) = true ∧
  ∃ result',
    SafeSync.backupBefore sound_env unguarded upload_of_a (SafeSync.initial_result unguarded)
      edited_world = (Ok result', edited_world) ∧
    result'.(SafeSync.stats).(SafeSync.backupsCreated) = 1.
Proof.
  split; [reflexivity|]. split; [reflexivity|].
  destruct (disabled_backups_are_counted sound_env unguarded upload_of_a
              (SafeSync.initial_result unguarded) edited_world eq_refl eq_refl)
    as (result' & Hrun & Hcount & _).
  exists result'. split; [exact Hrun|exact Hcount].
Defined.

Lemma local_delete_leaves_a_marked_record_witness :
  edited_world.(db).(initialized) = true ∧
  ∃ r' w' st',
    SafeSync.executeLocalDelete sound_env engine delete_of_a (SafeSync.initial_result engine)
      edited_world = (Ok r', w') ∧
    w'.(fs) !! resolve sound_env (path_join engine.(SafeSync.localPath)
                                    delete_of_a.(SafeSync.filePath)) = None ∧
    JsonSyncStateDatabase.getFileState engine.(SafeSync.projectId)
      delete_of_a.(SafeSync.filePath) w' = (Ok (Some st'), w') ∧
    st'.(isDeleted) = true.
Proof.
  split; [reflexivity|].
  destruct (SafeSync.executeLocalDelete sound_env engine delete_of_a
              (SafeSync.initial_result engine) edited_world)
    as [[r'|e] w'] eqn:Hrun; [|by vm_compute in Hrun].
  destruct (local_delete_leaves_a_marked_record sound_env engine delete_of_a
              (SafeSync.initial_result engine) edited_world r' w' eq_refl Hrun)
    as (_ & Hfs & _ & Hst).
  assert ((JsonSyncStateDatabase.getFileState engine.(SafeSync.projectId)
             delete_of_a.(SafeSync.filePath) edited_world).1 = Ok (Some tracked_entry)) as Heq
    by reflexivity.
  rewrite Heq in Hst. destruct Hst as (st' & Hget & Hdeleted & _).
  exists r', w', st'. split; [reflexivity|]. split; [exact Hfs|]. split; [exact Hget|exact Hdeleted].
Defined.
